(** * Evacuation simulation: a shallow embedding of [rooms.py] and
    [shitty_simulation.py], and the properties of its timing model, its
    assignment policy and its driver loop.

    Numbers.  Python [int] is [Z].  Python [float] is read as an exact
    rational ([Q]); two floats are "the same number" when they are [Qeq]
    ([==]).  [float("inf")], which the two nearest-neighbour scans use as the
    initial best distance, is the [None] of an [option].  [math.hypot] is a
    function of the Python library, not of this repository: the simulation
    is parameterised by it.  Module [Sim] takes a [hypot] whose result is
    always a number; module [Ext] is the same program for a [hypot] that
    may also return [inf] or [nan], and the properties that depend on a
    scan finding no candidate are stated there.

    Objects.  [RoomNode] and [OccupantInfo] are mutable objects that the
    caller and the simulation share, so they live in a store and are
    referred to by address ([ref]).  Python's [is] is equality of addresses,
    Python's [==] on dataclasses is field-wise equality of the objects the
    addresses point to. *)

From Stdlib Require Import ZArith QArith Qround Qminmax List String Bool Lia Lqa.
Import ListNotations.
Open Scope Q_scope.

(* ------------------------------------------------------------------ *)
(** ** rooms.py *)

Module Rooms.

Definition Point : Type := (Q * Q)%type.

Definition ref : Type := nat.

(** [class OccupantInfo]: counts of each occupant type in a room. *)
Record OccupantInfo : Type := mkOccupantInfo {
  adults : Z;
  children : Z;
  unabled : Z
}.

(** [class Door]. *)
Record Door : Type := mkDoor {
  door_x : Q;
  door_y : Q
}.

Definition Door_position (d : Door) : Point := (door_x d, door_y d).

(** [class RoomGeometry] (and its alias [RectRoomShape]). *)
Record RoomGeometry : Type := mkRoomGeometry {
  bottom_left : Point;
  top_right : Point
}.

Definition center (g : RoomGeometry) : Point :=
  ((fst (bottom_left g) + fst (top_right g)) / 2,
   (snd (bottom_left g) + snd (top_right g)) / 2).

(** [class RoomNode].  [occupants] is a reference to an [OccupantInfo]
    object: the constructor stores the object it is given. *)
Record RoomNode : Type := mkRoomNode {
  id : string;
  base_clear_time : Q;
  occupants : ref;
  shape : RoomGeometry;
  doors : list Door
}.

(** [class ExitNode]. *)
Record ExitNode : Type := mkExitNode {
  exit_id : string;
  exit_x : Q;
  exit_y : Q
}.

Definition ExitNode_position (e : ExitNode) : Point := (exit_x e, exit_y e).

(** The store: the room objects, the occupant objects, and what has been
    printed so far. *)
Record World : Type := mkWorld {
  room_at : ref -> RoomNode;
  occ_at : ref -> OccupantInfo;
  stdout : list string
}.

(** [room.occupants] followed through the store. *)
Definition occupants_of (w : World) (room : ref) : OccupantInfo :=
  occ_at w (occupants (room_at w room)).

(** [RoomNode.clearance_time]:
      extra = 5 * self.occupants.children
      return ceil(self.base_clear_time + extra) *)
Definition clearance_time (w : World) (room : ref) : Z :=
  let extra := (5 * children (occupants_of w room))%Z in
  Qceiling (base_clear_time (room_at w room) + inject_Z extra).

(** [RoomNode.get_door_positions]. *)
Definition get_door_positions (r : RoomNode) : list Point :=
  map Door_position (doors r).

(** [room.occupants.unabled = 0]: the one write of the simulation. *)
Definition set_unabled_zero (w : World) (room : ref) : World :=
  let o := occupants (room_at w room) in
  mkWorld (room_at w)
          (fun a => if Nat.eqb a o
                    then mkOccupantInfo (adults (occ_at w a)) (children (occ_at w a)) 0
                    else occ_at w a)
          (stdout w).

(** [print(s)]. *)
Definition print (s : string) (w : World) : World :=
  mkWorld (room_at w) (occ_at w) (stdout w ++ [s]).

(** *** Field-wise equality, as the generated [__eq__] of a dataclass. *)

Definition Point_eqb (a b : Point) : bool :=
  Qeq_bool (fst a) (fst b) && Qeq_bool (snd a) (snd b).

Definition OccupantInfo_eqb (a b : OccupantInfo) : bool :=
  Z.eqb (adults a) (adults b) && Z.eqb (children a) (children b)
  && Z.eqb (unabled a) (unabled b).

Definition Door_eqb (a b : Door) : bool :=
  Qeq_bool (door_x a) (door_x b) && Qeq_bool (door_y a) (door_y b).

Fixpoint doors_eqb (l1 l2 : list Door) : bool :=
  match l1, l2 with
  | [], [] => true
  | a :: t1, b :: t2 => Door_eqb a b && doors_eqb t1 t2
  | _, _ => false
  end.

Definition RoomGeometry_eqb (a b : RoomGeometry) : bool :=
  Point_eqb (bottom_left a) (bottom_left b) && Point_eqb (top_right a) (top_right b).

(** [a == b] for two room objects: (id, base_clear_time, occupants, shape,
    doors) compared as tuples. *)
Definition RoomNode_eqb (w : World) (a b : ref) : bool :=
  let ra := room_at w a in
  let rb := room_at w b in
  String.eqb (id ra) (id rb)
  && Qeq_bool (base_clear_time ra) (base_clear_time rb)
  && OccupantInfo_eqb (occ_at w (occupants ra)) (occ_at w (occupants rb))
  && RoomGeometry_eqb (shape ra) (shape rb)
  && doors_eqb (doors ra) (doors rb).

(** The comparison that [in] and [list.remove] apply to each element:
    [x is y or x == y]. *)
Definition same_room (w : World) (x y : ref) : bool :=
  Nat.eqb x y || RoomNode_eqb w x y.

(** [room in l]. *)
Definition py_in (w : World) (room : ref) (l : list ref) : bool :=
  existsb (fun x => same_room w x room) l.

(** [l.remove(room)]: drops the first element that compares equal.  (Python
    raises when there is none; every call is guarded by [room in l].) *)
Fixpoint py_remove (w : World) (room : ref) (l : list ref) : list ref :=
  match l with
  | [] => []
  | x :: t => if same_room w x room then t else x :: py_remove w room t
  end.

(** *** The rectangle helpers of [RoomGeometry] *)

Definition x_min (g : RoomGeometry) : Q := fst (bottom_left g).
Definition y_min (g : RoomGeometry) : Q := snd (bottom_left g).
Definition x_max (g : RoomGeometry) : Q := fst (top_right g).
Definition y_max (g : RoomGeometry) : Q := snd (top_right g).

Definition width (g : RoomGeometry) : Q := fst (top_right g) - fst (bottom_left g).
Definition height (g : RoomGeometry) : Q := snd (top_right g) - snd (bottom_left g).

(** [contains_point(x, y)]:
      self.x_min <= x <= self.x_max and self.y_min <= y <= self.y_max *)
Definition contains_point (g : RoomGeometry) (x y : Q) : bool :=
  (Qle_bool (x_min g) x && Qle_bool x (x_max g))
  && (Qle_bool (y_min g) y && Qle_bool y (y_max g)).

End Rooms.

Import Rooms.

(* ------------------------------------------------------------------ *)
(** ** shitty_simulation.py *)

Module Sim.

(** The four strings that [ResponderState.state] takes. *)
Inductive State : Type := idle | moving | clearing | evacuating_unabled.

(** [class ResponderState]. *)
Record ResponderState : Type := mkResponderState {
  state : State;
  time_remaining : Q;
  position : Point;
  target_room : option ref;
  target_door : option Point
}.

(** Python exceptions. *)
Inductive exn : Type :=
| ValueError (msg : string)
| AttributeError
| TypeError.

(** The result of running a piece of code from a store: a value and the
    store it leaves, or an exception and the store at the [raise].
    [OutOfFuel] belongs to the model only: the [while] loop is run with a
    bound on the number of passes. *)
Inductive Res (A : Type) : Type :=
| Ok (a : A) (w : World)
| Raise (e : exn) (w : World)
| OutOfFuel.

Arguments Ok {A} a w.
Arguments Raise {A} e w.
Arguments OutOfFuel {A}.

Definition M (A : Type) : Type := World -> Res A.

Definition ret {A : Type} (a : A) : M A := fun w => Ok a w.

Definition raise {A : Type} (e : exn) : M A := fun w => Raise e w.

Definition bind {A B : Type} (m : M A) (k : A -> M B) : M B :=
  fun w =>
    match m w with
    | Ok a w' => k a w'
    | Raise e w' => Raise e w'
    | OutOfFuel => OutOfFuel
    end.

Notation "x <- m ;; k" := (bind m (fun x => k))
  (at level 61, m at next level, right associativity).
Notation "' p <- m ;; k" := (bind m (fun x => let p := x in k))
  (at level 61, p pattern, m at next level, right associativity).

(** The store a result ends in, when there is one. *)
Definition final_world {A : Type} (r : Res A) : option World :=
  match r with
  | Ok _ w => Some w
  | Raise _ w => Some w
  | OutOfFuel => None
  end.

(** [a < b] on floats. *)
Definition Qlt_bool (a b : Q) : bool := negb (Qle_bool b a).

(** The tolerance [1e-9] of the driver. *)
Definition eps : Q := 1 # 1000000000.

(** [r.state in ("moving", "clearing", "evacuating_unabled")]. *)
Definition is_active (r : ResponderState) : bool :=
  match state r with
  | idle => false
  | moving | clearing | evacuating_unabled => true
  end.

Section WithHypot.

(** [math.hypot]. *)
Variable hypot : Q -> Q -> Q.

(** [_distance(a, b) = hypot(a[0] - b[0], a[1] - b[1])]. *)
Definition _distance (a b : Point) : Q :=
  hypot (fst a - fst b) (snd a - snd b).

(** [room.get_door_positions() or [room.shape.center]]. *)
Definition door_positions_or_center (w : World) (room : ref) : list Point :=
  match get_door_positions (room_at w room) with
  | [] => [center (shape (room_at w room))]
  | p :: ps => p :: ps
  end.

(** The three variables [best_room], [best_door], [best_dist] of
    [_choose_nearest_room] are assigned together; [None] is their initial
    value [(None, None, inf)].  The body of the inner loop:
      dist = _distance(responder.position, d)
      if dist < best_dist: best_dist, best_room, best_door = dist, room, d *)
Definition consider_door (pos : Point) (room : ref)
    (best : option (ref * Point * Q)) (d : Point) : option (ref * Point * Q) :=
  let dist := _distance pos d in
  match best with
  | None => Some (room, d, dist)
  | Some (_, _, best_dist) =>
      if Qlt_bool dist best_dist then Some (room, d, dist) else best
  end.

(** The body of the outer loop [for room in rooms_left]. *)
Definition consider_room (w : World) (pos : Point)
    (best : option (ref * Point * Q)) (room : ref) : option (ref * Point * Q) :=
  fold_left (consider_door pos room) (door_positions_or_center w room) best.

(** [_choose_nearest_room(responder, rooms_left, speed)], reading the rooms
    in store [w]; it returns the triple (room, door, travel_time). *)
Definition _choose_nearest_room (w : World) (responder : ResponderState)
    (rooms_left : list ref) (speed : Q) : option ref * option Point * Q :=
  match rooms_left with
  | [] => (None, None, 0)
  | _ :: _ =>
      match fold_left (consider_room w (position responder)) rooms_left None with
      | None => (None, None, 0)
      | Some (best_room, best_door, best_dist) =>
          let travel_time := if Qlt_bool 0 speed then best_dist / speed else 0 in
          (Some best_room, Some best_door, travel_time)
      end
  end.

(** The loop body of [_nearest_exit]; [None] is the initial
    [(best_exit, best_dist) = (None, inf)]. *)
Definition consider_exit (source : Point)
    (best : option (ExitNode * Q)) (ex : ExitNode) : option (ExitNode * Q) :=
  let pos := ExitNode_position ex in
  let dist := _distance source pos in
  match best with
  | None => Some (ex, dist)
  | Some (_, best_dist) => if Qlt_bool dist best_dist then Some (ex, dist) else best
  end.

(** [_nearest_exit(source, exits)].  After a loop over a non-empty list the
    best exit is never [None] here (every distance is a number below
    [inf]); that branch returns distance 0 in place of [inf], which no
    caller reads. *)
Definition _nearest_exit (source : Point) (exits : list ExitNode)
    : option ExitNode * Q :=
  match exits with
  | [] => (None, 0)
  | _ :: _ =>
      match fold_left (consider_exit source) exits None with
      | None => (None, 0)
      | Some (best_exit, best_dist) => (Some best_exit, best_dist)
      end
  end.

(** [not exits]. *)
Definition is_empty {A : Type} (l : list A) : bool :=
  match l with [] => true | _ :: _ => false end.

(** [_unabled_evac_time(num_unabled, door_position, exits, responder_speed)]. *)
Definition _unabled_evac_time (num_unabled : Z) (door_position : Point)
    (exits : list ExitNode) (responder_speed : Q) : Q * Point :=
  if (num_unabled <=? 0)%Z || Qle_bool responder_speed 0 || is_empty exits
  then (0, door_position)
  else
    match _nearest_exit door_position exits with
    | (None, _) => (0, door_position)
    | (Some exit_node, dist) =>
        let d := dist in
        let s := responder_speed in
        let extra_time :=
          if (num_unabled =? 1)%Z then 2 * d / s
          else inject_Z (3 * num_unabled - 1) * d / s in
        let final_position := ExitNode_position exit_node in
        (extra_time, final_position)
    end.

(** *** The driver *)

(** The variables of [find_fastest_evacuation]: its parameters [rooms],
    [exits] and [responder_speed], and its locals.  [rooms] is the caller's
    list; [remaining_rooms = list(rooms)] is a list of the function's own. *)
Record Frame : Type := mkFrame {
  rooms : list ref;
  exits : list ExitNode;
  responder_speed : Q;
  remaining_rooms : list ref;
  responders : list ResponderState;
  current_time : Q
}.

(** [already_taken]: the target rooms of the responders that are moving,
    clearing or evacuating and have a target. *)
Definition already_taken (rs : list ResponderState) : list ref :=
  flat_map (fun r =>
              if is_active r
              then match target_room r with Some room => [room] | None => [] end
              else []) rs.

(** [[room for room in remaining_rooms if room not in already_taken]]. *)
Definition available_rooms (w : World) (remaining : list ref)
    (rs : list ResponderState) : list ref :=
  filter (fun room => negb (py_in w room (already_taken rs))) remaining.

(** One turn of the assignment loop [for r in responders]: the responder
    after it and the rooms still available. *)
Definition assign_one (w : World) (speed : Q) (r : ResponderState)
    (available : list ref) : ResponderState * list ref :=
  match state r, available with
  | idle, _ :: _ =>
      match _choose_nearest_room w r available speed with
      | (None, _, _) => (r, available)
      | (Some room, door, travel_time) =>
          (mkResponderState moving travel_time (position r) (Some room) door,
           filter (fun rm => negb (Nat.eqb rm room)) available)
      end
  | _, _ => (r, available)
  end.

Fixpoint assign_idle (w : World) (speed : Q) (rs : list ResponderState)
    (available : list ref) : list ResponderState * list ref :=
  match rs with
  | [] => ([], available)
  | r :: rest =>
      let '(r', available') := assign_one w speed r available in
      let '(rest', available'') := assign_idle w speed rest available' in
      (r' :: rest', available'')
  end.

(** [min] of a non-empty sequence [x, l...]: the first smallest. *)
Definition py_min (x : Q) (l : list Q) : Q :=
  fold_left (fun m y => if Qlt_bool y m then y else m) l x.

(** [if room in remaining_rooms: remaining_rooms.remove(room)]. *)
Definition remove_if_in (w : World) (room : ref) (remaining : list ref) : list ref :=
  if py_in w room remaining then py_remove w room remaining else remaining.

(** One turn of the loop "process responders who just finished an action".
    In the [moving] branch a responder without a target room fails on
    [r.target_room.id]; one without a target door would go on with position
    [None] and fail at the next distance computation, which is rendered
    here as a [TypeError] on the spot.  Neither happens: see
    [moving_has_target]. *)
Definition process_one (exits : list ExitNode) (speed : Q) (r : ResponderState)
    (remaining : list ref) : M (ResponderState * list ref) :=
  fun w =>
    if Qlt_bool eps (time_remaining r) then Ok (r, remaining) w
    else
      match state r with
      | idle => Ok (r, remaining) w
      | moving =>
          match target_room r, target_door r with
          | None, _ => Raise AttributeError w
          | Some _, None => Raise TypeError w
          | Some room, Some door =>
              let w1 := print ("Responder arrived at room "
                               ++ id (room_at w room) ++ " door.")%string w in
              Ok (mkResponderState clearing (inject_Z (clearance_time w1 room))
                                   door (Some room) (Some door), remaining) w1
          end
      | clearing =>
          match target_room r with
          | None =>
              Ok (mkResponderState idle (time_remaining r) (position r)
                                   None (target_door r), remaining) w
          | Some room =>
              let num_unabled := unabled (occupants_of w room) in
              if (0 <? num_unabled)%Z && negb (is_empty exits) then
                let '(extra_time, final_pos) :=
                  _unabled_evac_time num_unabled (position r) exits speed in
                let w1 := set_unabled_zero w room in
                Ok (mkResponderState evacuating_unabled extra_time final_pos
                                     (Some room) (target_door r), remaining) w1
              else
                Ok (mkResponderState idle 0 (position r) None None,
                    remove_if_in w room remaining) w
          end
      | evacuating_unabled =>
          let remaining' :=
            match target_room r with
            | Some room => remove_if_in w room remaining
            | None => remaining
            end in
          Ok (mkResponderState idle 0 (position r) None None, remaining') w
      end.

Fixpoint process_all (exits : list ExitNode) (speed : Q)
    (rs : list ResponderState) (remaining : list ref)
    : M (list ResponderState * list ref) :=
  match rs with
  | [] => ret ([], remaining)
  | r :: rest =>
      ' (r', remaining') <- process_one exits speed r remaining ;;
      ' (rest', remaining'') <- process_all exits speed rest remaining' ;;
      ret (r' :: rest', remaining'')
  end.

(** [while remaining_rooms or any(r.state != "idle" for r in responders)]. *)
Definition loop_cond (f : Frame) : bool :=
  negb (is_empty (remaining_rooms f)) || existsb is_active (responders f).

(** Step 1 of a pass: assign idle responders to the available rooms. *)
Definition assign_phase (w : World) (f : Frame) : Frame :=
  let available := available_rooms w (remaining_rooms f) (responders f) in
  mkFrame (rooms f) (exits f) (responder_speed f) (remaining_rooms f)
          (fst (assign_idle w (responder_speed f) (responders f) available))
          (current_time f).

(** Steps 2 and 3, once [dt] is known: [current_time += dt] and
    [r.time_remaining -= dt] for the active responders. *)
Definition advance_phase (dt : Q) (f : Frame) : Frame :=
  mkFrame (rooms f) (exits f) (responder_speed f) (remaining_rooms f)
          (map (fun r => if is_active r
                         then mkResponderState (state r) (time_remaining r - dt)
                                (position r) (target_room r) (target_door r)
                         else r) (responders f))
          (current_time f + dt).

(** Step 4. *)
Definition process_phase (f : Frame) : M Frame :=
  ' (rs, remaining) <- process_all (exits f) (responder_speed f)
                                   (responders f) (remaining_rooms f) ;;
  ret (mkFrame (rooms f) (exits f) (responder_speed f) remaining rs
               (current_time f)).

(** How a pass ends: at the [break], or at the end of the body. *)
Inductive pass_end : Type :=
| Break (f : Frame)
| Continue (f : Frame).

(** One pass of the [while] body. *)
Definition loop_body (f : Frame) : M pass_end :=
  fun w =>
    let f1 := assign_phase w f in
    match map time_remaining (filter is_active (responders f1)) with
    | [] => Ok (Break f1) w
    | t :: ts =>
        let dt := py_min t ts in
        (f3 <- process_phase (advance_phase dt f1) ;; ret (Continue f3)) w
    end.

(** The [while] loop, for at most [fuel] passes. *)
Fixpoint while_loop (fuel : nat) (f : Frame) : M Frame :=
  if loop_cond f then
    match fuel with
    | O => fun _ => OutOfFuel
    | S fuel' =>
        e <- loop_body f ;;
        match e with
        | Break f' => ret f'
        | Continue f' => while_loop fuel' f'
        end
    end
  else ret f.

(** The responders created before the loop: [range(n)] is empty for
    [n <= 0]. *)
Definition initial_responders (n_responders : Z) (start_position : Point)
    : list ResponderState :=
  repeat (mkResponderState idle 0 start_position None None)
         (Z.to_nat n_responders).

Definition initial_frame (n_responders : Z) (rooms : list ref)
    (exits : list ExitNode) (responder_speed : Q) (start_position : Point)
    : Frame :=
  mkFrame rooms exits responder_speed rooms
          (initial_responders n_responders start_position) 0.

(** The body of [find_fastest_evacuation] up to its [return]: the frame at
    that point. *)
Definition simulate (fuel : nat) (n_responders : Z) (rooms : list ref)
    (exits : list ExitNode) (responder_speed : Q) (start_position : Point)
    : M Frame :=
  if Qle_bool responder_speed 0
  then raise (ValueError "responder_speed must be > 0")
  else while_loop fuel
         (initial_frame n_responders rooms exits responder_speed start_position).

(** [find_fastest_evacuation(n_responders, rooms, exits, responder_speed,
    start_position)]: [return current_time]. *)
Definition find_fastest_evacuation (fuel : nat) (n_responders : Z)
    (rooms : list ref) (exits : list ExitNode) (responder_speed : Q)
    (start_position : Point) : M Q :=
  f <- simulate fuel n_responders rooms exits responder_speed start_position ;;
  ret (current_time f).

End WithHypot.

End Sim.

Import Sim.

(* ------------------------------------------------------------------ *)
(** ** shitty_simulation.py, with distances that may not be finite

    In module [Sim] every distance is a number, hence below the initial
    [best_dist = inf] of the two scans: a scan of a non-empty list always
    finds a candidate.  [math.hypot] can also return [inf] (on overflow) or
    [nan], and then the test [dist < best_dist] of the source is False
    whatever [best_dist] is: the candidate is passed over.  Module [Ext] is
    the same program with that case: [hypot] returns a [distance].  The rest
    of the program never sees a distance that is not finite (a candidate is
    kept only with a finite one), so times stay rationals and the types and
    the functions of [Sim] that do not compute distances are used as they
    are.  For a [hypot] that is always finite the two modules agree (lemma
    [ext_find_fastest_evacuation_finite]). *)

Module Ext.

(** A result of [math.hypot]: a finite float, or [inf] or [nan]. *)
Inductive distance : Type :=
| Finite (d : Q)
| NotFinite.

Section WithHypot.

(** [math.hypot]. *)
Variable hypot : Q -> Q -> distance.

(** [_distance(a, b) = hypot(a[0] - b[0], a[1] - b[1])]. *)
Definition _distance (a b : Point) : distance :=
  hypot (fst a - fst b) (snd a - snd b).

(** The body of the inner loop of [_choose_nearest_room]:
      dist = _distance(responder.position, d)
      if dist < best_dist: best_dist, best_room, best_door = dist, room, d
    [best = None] is the initial [(None, None, inf)].  [inf < b] and
    [nan < b] are False; a finite [dist] is below [inf]. *)
Definition consider_door (pos : Point) (room : ref)
    (best : option (ref * Point * Q)) (d : Point) : option (ref * Point * Q) :=
  match _distance pos d with
  | NotFinite => best
  | Finite dist =>
      match best with
      | None => Some (room, d, dist)
      | Some (_, _, best_dist) =>
          if Qlt_bool dist best_dist then Some (room, d, dist) else best
      end
  end.

(** The body of the outer loop [for room in rooms_left]. *)
Definition consider_room (w : World) (pos : Point)
    (best : option (ref * Point * Q)) (room : ref) : option (ref * Point * Q) :=
  fold_left (consider_door pos room) (door_positions_or_center w room) best.

(** [_choose_nearest_room(responder, rooms_left, speed)]:
      if not rooms_left: return None, None, 0.0
      ... the two loops ...
      if best_room is None: return None, None, 0.0
      travel_time = best_dist / speed if speed > 0 else 0.0 *)
Definition _choose_nearest_room (w : World) (responder : ResponderState)
    (rooms_left : list ref) (speed : Q) : option ref * option Point * Q :=
  match rooms_left with
  | [] => (None, None, 0)
  | _ :: _ =>
      match fold_left (consider_room w (position responder)) rooms_left None with
      | None => (None, None, 0)
      | Some (best_room, best_door, best_dist) =>
          let travel_time := if Qlt_bool 0 speed then best_dist / speed else 0 in
          (Some best_room, Some best_door, travel_time)
      end
  end.

(** The loop body of [_nearest_exit]; [None] is the initial
    [(best_exit, best_dist) = (None, inf)]. *)
Definition consider_exit (source : Point)
    (best : option (ExitNode * Q)) (ex : ExitNode) : option (ExitNode * Q) :=
  let pos := ExitNode_position ex in
  match _distance source pos with
  | NotFinite => best
  | Finite dist =>
      match best with
      | None => Some (ex, dist)
      | Some (_, best_dist) =>
          if Qlt_bool dist best_dist then Some (ex, dist) else best
      end
  end.

(** [_nearest_exit(source, exits)]: [(None, 0.0)] on an empty list,
    [(None, inf)] when no exit is at a finite distance, the best exit and
    its distance otherwise. *)
Definition _nearest_exit (source : Point) (exits : list ExitNode)
    : option ExitNode * distance :=
  match exits with
  | [] => (None, Finite 0)
  | _ :: _ =>
      match fold_left (consider_exit source) exits None with
      | None => (None, NotFinite)
      | Some (best_exit, best_dist) => (Some best_exit, Finite best_dist)
      end
  end.

(** [_unabled_evac_time(num_unabled, door_position, exits, responder_speed)].
    [_nearest_exit] returns an exit only with a finite distance, so the last
    branch is never taken (lemma [ext_nearest_exit_finite]). *)
Definition _unabled_evac_time (num_unabled : Z) (door_position : Point)
    (exits : list ExitNode) (responder_speed : Q) : Q * Point :=
  if (num_unabled <=? 0)%Z || Qle_bool responder_speed 0 || is_empty exits
  then (0, door_position)
  else
    match _nearest_exit door_position exits with
    | (None, _) => (0, door_position)
    | (Some exit_node, Finite dist) =>
        let d := dist in
        let s := responder_speed in
        let extra_time :=
          if (num_unabled =? 1)%Z then 2 * d / s
          else inject_Z (3 * num_unabled - 1) * d / s in
        let final_position := ExitNode_position exit_node in
        (extra_time, final_position)
    | (Some _, NotFinite) => (0, door_position)
    end.

(** One turn of the assignment loop [for r in responders]:
      if r.state == "idle" and available_rooms:
          room, door, travel_time = _choose_nearest_room(...)
          if room is None: continue
          r.state, r.target_room, r.target_door, r.time_remaining = ...
          available_rooms = [rm for rm in available_rooms if rm is not room] *)
Definition assign_one (w : World) (speed : Q) (r : ResponderState)
    (available : list ref) : ResponderState * list ref :=
  match state r, available with
  | idle, _ :: _ =>
      match _choose_nearest_room w r available speed with
      | (None, _, _) => (r, available)
      | (Some room, door, travel_time) =>
          (mkResponderState moving travel_time (position r) (Some room) door,
           filter (fun rm => negb (Nat.eqb rm room)) available)
      end
  | _, _ => (r, available)
  end.

Fixpoint assign_idle (w : World) (speed : Q) (rs : list ResponderState)
    (available : list ref) : list ResponderState * list ref :=
  match rs with
  | [] => ([], available)
  | r :: rest =>
      let '(r', available') := assign_one w speed r available in
      let '(rest', available'') := assign_idle w speed rest available' in
      (r' :: rest', available'')
  end.

(** One turn of the loop "process responders who just finished an action",
    as [Sim.process_one]. *)
Definition process_one (exits : list ExitNode) (speed : Q) (r : ResponderState)
    (remaining : list ref) : M (ResponderState * list ref) :=
  fun w =>
    if Qlt_bool eps (time_remaining r) then Ok (r, remaining) w
    else
      match state r with
      | idle => Ok (r, remaining) w
      | moving =>
          match target_room r, target_door r with
          | None, _ => Raise AttributeError w
          | Some _, None => Raise TypeError w
          | Some room, Some door =>
              let w1 := print ("Responder arrived at room "
                               ++ id (room_at w room) ++ " door.")%string w in
              Ok (mkResponderState clearing (inject_Z (clearance_time w1 room))
                                   door (Some room) (Some door), remaining) w1
          end
      | clearing =>
          match target_room r with
          | None =>
              Ok (mkResponderState idle (time_remaining r) (position r)
                                   None (target_door r), remaining) w
          | Some room =>
              let num_unabled := unabled (occupants_of w room) in
              if (0 <? num_unabled)%Z && negb (is_empty exits) then
                let '(extra_time, final_pos) :=
                  _unabled_evac_time num_unabled (position r) exits speed in
                let w1 := set_unabled_zero w room in
                Ok (mkResponderState evacuating_unabled extra_time final_pos
                                     (Some room) (target_door r), remaining) w1
              else
                Ok (mkResponderState idle 0 (position r) None None,
                    remove_if_in w room remaining) w
          end
      | evacuating_unabled =>
          let remaining' :=
            match target_room r with
            | Some room => remove_if_in w room remaining
            | None => remaining
            end in
          Ok (mkResponderState idle 0 (position r) None None, remaining') w
      end.

Fixpoint process_all (exits : list ExitNode) (speed : Q)
    (rs : list ResponderState) (remaining : list ref)
    : M (list ResponderState * list ref) :=
  match rs with
  | [] => ret ([], remaining)
  | r :: rest =>
      ' (r', remaining') <- process_one exits speed r remaining ;;
      ' (rest', remaining'') <- process_all exits speed rest remaining' ;;
      ret (r' :: rest', remaining'')
  end.

(** Step 1 of a pass. *)
Definition assign_phase (w : World) (f : Frame) : Frame :=
  let available := available_rooms w (remaining_rooms f) (responders f) in
  mkFrame (rooms f) (exits f) (responder_speed f) (remaining_rooms f)
          (fst (assign_idle w (responder_speed f) (responders f) available))
          (current_time f).

(** Step 4. *)
Definition process_phase (f : Frame) : M Frame :=
  ' (rs, remaining) <- process_all (exits f) (responder_speed f)
                                   (responders f) (remaining_rooms f) ;;
  ret (mkFrame (rooms f) (exits f) (responder_speed f) remaining rs
               (current_time f)).

(** One pass of the [while] body. *)
Definition loop_body (f : Frame) : M pass_end :=
  fun w =>
    let f1 := assign_phase w f in
    match map time_remaining (filter is_active (responders f1)) with
    | [] => Ok (Break f1) w
    | t :: ts =>
        let dt := py_min t ts in
        (f3 <- process_phase (advance_phase dt f1) ;; ret (Continue f3)) w
    end.

(** The [while] loop, for at most [fuel] passes. *)
Fixpoint while_loop (fuel : nat) (f : Frame) : M Frame :=
  if loop_cond f then
    match fuel with
    | O => fun _ => OutOfFuel
    | S fuel' =>
        e <- loop_body f ;;
        match e with
        | Break f' => ret f'
        | Continue f' => while_loop fuel' f'
        end
    end
  else ret f.

(** The body of [find_fastest_evacuation] up to its [return]. *)
Definition simulate (fuel : nat) (n_responders : Z) (rooms : list ref)
    (exits : list ExitNode) (responder_speed : Q) (start_position : Point)
    : M Frame :=
  if Qle_bool responder_speed 0
  then raise (ValueError "responder_speed must be > 0")
  else while_loop fuel
         (initial_frame n_responders rooms exits responder_speed start_position).

(** [find_fastest_evacuation(n_responders, rooms, exits, responder_speed,
    start_position)]: [return current_time]. *)
Definition find_fastest_evacuation (fuel : nat) (n_responders : Z)
    (rooms : list ref) (exits : list ExitNode) (responder_speed : Q)
    (start_position : Point) : M Q :=
  f <- simulate fuel n_responders rooms exits responder_speed start_position ;;
  ret (current_time f).

End WithHypot.

(** A [hypot] that is always finite, as [Sim] has it. *)
Definition finite_hypot (h : Q -> Q -> Q) : Q -> Q -> distance :=
  fun x y => Finite (h x y).

End Ext.

(* ------------------------------------------------------------------ *)
(** ** Vocabulary of the specification *)

(** [x], found at index [k] of [l], minimises [f] over [l] and is the first
    element to do so: everything before it is strictly farther. *)
Definition is_first_min {A : Type} (f : A -> Q) (l : list A) (k : nat) (x : A) : Prop :=
  nth_error l k = Some x
  /\ (forall y, In y l -> f x <= f y)
  /\ (forall j y, (j < k)%nat -> nth_error l j = Some y -> f x < f y).

(** The candidate (room, access point) pairs in iteration order: rooms in
    list order, and for each room its doors in order, or its rectangle
    centre when it has no door. *)
Definition candidates (w : World) (rooms_left : list ref) : list (ref * Point) :=
  flat_map (fun room => map (pair room) (door_positions_or_center w room)) rooms_left.

(** What the two scans minimise: the distance of an exit from [p], and of
    a candidate access point from [pos]. *)
Definition exit_distance (hypot : Q -> Q -> Q) (p : Point) (e : ExitNode) : Q :=
  _distance hypot p (ExitNode_position e).

Definition candidate_distance (hypot : Q -> Q -> Q) (pos : Point)
    (c : ref * Point) : Q :=
  _distance hypot pos (snd c).

(** The scan step shared by the two nearest-neighbour loops: keep the best
    so far unless [x] is strictly nearer. *)
Definition keep_nearer {A : Type} (f : A -> Q) (best : option (A * Q)) (x : A)
    : option (A * Q) :=
  match best with
  | None => Some (x, f x)
  | Some (_, best_dist) => if Qlt_bool (f x) best_dist then Some (x, f x) else best
  end.

(** For the scans of [Ext]: no candidate access point of [rooms_left] is at
    a finite distance from [pos]. *)
Definition out_of_reach (hypot : Q -> Q -> Ext.distance) (w : World)
    (pos : Point) (rooms_left : list ref) : Prop :=
  forall c, In c (candidates w rooms_left) ->
    Ext._distance hypot pos (snd c) = Ext.NotFinite.

(** [best] is what a scan of the candidates [cands] from [pos] must hold:
    nothing when none is at a finite distance, and otherwise one of them,
    with its finite distance, that no candidate at a finite distance
    beats. *)
Definition best_of (hypot : Q -> Q -> Ext.distance) (pos : Point)
    (cands : list (ref * Point)) (best : option (ref * Point * Q)) : Prop :=
  match best with
  | None =>
      forall c, In c cands -> Ext._distance hypot pos (snd c) = Ext.NotFinite
  | Some (room, door, d) =>
      In (room, door) cands
      /\ Ext._distance hypot pos door = Ext.Finite d
      /\ forall c d', In c cands ->
           Ext._distance hypot pos (snd c) = Ext.Finite d' -> d <= d'
  end.

(** Two distinct responders that are both busy target different rooms. *)
Definition claims_disjoint (rs : list ResponderState) : Prop :=
  forall i j a b,
    i <> j ->
    nth_error rs i = Some a -> nth_error rs j = Some b ->
    is_active a = true -> is_active b = true ->
    exists ra rb, target_room a = Some ra /\ target_room b = Some rb /\ ra <> rb.

(** What the simulation may do to the store: room objects are untouched,
    and an occupant object keeps its adult and child counts while its
    unabled count is either kept or zero. *)
Definition only_unabled_zeroed (w w' : World) : Prop :=
  (forall a, room_at w' a = room_at w a)
  /\ (forall o, adults (occ_at w' o) = adults (occ_at w o)
                /\ children (occ_at w' o) = children (occ_at w o)
                /\ (unabled (occ_at w' o) = unabled (occ_at w o)
                    \/ unabled (occ_at w' o) = 0%Z)).

(** A busy responder has a target room, and a moving one a target door. *)
Definition has_target (r : ResponderState) : Prop :=
  (is_active r = true -> exists room, target_room r = Some room)
  /\ (state r = moving -> exists door, target_door r = Some door).

(** The invariant of the responders list: every busy responder has a
    target, and no room is the target of two busy responders. *)
Definition resp_inv (rs : list ResponderState) : Prop :=
  Forall has_target rs /\ NoDup (already_taken rs).

(** How a turn of the processing loop may change a responder: it keeps
    having a target, and if it is busy afterwards it was busy before, with
    the same target room. *)
Definition narrows (r r' : ResponderState) : Prop :=
  (has_target r -> has_target r')
  /\ (is_active r' = true -> is_active r = true /\ target_room r' = target_room r).

(** A result that is not an exception. *)
Definition no_raise {A : Type} (r : Res A) : Prop :=
  match r with
  | Raise _ _ => False
  | Ok _ _ | OutOfFuel => True
  end.

(** [f] with another responders list. *)
Definition with_responders (f : Frame) (rs : list ResponderState) : Frame :=
  mkFrame (rooms f) (exits f) (responder_speed f) (remaining_rooms f) rs
          (current_time f).

Section ProgramPoints.

Variable hypot : Q -> Q -> Q.
Variables (n_responders : Z) (rooms0 : list ref) (exits0 : list ExitNode).
Variables (speed : Q) (start_position : Point) (w0 : World).

(** The frames and stores with which a call
    [find_fastest_evacuation(n_responders, rooms0, exits0, speed,
    start_position)] from store [w0] reaches the head of its [while] loop:
    on entry, and after every pass that runs to the end of the body. *)
Inductive at_loop_head : Frame -> World -> Prop :=
| head_start :
    Qle_bool speed 0 = false ->
    at_loop_head (initial_frame n_responders rooms0 exits0 speed start_position) w0
| head_next (f : Frame) (w : World) (f' : Frame) (w' : World) :
    at_loop_head f w ->
    loop_cond f = true ->
    loop_body hypot f w = Ok (Continue f') w' ->
    at_loop_head f' w'.

(** The frames and stores at the points of a pass: the loop head; after
    [i] turns of the assignment loop (the first [i] responders have had
    their turn, the others not yet); after the time advance; after [i] turns
    of the processing loop. *)
Inductive visited : Frame -> World -> Prop :=
| visit_head (f : Frame) (w : World) :
    at_loop_head f w -> visited f w
| visit_assign (f : Frame) (w : World) (i : nat) :
    at_loop_head f w ->
    loop_cond f = true ->
    visited
      (with_responders f
         (fst (assign_idle hypot w (responder_speed f) (firstn i (responders f))
                 (available_rooms w (remaining_rooms f) (responders f)))
          ++ skipn i (responders f)))
      w
| visit_advance (f : Frame) (w : World) (t : Q) (ts : list Q) :
    at_loop_head f w ->
    loop_cond f = true ->
    map time_remaining (filter is_active (responders (assign_phase hypot w f)))
      = t :: ts ->
    visited (advance_phase (py_min t ts) (assign_phase hypot w f)) w
| visit_process (f : Frame) (w : World) (t : Q) (ts : list Q) (i : nat)
    (rs' : list ResponderState) (remaining' : list ref) (w' : World) :
    at_loop_head f w ->
    loop_cond f = true ->
    map time_remaining (filter is_active (responders (assign_phase hypot w f)))
      = t :: ts ->
    process_all hypot (exits f) (responder_speed f)
      (firstn i (responders (advance_phase (py_min t ts) (assign_phase hypot w f))))
      (remaining_rooms f) w
      = Ok (rs', remaining') w' ->
    visited
      (mkFrame (rooms f) (exits f) (responder_speed f) remaining'
         (rs' ++ skipn i (responders (advance_phase (py_min t ts)
                                        (assign_phase hypot w f))))
         (current_time f + py_min t ts))
      w'.

End ProgramPoints.

(* ------------------------------------------------------------------ *)
(** ** Vocabulary for the termination and completion of the driver *)

(** How many transitions a responder is away from being idle again. *)
Definition rank (r : ResponderState) : nat :=
  match state r with
  | idle => 0
  | moving => 3
  | clearing => 2
  | evacuating_unabled => 1
  end.

Definition rank_sum (rs : list ResponderState) : nat := list_sum (map rank rs).

(** The entries of the pool that are not one of the room objects [taken]. *)
Definition unclaimed (remaining taken : list ref) : nat :=
  List.length (filter (fun a => negb (existsb (Nat.eqb a) taken)) remaining).

(** The measure of a frame at the head of the loop, for a run that started
    with [N] rooms and [n] responders: the size of the pool first, then the
    unclaimed entries and the ranks. *)
Definition pass_measure (N n : nat) (f : Frame) : nat :=
  List.length (remaining_rooms f) * S (4 * N + 3 * n)
  + 4 * unclaimed (remaining_rooms f) (already_taken (responders f))
  + rank_sum (responders f).

(** A number of passes that is always enough. *)
Definition enough_passes (N n : nat) : nat :=
  S (N * S (4 * N + 3 * n) + 4 * N).

(** The countdown of [r] has elapsed and [r] is busy: the processing loop
    will move it on. *)
Definition due (r : ResponderState) : bool :=
  negb (Qlt_bool eps (time_remaining r)) && is_active r.

(** Every room of [rooms0] is still in the pool or has no unabled occupant
    left, and the room of an evacuating responder has none left. *)
Definition unabled_accounted (rooms0 : list ref) (f : Frame) (w : World) : Prop :=
  (forall room, In room rooms0 ->
     In room (remaining_rooms f) \/ (unabled (occupants_of w room) <= 0)%Z)
  /\ (forall r, In r (responders f) -> state r = evacuating_unabled ->
        exists a, target_room r = Some a /\ (unabled (occupants_of w a) <= 0)%Z).

(** The store [w'] differs from [w] by printed lines only. *)
Definition only_printed (w w' : World) : Prop :=
  room_at w' = room_at w /\ occ_at w' = occ_at w.

(** All countdowns are non-negative. *)
Definition times_nonneg (rs : list ResponderState) : Prop :=
  Forall (fun r => 0 <= time_remaining r) rs.

(* ------------------------------------------------------------------ *)
(** ** A concrete [hypot] and concrete scenarios, for running the model *)

Module Examples.

(** The square root of a rational, exact when there is a rational one and
    rounded down otherwise. *)
Definition Qsqrt_floor (q : Q) : Q :=
  Z.sqrt (Qnum q * Zpos (Qden q)) # Qden q.

Definition hypot_isqrt (x y : Q) : Q := Qsqrt_floor (x * x + y * y).

(** One room "A" (object 0) with base clearance 15 and a single door at
    (2, 0); its occupants (object 0): no adult, no child, 2 unabled. *)
Definition room_A : RoomNode :=
  mkRoomNode "A" 15 0%nat (mkRoomGeometry (0, 1) (3, 3)) [mkDoor 2 0].

Definition world_A : World :=
  mkWorld (fun _ => room_A) (fun _ => mkOccupantInfo 0 0 2) [].

Definition exit_E : ExitNode := mkExitNode "E" 4 0.

(** [world_A] with three children in the room. *)
Definition world_A3 : World :=
  mkWorld (fun _ => room_A) (fun _ => mkOccupantInfo 0 3 2) [].

(** Two rooms: "A" (object 0, door at (2, 0)) and "B" (object 1, door at
    (0, 3)), each with its own occupants object. *)
Definition room_B : RoomNode :=
  mkRoomNode "B" 15 1%nat (mkRoomGeometry (-1, 3) (1, 5)) [mkDoor 0 3].

Definition world_AB : World :=
  mkWorld (fun a => match a with O => room_A | _ => room_B end)
          (fun o => match o with O => mkOccupantInfo 0 0 2
                                | _ => mkOccupantInfo 1 0 0 end)
          [].

(** The store and the frame at the end of the run of one responder in
    [world_A] with the exit [exit_E], from (0, 0) at speed 1. *)
Definition final_world_A : World :=
  set_unabled_zero (print "Responder arrived at room A door." world_A) 0%nat.

Definition final_frame_A : Frame :=
  mkFrame [0%nat] [exit_E] 1 []
          [mkResponderState idle 0 (4, 0) None None] 27.

(** A [hypot] that overflows as the floats do: it returns [inf] above the
    largest finite double, (2^53 - 1) * 2^971. *)
Definition max_float : Q := inject_Z ((2 ^ 53 - 1) * 2 ^ 971).

Definition hypot_float (x y : Q) : Ext.distance :=
  if Qle_bool (hypot_isqrt x y) max_float
  then Ext.Finite (hypot_isqrt x y)
  else Ext.NotFinite.

(** Room "A" as before and a room "F" (object 1) whose only door is at
    (1.5e308, 1.5e308): its distance from any point near the origin is above
    the largest double.  Room "F" has one unabled occupant. *)
Definition far : Q := inject_Z (15 * 10 ^ 307).

Definition room_F : RoomNode :=
  mkRoomNode "F" 15 1%nat (mkRoomGeometry (far, far) (far + 3, far + 2))
             [mkDoor far far].

Definition world_AF : World :=
  mkWorld (fun a => match a with O => room_A | _ => room_F end)
          (fun o => match o with O => mkOccupantInfo 0 0 2
                                | _ => mkOccupantInfo 0 0 1 end)
          [].

(** The store at the end of the run of one responder over rooms "A" and
    "F" of [world_AF]: room A's unabled count zeroed, one arrival printed. *)
Definition final_world_AF : World :=
  set_unabled_zero (print "Responder arrived at room A door." world_AF) 0%nat.

(** The frame of that run at the head of its fourth pass: room "F" is
    left in the pool and the responder is idle at the exit. *)
Definition stuck_frame_AF : Frame :=
  mkFrame [0%nat; 1%nat] [exit_E] 1 [1%nat]
          [mkResponderState idle 0 (4, 0) None None] 27.

(** A responder that has just finished clearing room 0 at its door. *)
Definition responder_at_door : ResponderState :=
  mkResponderState clearing 0 (2, 0) (Some 0%nat) (Some (2, 0)).

End Examples.

(* ------------------------------------------------------------------ *)
(** ** Clearance time *)

Lemma clearance_time_unfold (w : World) (room : ref) :
  clearance_time w room =
  Qceiling (base_clear_time (room_at w room)
            + inject_Z (5 * children (occupants_of w room))).
Proof. reflexivity. Qed.

Lemma inject_Z_5_mul_le (c1 c2 : Z) :
  (c1 <= c2)%Z -> inject_Z (5 * c1) <= inject_Z (5 * c2).
Proof. intros H. rewrite <- Zle_Qle. lia. Qed.

(** C6: the effective clearance time of a room is
    ceiling(base duration + 5 * child count).  Hence it does not depend on
    the adult count nor on the unabled count (two stores that agree on the
    room object and on its child count give the same time), it is
    ceiling(base duration) when there are no children, and it is
    non-decreasing in the child count. *)
Theorem clearance_time_spec :
  forall (w : World) (room : ref),
    clearance_time w room =
      Qceiling (base_clear_time (room_at w room)
                + 5 * inject_Z (children (occupants_of w room)))
    /\ (forall w' : World,
          room_at w' room = room_at w room ->
          children (occupants_of w' room) = children (occupants_of w room) ->
          clearance_time w' room = clearance_time w room)
    /\ (children (occupants_of w room) = 0%Z ->
          clearance_time w room = Qceiling (base_clear_time (room_at w room)))
    /\ (forall w' : World,
          base_clear_time (room_at w' room) == base_clear_time (room_at w room) ->
          (children (occupants_of w room) <= children (occupants_of w' room))%Z ->
          (clearance_time w room <= clearance_time w' room)%Z).
Proof.
  intros w room. split; [|split; [|split]].
  - rewrite clearance_time_unfold. apply Qceiling_comp.
    rewrite inject_Z_mult. reflexivity.
  - intros w' Hr Hc. rewrite !clearance_time_unfold, Hr, Hc. reflexivity.
  - intros Hc. rewrite clearance_time_unfold, Hc. apply Qceiling_comp.
    simpl. ring.
  - intros w' Hb Hc. rewrite !clearance_time_unfold.
    apply Qceiling_resp_le. rewrite Hb.
    apply Qplus_le_r. apply inject_Z_5_mul_le. exact Hc.
Qed.

(* ------------------------------------------------------------------ *)
(** ** Nearest-neighbour scans *)

Lemma Qlt_bool_true (a b : Q) : Qlt_bool a b = true <-> a < b.
Proof.
  unfold Qlt_bool. rewrite negb_true_iff.
  split; intros H.
  - apply Qnot_le_lt. intros Hle. apply Qle_bool_iff in Hle. congruence.
  - destruct (Qle_bool b a) eqn:E; [|reflexivity].
    apply Qle_bool_iff in E. exfalso. exact (Qlt_not_le _ _ H E).
Qed.

Lemma Qlt_bool_false (a b : Q) : Qlt_bool a b = false <-> b <= a.
Proof.
  unfold Qlt_bool. rewrite negb_false_iff. apply Qle_bool_iff.
Qed.

Section FirstMin.

Context {A : Type} (f : A -> Q).

Lemma is_first_min_singleton (x : A) : is_first_min f [x] 0 x.
Proof.
  split; [reflexivity|]. split.
  - intros y [<-|[]]. apply Qle_refl.
  - intros j y Hj. lia.
Qed.

Lemma is_first_min_snoc_keep (pre : list A) (k : nat) (x a : A) :
  is_first_min f pre k x -> f x <= f a -> is_first_min f (pre ++ [a]) k x.
Proof.
  intros (Hk & Hmin & Hfirst) Hle. split; [|split].
  - rewrite nth_error_app1; [exact Hk|].
    apply nth_error_Some. congruence.
  - intros y Hy. apply in_app_or in Hy. destruct Hy as [Hy|[<-|[]]]; auto.
  - intros j y Hj Hy. apply (Hfirst j y Hj).
    rewrite nth_error_app1 in Hy; [exact Hy|].
    assert (k < List.length pre)%nat by (apply nth_error_Some; congruence). lia.
Qed.

Lemma is_first_min_snoc_take (pre : list A) (k : nat) (x a : A) :
  is_first_min f pre k x -> f a < f x ->
  is_first_min f (pre ++ [a]) (List.length pre) a.
Proof.
  intros (Hk & Hmin & Hfirst) Hlt. split; [|split].
  - rewrite nth_error_app2 by lia. rewrite Nat.sub_diag. reflexivity.
  - intros y Hy. apply in_app_or in Hy. destruct Hy as [Hy|[<-|[]]].
    + apply Qlt_le_weak. eapply Qlt_le_trans; [exact Hlt|]. auto.
    + apply Qle_refl.
  - intros j y Hj Hy. rewrite nth_error_app1 in Hy by exact Hj.
    eapply Qlt_le_trans; [exact Hlt|]. apply Hmin.
    eapply nth_error_In; exact Hy.
Qed.

Lemma scan_from_some (l pre : list A) (k : nat) (x : A) :
  is_first_min f pre k x ->
  exists k' x',
    fold_left (keep_nearer f) l (Some (x, f x)) = Some (x', f x')
    /\ is_first_min f (pre ++ l) k' x'.
Proof.
  revert pre k x. induction l as [|a l IH]; intros pre k x H.
  - exists k, x. rewrite app_nil_r. split; [reflexivity|exact H].
  - cbn [fold_left].
    change (keep_nearer f (Some (x, f x)) a)
      with (if Qlt_bool (f a) (f x) then Some (a, f a) else Some (x, f x)).
    replace (pre ++ a :: l) with ((pre ++ [a]) ++ l)
      by (rewrite <- app_assoc; reflexivity).
    destruct (Qlt_bool (f a) (f x)) eqn:E.
    + apply Qlt_bool_true in E.
      apply (IH _ _ _ (is_first_min_snoc_take _ _ _ _ H E)).
    + apply Qlt_bool_false in E.
      apply (IH _ _ _ (is_first_min_snoc_keep _ _ _ _ H E)).
Qed.

(** Scanning a non-empty list from "nothing yet" ends on its first
    minimum. *)
Lemma scan_from_none (l : list A) :
  l <> [] ->
  exists k x,
    fold_left (keep_nearer f) l None = Some (x, f x) /\ is_first_min f l k x.
Proof.
  destruct l as [|a l]; [congruence|]. intros _.
  cbn [fold_left].
  exact (scan_from_some l [a] 0%nat a (is_first_min_singleton a)).
Qed.

End FirstMin.

Section Scans.

Variable hypot : Q -> Q -> Q.

Local Abbreviation exit_dist := (exit_distance hypot).
Local Abbreviation cand_dist := (candidate_distance hypot).

Lemma consider_exit_keep_nearer (p : Point) (l : list ExitNode)
    (best : option (ExitNode * Q)) :
  fold_left (consider_exit hypot p) l best
  = fold_left (keep_nearer (exit_dist p)) l best.
Proof.
  revert best. induction l as [|e l IH]; intros best; [reflexivity|].
  cbn [fold_left]. rewrite IH. reflexivity.
Qed.

Lemma nearest_exit_first_min (p : Point) (exits : list ExitNode) :
  exits <> [] ->
  exists k ex,
    _nearest_exit hypot p exits = (Some ex, exit_dist p ex)
    /\ is_first_min (exit_dist p) exits k ex.
Proof.
  intros Hne.
  destruct (scan_from_none (exit_dist p) exits Hne) as (k & ex & Hscan & Hmin).
  exists k, ex. split; [|exact Hmin].
  unfold _nearest_exit. destruct exits as [|e0 rest]; [congruence|].
  rewrite consider_exit_keep_nearer, Hscan. reflexivity.
Qed.

Lemma consider_door_keep_nearer (pos : Point) (room : ref) (ds : list Point)
    (best : option (ref * Point * Q)) :
  fold_left (consider_door hypot pos room) ds best
  = fold_left (keep_nearer (cand_dist pos)) (map (pair room) ds) best.
Proof.
  revert best. induction ds as [|d ds IH]; intros best; [reflexivity|].
  cbn [fold_left map]. rewrite IH. f_equal.
  destruct best as [[[br bd] bq]|]; reflexivity.
Qed.

Lemma consider_room_keep_nearer (w : World) (pos : Point) (l : list ref)
    (best : option (ref * Point * Q)) :
  fold_left (consider_room hypot w pos) l best
  = fold_left (keep_nearer (cand_dist pos)) (candidates w l) best.
Proof.
  revert best. induction l as [|room l IH]; intros best; [reflexivity|].
  cbn [fold_left candidates flat_map]. rewrite fold_left_app.
  rewrite IH. unfold consider_room at 1.
  rewrite consider_door_keep_nearer. reflexivity.
Qed.

Lemma door_positions_or_center_nonempty (w : World) (room : ref) :
  door_positions_or_center w room <> [].
Proof.
  unfold door_positions_or_center.
  destruct (get_door_positions (room_at w room)); discriminate.
Qed.

Lemma candidates_nonempty (w : World) (l : list ref) :
  l <> [] -> candidates w l <> [].
Proof.
  destruct l as [|room l]; [congruence|]. intros _.
  cbn [candidates flat_map].
  pose proof (door_positions_or_center_nonempty w room) as H.
  destruct (door_positions_or_center w room); [congruence|discriminate].
Qed.

Lemma candidates_room_in (w : World) (l : list ref) (c : ref * Point) :
  In c (candidates w l) -> In (fst c) l.
Proof.
  unfold candidates. rewrite in_flat_map. intros (room & Hin & Hc).
  apply in_map_iff in Hc. destruct Hc as (d & <- & _). exact Hin.
Qed.

(** What [_choose_nearest_room] returns on a non-empty list, for any speed. *)
Lemma choose_nearest_room_some (w : World) (r : ResponderState)
    (rooms_left : list ref) (s : Q) :
  rooms_left <> [] ->
  exists k room door,
    is_first_min (cand_dist (position r)) (candidates w rooms_left) k (room, door)
    /\ _choose_nearest_room hypot w r rooms_left s
       = (Some room, Some door,
          if Qlt_bool 0 s then _distance hypot (position r) door / s else 0).
Proof.
  intros Hne.
  destruct (scan_from_none (cand_dist (position r)) (candidates w rooms_left)
              (candidates_nonempty w rooms_left Hne))
    as (k & [room door] & Hscan & Hmin).
  exists k, room, door. split; [exact Hmin|].
  unfold _choose_nearest_room. destruct rooms_left as [|r0 rest]; [congruence|].
  rewrite consider_room_keep_nearer, Hscan. reflexivity.
Qed.


(** What [_unabled_evac_time] returns once its guard is passed. *)
Lemma unabled_evac_time_some (U : Z) (p : Point) (exits : list ExitNode) (s : Q) :
  (1 <= U)%Z -> exits <> [] -> 0 < s ->
  exists k ex,
    is_first_min (fun e => _distance hypot p (ExitNode_position e)) exits k ex
    /\ _unabled_evac_time hypot U p exits s
       = ((if (U =? 1)%Z
           then 2 * _distance hypot p (ExitNode_position ex) / s
           else inject_Z (3 * U - 1) * _distance hypot p (ExitNode_position ex) / s),
          ExitNode_position ex).
Proof.
  intros HU Hne Hs.
  destruct (nearest_exit_first_min p exits Hne) as (k & ex & Hnear & Hmin).
  exists k, ex. split; [exact Hmin|].
  assert (Hguard : (U <=? 0)%Z || Qle_bool s 0 || is_empty exits = false).
  { apply Qlt_bool_true in Hs. unfold Qlt_bool in Hs.
    apply negb_true_iff in Hs. rewrite Hs.
    replace (U <=? 0)%Z with false by (symmetry; apply Z.leb_gt; lia).
    destruct exits; [congruence|reflexivity]. }
  unfold _unabled_evac_time. rewrite Hguard, Hnear. reflexivity.
Qed.


(** C8: when unabled_count <= 0, or speed <= 0, or there is no exit,
    [_unabled_evac_time] returns (0, p): no extra time and the position
    unchanged.  Hence the computation for a room whose unabled count has
    been zeroed ([room.occupants.unabled = 0]) returns (0, door_position). *)
Theorem unabled_evac_time_guard :
  forall (U : Z) (p : Point) (exits : list ExitNode) (s : Q),
    ((U <= 0)%Z \/ s <= 0 \/ exits = [] ->
       _unabled_evac_time hypot U p exits s = (0, p))
    /\ (forall (w : World) (room : ref),
          _unabled_evac_time hypot
            (unabled (occupants_of (set_unabled_zero w room) room)) p exits s
          = (0, p)).
Proof.
  intros U p exits s. split.
  - intros H. unfold _unabled_evac_time.
    destruct H as [H|[H|H]].
    + apply Z.leb_le in H. rewrite H. reflexivity.
    + apply Qle_bool_iff in H. rewrite H, orb_true_r. reflexivity.
    + subst exits. cbn [is_empty]. rewrite orb_true_r. reflexivity.
  - intros w room. unfold occupants_of, set_unabled_zero. cbn.
    rewrite Nat.eqb_refl. reflexivity.
Qed.

End Scans.

(* ------------------------------------------------------------------ *)
(** ** The driver: configuration errors and single transitions *)

Section Driver.

Variable hypot : Q -> Q -> Q.

(** C9: with responder_speed <= 0, [find_fastest_evacuation] raises its
    [ValueError] whatever the number of passes allowed, and the store at the
    [raise] is the caller's store: nothing was printed, no unabled count was
    written, and no loop variable (time, remaining rooms, responders) exists
    yet, since [simulate] raises too instead of reaching a frame. *)
Theorem nonpositive_speed_rejected :
  forall (fuel : nat) (n : Z) (rooms : list ref) (exits : list ExitNode)
         (s : Q) (start : Point) (w : World),
    s <= 0 ->
    find_fastest_evacuation hypot fuel n rooms exits s start w
      = Raise (ValueError "responder_speed must be > 0") w
    /\ simulate hypot fuel n rooms exits s start w
      = Raise (ValueError "responder_speed must be > 0") w.
Proof.
  intros fuel n rooms exits s start w Hs.
  apply Qle_bool_iff in Hs.
  unfold find_fastest_evacuation, bind, simulate. rewrite Hs.
  split; reflexivity.
Qed.

Lemma not_still_busy (t : Q) : t <= eps -> Qlt_bool eps t = false.
Proof. intros H. apply Qlt_bool_false. exact H. Qed.


Lemma assign_phase_keeps (w : World) (f : Frame) :
  remaining_rooms (assign_phase hypot w f) = remaining_rooms f
  /\ current_time (assign_phase hypot w f) = current_time f
  /\ rooms (assign_phase hypot w f) = rooms f
  /\ exits (assign_phase hypot w f) = exits f
  /\ responder_speed (assign_phase hypot w f) = responder_speed f.
Proof. repeat split. Qed.

Lemma no_active_no_times (rs : list ResponderState) :
  existsb is_active rs = false ->
  map time_remaining (filter is_active rs) = [].
Proof.
  induction rs as [|r rs IH]; [reflexivity|].
  cbn [existsb filter]. intros H. apply orb_false_iff in H. destruct H as [Hr Hrs].
  rewrite Hr. exact (IH Hrs).
Qed.

End Driver.

(* ------------------------------------------------------------------ *)
(** ** The room-claim invariant *)

Lemma already_taken_cons (r : ResponderState) (rs : list ResponderState) :
  already_taken (r :: rs)
  = (if is_active r
     then match target_room r with Some room => [room] | None => [] end
     else []) ++ already_taken rs.
Proof. reflexivity. Qed.

Lemma already_taken_app (rs1 rs2 : list ResponderState) :
  already_taken (rs1 ++ rs2) = already_taken rs1 ++ already_taken rs2.
Proof. apply flat_map_app. Qed.

Lemma in_already_taken (a : ref) (rs : list ResponderState) :
  In a (already_taken rs)
  <-> exists r, In r rs /\ is_active r = true /\ target_room r = Some a.
Proof.
  unfold already_taken. rewrite in_flat_map. split.
  - intros (r & Hr & Ha). exists r. split; [exact Hr|].
    destruct (is_active r); [|destruct Ha].
    destruct (target_room r) as [room|]; [|destruct Ha].
    destruct Ha as [->|[]]. split; reflexivity.
  - intros (r & Hr & Hact & Ht). exists r. split; [exact Hr|].
    rewrite Hact, Ht. left. reflexivity.
Qed.

Lemma resp_inv_claims_disjoint (rs : list ResponderState) :
  resp_inv rs -> claims_disjoint rs.
Proof.
  intros [Hall Hnd]. unfold claims_disjoint.
  induction rs as [|r rs IH]; intros i j a b Hij Hi Hj Ha Hb.
  - destruct i; discriminate.
  - assert (Htail : forall k c, nth_error rs k = Some c -> is_active c = true ->
                      exists rc, target_room c = Some rc /\ In rc (already_taken rs)).
    { intros k c Hk Hc. apply nth_error_In in Hk.
      inversion Hall as [|? ? _ Hrs]; subst.
      rewrite Forall_forall in Hrs. destruct (Hrs c Hk) as [Ht _].
      destruct (Ht Hc) as (rc & Hrc). exists rc. split; [exact Hrc|].
      apply in_already_taken. exists c. auto. }
    assert (Hhead : is_active r = true ->
                      exists rr, target_room r = Some rr
                                 /\ ~ In rr (already_taken rs)).
    { intros Hr. inversion Hall as [|? ? [Ht _] _]; subst.
      destruct (Ht Hr) as (rr & Hrr). exists rr. split; [exact Hrr|].
      rewrite already_taken_cons, Hr, Hrr in Hnd.
      inversion Hnd; assumption. }
    destruct i as [|i], j as [|j]; cbn [nth_error] in Hi, Hj.
    + congruence.
    + injection Hi as <-.
      destruct (Hhead Ha) as (ra & Hra & Hnot).
      destruct (Htail j b Hj Hb) as (rb & Hrb & Hin).
      exists ra, rb. repeat split; try assumption. intros ->. contradiction.
    + injection Hj as <-.
      destruct (Hhead Hb) as (rb & Hrb & Hnot).
      destruct (Htail i a Hi Ha) as (ra & Hra & Hin).
      exists ra, rb. repeat split; try assumption. intros ->. contradiction.
    + apply (IH ltac:(inversion Hall; assumption)
                ltac:(rewrite already_taken_cons in Hnd;
                      apply NoDup_app_remove_l in Hnd; exact Hnd)
                i j a b); auto.
Qed.

Lemma NoDup_app_disjoint {A : Type} (l1 l2 : list A) :
  NoDup (l1 ++ l2) -> forall a, In a l1 -> ~ In a l2.
Proof.
  induction l1 as [|x l1 IH]; intros Hnd a Ha; [destruct Ha|].
  cbn [app] in Hnd. inversion Hnd as [|? ? Hx Hrest]; subst.
  destruct Ha as [->|Ha].
  - intros Hin. apply Hx. apply in_or_app. right. exact Hin.
  - exact (IH Hrest a Ha).
Qed.

Lemma available_not_taken (w : World) (remaining : list ref)
    (rs : list ResponderState) (a : ref) :
  In a (available_rooms w remaining rs) ->
  In a remaining /\ ~ In a (already_taken rs).
Proof.
  unfold available_rooms. rewrite filter_In. intros [Hin Hnot].
  split; [exact Hin|]. intros Htaken.
  apply negb_true_iff in Hnot.
  assert (Hyes : py_in w a (already_taken rs) = true).
  { unfold py_in. apply existsb_exists. exists a. split; [exact Htaken|].
    unfold same_room. rewrite Nat.eqb_refl. reflexivity. }
  congruence.
Qed.

Lemma has_target_idle (t : Q) (p : Point) (tr : option ref) (td : option Point) :
  has_target (mkResponderState idle t p tr td).
Proof. split; cbn; intros H; discriminate. Qed.

Section ClaimInvariant.

Variable hypot : Q -> Q -> Q.

(** The two outcomes of a turn of the assignment loop. *)
Lemma assign_one_cases (w : World) (s : Q) (r : ResponderState) (av : list ref) :
  assign_one hypot w s r av = (r, av)
  \/ (state r = idle
      /\ exists room door t,
           In room av
           /\ assign_one hypot w s r av
              = (mkResponderState moving t (position r) (Some room) (Some door),
                 filter (fun rm => negb (Nat.eqb rm room)) av)).
Proof.
  unfold assign_one. destruct (state r) eqn:Hst; try (left; reflexivity).
  destruct av as [|a0 av0] eqn:Hav; [left; reflexivity|].
  rewrite <- Hav.
  destruct (choose_nearest_room_some hypot w r av s ltac:(subst; discriminate))
    as (k & room & door & (Hk & _) & Heq).
  right. split; [reflexivity|].
  exists room, door,
    (if Qlt_bool 0 s then _distance hypot (position r) door / s else 0).
  split.
  - apply nth_error_In in Hk.
    exact (candidates_room_in w av (room, door) Hk).
  - rewrite Heq. reflexivity.
Qed.

Lemma assign_idle_cons (w : World) (s : Q) (r : ResponderState)
    (rest : list ResponderState) (av : list ref) :
  assign_idle hypot w s (r :: rest) av
  = (fst (assign_one hypot w s r av)
       :: fst (assign_idle hypot w s rest (snd (assign_one hypot w s r av))),
     snd (assign_idle hypot w s rest (snd (assign_one hypot w s r av)))).
Proof.
  cbn [assign_idle]. destruct (assign_one hypot w s r av) as [r' av'].
  cbn [fst snd]. destruct (assign_idle hypot w s rest av') as [rest' av''].
  reflexivity.
Qed.

(** The assignment loop keeps the invariant, given that the available
    rooms are not targets yet; whatever it adds to the targets comes out of
    the available rooms. *)
Lemma assign_idle_inv (w : World) (s : Q) (rs : list ResponderState) :
  forall av : list ref,
    resp_inv rs ->
    (forall a, In a av -> ~ In a (already_taken rs)) ->
    resp_inv (fst (assign_idle hypot w s rs av))
    /\ (forall a, In a (snd (assign_idle hypot w s rs av)) -> In a av)
    /\ (forall a, In a (already_taken (fst (assign_idle hypot w s rs av))) ->
          In a (already_taken rs)
          \/ (In a av /\ ~ In a (snd (assign_idle hypot w s rs av)))).
Proof.
  induction rs as [|r rest IH]; intros av [Hall Hnd] Hdisj.
  - cbn. split; [split; constructor|]. split; [auto|]. intros a [].
  - rewrite assign_idle_cons. cbn [fst snd].
    inversion Hall as [|? ? Hr Hrest]; subst.
    rewrite already_taken_cons in Hnd, Hdisj.
    pose proof (NoDup_app_remove_l _ _ Hnd) as Hnd_rest.
    destruct (assign_one_cases w s r av)
      as [Hsame|(Hidle & room & door & t & Hin & Heq)].
    + (* the responder keeps its state *)
      rewrite Hsame. cbn [fst snd].
      destruct (IH av (conj Hrest Hnd_rest)) as ((Hall' & Hnd') & Hsub & Hnew).
      { intros a Ha Ht. apply (Hdisj a Ha). apply in_or_app. right. exact Ht. }
      split; [split|split].
      * constructor; assumption.
      * rewrite already_taken_cons.
        apply NoDup_app; [apply (NoDup_app_remove_r _ _ Hnd)|exact Hnd'|].
        intros a Ha Ha'. destruct (Hnew a Ha') as [Hold|[Hav _]].
        -- exact (NoDup_app_disjoint _ _ Hnd a Ha Hold).
        -- apply (Hdisj a Hav). apply in_or_app. left. exact Ha.
      * exact Hsub.
      * intros a Ha. rewrite already_taken_cons in Ha.
        rewrite already_taken_cons.
        apply in_app_or in Ha. destruct Ha as [Ha|Ha].
        -- left. apply in_or_app. left. exact Ha.
        -- destruct (Hnew a Ha) as [Hold|Hav].
           ++ left. apply in_or_app. right. exact Hold.
           ++ right. exact Hav.
    + (* the responder is sent to [room] *)
      rewrite Heq. cbn [fst snd].
      set (av1 := filter (fun rm => negb (Nat.eqb rm room)) av).
      assert (Hav1 : forall a, In a av1 <-> In a av /\ a <> room).
      { intros a. unfold av1. rewrite filter_In, negb_true_iff, Nat.eqb_neq.
        reflexivity. }
      destruct (IH av1 (conj Hrest Hnd_rest)) as ((Hall' & Hnd') & Hsub & Hnew).
      { intros a Ha Ht. apply Hav1 in Ha. destruct Ha as [Ha _].
        apply (Hdisj a Ha). apply in_or_app. right. exact Ht. }
      assert (Hroom : ~ In room (already_taken
                                   (fst (assign_idle hypot w s rest av1)))).
      { intros Hc. destruct (Hnew room Hc) as [Hold|[Hin1 _]].
        - apply (Hdisj room Hin). apply in_or_app. right. exact Hold.
        - apply Hav1 in Hin1. destruct Hin1 as [_ Hneq]. congruence. }
      split; [split|split].
      * constructor; [|exact Hall'].
        split; cbn; intros _; eauto.
      * rewrite already_taken_cons. cbn [is_active state target_room app].
        constructor; assumption.
      * intros a Ha. apply Hsub in Ha. apply Hav1 in Ha. tauto.
      * intros a Ha. rewrite already_taken_cons in Ha.
        cbn [is_active state target_room app] in Ha.
        destruct Ha as [<-|Ha].
        -- right. split; [exact Hin|]. intros Hc. apply Hsub in Hc.
           apply Hav1 in Hc. destruct Hc as [_ Hneq]. congruence.
        -- destruct (Hnew a Ha) as [Hold|[Hin1 Hout]].
           ++ left. apply in_or_app. right. exact Hold.
           ++ right. apply Hav1 in Hin1. tauto.
Qed.

(** The state of the assignment loop after the first [i] responders had
    their turn keeps the invariant. *)
Lemma assign_prefix_inv (w : World) (s : Q) (rs : list ResponderState)
    (remaining : list ref) (i : nat) :
  resp_inv rs ->
  resp_inv (fst (assign_idle hypot w s (firstn i rs)
                   (available_rooms w remaining rs)) ++ skipn i rs).
Proof.
  intros [Hall Hnd].
  rewrite <- (firstn_skipn i rs) in Hall, Hnd.
  apply Forall_app in Hall. destruct Hall as [Hall1 Hall2].
  rewrite already_taken_app in Hnd.
  destruct (assign_idle_inv w s (firstn i rs) (available_rooms w remaining rs))
    as ((Hall' & Hnd') & _ & Hnew).
  { split; [exact Hall1|exact (NoDup_app_remove_r _ _ Hnd)]. }
  { intros a Ha Ht. apply available_not_taken in Ha. destruct Ha as [_ Ha].
    apply Ha. rewrite <- (firstn_skipn i rs), already_taken_app.
    apply in_or_app. left. exact Ht. }
  split.
  - apply Forall_app. split; assumption.
  - rewrite already_taken_app.
    apply NoDup_app; [exact Hnd'|exact (NoDup_app_remove_l _ _ Hnd)|].
    intros a Ha Hsuf. destruct (Hnew a Ha) as [Hold|[Hav _]].
    + exact (NoDup_app_disjoint _ _ Hnd a Hold Hsuf).
    + apply available_not_taken in Hav. destruct Hav as [_ Hav].
      apply Hav. rewrite <- (firstn_skipn i rs), already_taken_app.
      apply in_or_app. right. exact Hsuf.
Qed.

Lemma assign_phase_inv (w : World) (f : Frame) :
  resp_inv (responders f) -> resp_inv (responders (assign_phase hypot w f)).
Proof.
  intros H.
  pose proof (assign_prefix_inv w (responder_speed f) (responders f)
                (remaining_rooms f) (List.length (responders f)) H) as Hp.
  rewrite firstn_all, skipn_all, app_nil_r in Hp. exact Hp.
Qed.

End ClaimInvariant.

Lemma narrows_refl (r : ResponderState) : narrows r r.
Proof. split; auto. Qed.

Lemma narrows_to_idle (r : ResponderState) (t : Q) (p : Point)
    (tr : option ref) (td : option Point) :
  narrows r (mkResponderState idle t p tr td).
Proof.
  split; [intros _; apply has_target_idle|]. cbn. intros H. discriminate.
Qed.

Lemma narrows_inv (rs rs' : list ResponderState) :
  Forall2 narrows rs rs' -> resp_inv rs ->
  resp_inv rs'
  /\ (forall a, In a (already_taken rs') -> In a (already_taken rs)).
Proof.
  induction 1 as [|r r' rs rs' [Hkeep Hact] Hrest IH]; intros [Hall Hnd].
  - split; [split; constructor|]. intros a [].
  - inversion Hall as [|? ? Hr Hrs]; subst.
    rewrite already_taken_cons in Hnd.
    destruct (IH (conj Hrs (NoDup_app_remove_l _ _ Hnd))) as ((Hall' & Hnd') & Hsub).
    assert (Hhead : forall a,
               In a (if is_active r'
                     then match target_room r' with Some x => [x] | None => [] end
                     else []) ->
               In a (if is_active r
                     then match target_room r with Some x => [x] | None => [] end
                     else [])).
    { intros a Ha. destruct (is_active r') eqn:E; [|destruct Ha].
      destruct (Hact eq_refl) as [-> <-]. exact Ha. }
    split; [split|].
    + constructor; auto.
    + rewrite already_taken_cons.
      apply NoDup_app; [|exact Hnd'|].
      * destruct (is_active r'); [|constructor].
        destruct (target_room r'); [|constructor].
        constructor; [intros []|constructor].
      * intros a Ha Ha'.
        exact (NoDup_app_disjoint _ _ Hnd a (Hhead a Ha) (Hsub a Ha')).
    + intros a Ha. rewrite already_taken_cons in Ha. rewrite already_taken_cons.
      apply in_app_or in Ha. apply in_or_app.
      destruct Ha as [Ha|Ha]; [left; exact (Hhead a Ha)|right; exact (Hsub a Ha)].
Qed.

Lemma advance_narrows (dt : Q) (rs : list ResponderState) :
  Forall2 narrows rs
    (map (fun r => if is_active r
                   then mkResponderState (state r) (time_remaining r - dt)
                          (position r) (target_room r) (target_door r)
                   else r) rs).
Proof.
  induction rs as [|r rs IH]; [constructor|].
  cbn [map]. constructor; [|exact IH].
  destruct (is_active r) eqn:E; [|apply narrows_refl].
  split.
  - intros [H1 H2]. split; cbn; auto.
  - cbn. unfold is_active in *. cbn. auto.
Qed.

Section ProcessInvariant.

Variable hypot : Q -> Q -> Q.

Lemma process_one_narrows (exits : list ExitNode) (s : Q) (r : ResponderState)
    (remaining : list ref) (w : World)
    (r' : ResponderState) (remaining' : list ref) (w' : World) :
  process_one hypot exits s r remaining w = Ok (r', remaining') w' ->
  narrows r r'.
Proof.
  unfold process_one.
  destruct (Qlt_bool eps (time_remaining r)).
  { intros H. injection H as <- _ _. apply narrows_refl. }
  destruct (state r) eqn:Hst.
  - intros H. injection H as <- _ _. apply narrows_refl.
  - destruct (target_room r) as [room|] eqn:Hroom; [|discriminate].
    destruct (target_door r) as [door|]; [|discriminate].
    intros H. injection H as <- _ _. split.
    + intros _. split; cbn; [eauto|discriminate].
    + intros _. unfold is_active. rewrite Hst.
           split; [reflexivity|cbn [target_room]; congruence].
  - destruct (target_room r) as [room|] eqn:Hroom.
    + destruct ((0 <? unabled (occupants_of w room))%Z && negb (is_empty exits)).
      * destruct (_unabled_evac_time hypot (unabled (occupants_of w room))
                    (position r) exits s) as [extra final].
        intros H. injection H as <- _ _. split.
        -- intros _. split; cbn; [eauto|discriminate].
        -- intros _. unfold is_active. rewrite Hst.
           split; [reflexivity|cbn [target_room]; congruence].
      * intros H. injection H as <- _ _. apply narrows_to_idle.
    + intros H. injection H as <- _ _. apply narrows_to_idle.
  - intros H. injection H as <- _ _. apply narrows_to_idle.
Qed.

Lemma process_all_narrows (exits : list ExitNode) (s : Q)
    (rs : list ResponderState) :
  forall (remaining : list ref) (w : World)
         (rs' : list ResponderState) (remaining' : list ref) (w' : World),
    process_all hypot exits s rs remaining w = Ok (rs', remaining') w' ->
    Forall2 narrows rs rs'.
Proof.
  induction rs as [|r rest IH]; intros remaining w rs' remaining' w' H.
  - cbn in H. injection H as <- _ _. constructor.
  - cbn [process_all] in H. unfold bind in H.
    destruct (process_one hypot exits s r remaining w)
      as [[r1 rem1] w1| |] eqn:E1; try discriminate.
    destruct (process_all hypot exits s rest rem1 w1)
      as [[rest1 rem2] w2| |] eqn:E2; try discriminate.
    cbn in H. injection H as <- _ _.
    constructor; [exact (process_one_narrows _ _ _ _ _ _ _ _ E1)|].
    exact (IH _ _ _ _ _ E2).
Qed.

End ProcessInvariant.

Lemma initial_responders_inv (n : Z) (start : Point) :
  resp_inv (initial_responders n start).
Proof.
  unfold initial_responders.
  induction (Z.to_nat n) as [|k [Hall Hnd]]; cbn [repeat].
  - split; constructor.
  - split; [constructor; [apply has_target_idle|exact Hall]|exact Hnd].
Qed.

Section Invariant.

Variable hypot : Q -> Q -> Q.
Variables (n_responders : Z) (rooms0 : list ref) (exits0 : list ExitNode).
Variables (speed : Q) (start_position : Point) (w0 : World).

Local Abbreviation head :=
  (at_loop_head hypot n_responders rooms0 exits0 speed start_position w0).
Local Abbreviation seen :=
  (visited hypot n_responders rooms0 exits0 speed start_position w0).

(** A pass that runs to the end of the body: what it computed. *)
Lemma loop_body_continue (f : Frame) (w : World) (f' : Frame) (w' : World) :
  loop_body hypot f w = Ok (Continue f') w' ->
  exists t ts rs' remaining',
    map time_remaining (filter is_active (responders (assign_phase hypot w f)))
      = t :: ts
    /\ process_all hypot (exits f) (responder_speed f)
         (responders (advance_phase (py_min t ts) (assign_phase hypot w f)))
         (remaining_rooms f) w
       = Ok (rs', remaining') w'
    /\ f' = mkFrame (rooms f) (exits f) (responder_speed f) remaining' rs'
                    (current_time f + py_min t ts).
Proof.
  unfold loop_body.
  destruct (map time_remaining
              (filter is_active (responders (assign_phase hypot w f))))
    as [|t ts] eqn:Ht; [discriminate|].
  unfold bind, process_phase, bind.
  cbn [exits responder_speed remaining_rooms rooms current_time
       advance_phase assign_phase].
  match goal with
  | |- context [process_all ?h ?e ?s ?rs ?rem ?w] =>
      destruct (process_all h e s rs rem w) as [[rs' rem'] w1| |] eqn:Hp
  end; try discriminate.
  unfold ret. intros H. injection H as <- <-.
  exists t, ts, rs', rem'. repeat split. exact Hp.
Qed.

Lemma at_loop_head_inv (f : Frame) (w : World) :
  head f w -> resp_inv (responders f).
Proof.
  induction 1 as [Hs|f w f' w' Hhead IH Hcond Hbody].
  - apply initial_responders_inv.
  - destruct (loop_body_continue f w f' w' Hbody)
      as (t & ts & rs' & rem' & Ht & Hp & ->).
    cbn [responders].
    apply process_all_narrows in Hp.
    apply (narrows_inv _ _ Hp).
    cbn [advance_phase responders].
    apply (narrows_inv _ _ (advance_narrows _ _)).
    apply assign_phase_inv. exact IH.
Qed.

Lemma visited_inv (f : Frame) (w : World) :
  seen f w -> resp_inv (responders f).
Proof.
  intros H. destruct H as [f w Hh|f w i Hh Hc|f w t ts Hh Hc Ht
                           |f w t ts i rs' rem' w' Hh Hc Ht Hp];
    pose proof (at_loop_head_inv f w Hh) as Hinv.
  - exact Hinv.
  - cbn [with_responders responders]. apply assign_prefix_inv. exact Hinv.
  - cbn [advance_phase responders].
    apply (narrows_inv _ _ (advance_narrows _ _)).
    apply assign_phase_inv. exact Hinv.
  - cbn [responders].
    set (rs2 := responders (advance_phase (py_min t ts) (assign_phase hypot w f))) in *.
    assert (Hinv2 : resp_inv rs2).
    { unfold rs2. cbn [advance_phase responders].
      apply (narrows_inv _ _ (advance_narrows _ _)).
      apply assign_phase_inv. exact Hinv. }
    apply process_all_narrows in Hp.
    refine (proj1 (narrows_inv rs2 _ _ Hinv2)).
    rewrite <- (firstn_skipn i rs2) at 1.
    apply Forall2_app; [exact Hp|].
    clear. induction (skipn i rs2); constructor; [apply narrows_refl|assumption].
Qed.

(** C7: at every point of the simulation loop (the loop head, and every
    turn of the assignment loop, the time advance and every turn of the
    processing loop of a pass), two distinct responders that are both
    non-idle have target rooms, and these are different room objects; in
    particular the responders assigned within one pass claim different
    rooms. *)
Theorem room_claims_exclusive :
  forall (f : Frame) (w : World),
    visited hypot n_responders rooms0 exits0 speed start_position w0 f w ->
    claims_disjoint (responders f).
Proof.
  intros f w H. apply resp_inv_claims_disjoint. exact (visited_inv f w H).
Qed.

(** A moving responder always has a target room and a target door: the
    two failures of the [moving] branch of [process_one] are not reached. *)
Lemma moving_has_target (f : Frame) (w : World) (r : ResponderState) :
  seen f w -> In r (responders f) -> state r = moving ->
  exists room door, target_room r = Some room /\ target_door r = Some door.
Proof.
  intros H Hin Hst. destruct (visited_inv f w H) as [Hall _].
  rewrite Forall_forall in Hall. destruct (Hall r Hin) as [Hroom Hdoor].
  destruct (Hdoor Hst) as (door & Hd).
  destruct Hroom as (room & Hr); [unfold is_active; rewrite Hst; reflexivity|].
  exists room, door. split; assumption.
Qed.

(** No pass fails: the [AttributeError] and [TypeError] of the [moving]
    branch are out of reach. *)
Lemma process_one_no_raise (exits : list ExitNode) (s : Q) (r : ResponderState)
    (remaining : list ref) (w : World) :
  has_target r -> no_raise (process_one hypot exits s r remaining w).
Proof.
  intros [Hroom Hdoor]. unfold process_one.
  destruct (Qlt_bool eps (time_remaining r)); [exact I|].
  destruct (state r) eqn:Hst.
  - exact I.
  - destruct (Hroom ltac:(unfold is_active; rewrite Hst; reflexivity)) as (room & ->).
    destruct (Hdoor eq_refl) as (door & ->). exact I.
  - destruct (target_room r) as [room|]; [|exact I].
    destruct ((0 <? unabled (occupants_of w room))%Z && negb (is_empty exits));
      [|exact I].
    destruct (_unabled_evac_time hypot (unabled (occupants_of w room))
                (position r) exits s). exact I.
  - exact I.
Qed.

Lemma process_all_no_raise (exits : list ExitNode) (s : Q)
    (rs : list ResponderState) :
  forall (remaining : list ref) (w : World),
    Forall has_target rs ->
    no_raise (process_all hypot exits s rs remaining w).
Proof.
  induction rs as [|r rest IH]; intros remaining w Hall; [exact I|].
  inversion Hall as [|? ? Hr Hrest]; subst.
  cbn [process_all]. unfold bind.
  pose proof (process_one_no_raise exits s r remaining w Hr) as H1.
  destruct (process_one hypot exits s r remaining w)
    as [[r1 rem1] w1|e w1|]; [|exact H1|exact I].
  pose proof (IH rem1 w1 Hrest) as H2.
  destruct (process_all hypot exits s rest rem1 w1)
    as [[rest1 rem2] w2|e w2|]; [exact I|exact H2|exact I].
Qed.

Lemma loop_body_no_raise (f : Frame) (w : World) :
  head f w -> no_raise (loop_body hypot f w).
Proof.
  intros Hh. unfold loop_body.
  destruct (map time_remaining
              (filter is_active (responders (assign_phase hypot w f))))
    as [|t ts]; [exact I|].
  unfold bind, process_phase, bind.
  match goal with
  | |- context [process_all ?h ?e ?s ?rs ?rem ?w] =>
      pose proof (process_all_no_raise e s rs rem w) as Hp;
      destruct (process_all h e s rs rem w) as [[rs' rem'] w1|e1 w1|]
  end; [exact I| |exact I].
  apply Hp. cbn [advance_phase responders].
  refine (proj1 (proj1 (narrows_inv _ _ (advance_narrows _ _) _))).
  apply assign_phase_inv. exact (at_loop_head_inv f w Hh).
Qed.

Lemma while_loop_no_raise (fuel : nat) :
  forall (f : Frame) (w : World),
    head f w -> no_raise (while_loop hypot fuel f w).
Proof.
  induction fuel as [|fuel IH]; intros f w Hh; cbn [while_loop].
  - destruct (loop_cond f); exact I.
  - destruct (loop_cond f) eqn:Hc; [|exact I].
    unfold bind. pose proof (loop_body_no_raise f w Hh) as Hb.
    destruct (loop_body hypot f w) as [[fb|fc] w1|e w1|] eqn:Hbody.
    + exact I.
    + apply IH.
      exact (head_next hypot n_responders rooms0 exits0 speed start_position
               w0 f w fc w1 Hh Hc Hbody).
    + exact Hb.
    + exact I.
Qed.

(** The frame a call returns with has been visited: it is either a loop
    head where the loop condition fails, or the frame at the [break]. *)
Lemma while_loop_visited (fuel : nat) :
  forall (f : Frame) (w : World) (f' : Frame) (w' : World),
    head f w -> while_loop hypot fuel f w = Ok f' w' -> seen f' w'.
Proof.
  induction fuel as [|fuel IH]; intros f w f' w' Hh Hrun.
  - cbn [while_loop] in Hrun. destruct (loop_cond f); [discriminate|].
    injection Hrun as <- <-. apply visit_head. exact Hh.
  - cbn [while_loop] in Hrun. destruct (loop_cond f) eqn:Hc.
    + unfold bind in Hrun.
      destruct (loop_body hypot f w) as [[fb|fc] w1| |] eqn:Hb; try discriminate.
      * injection Hrun as <- <-.
        unfold loop_body in Hb.
        destruct (map time_remaining
                    (filter is_active (responders (assign_phase hypot w f))))
          as [|t ts] eqn:Ht.
        -- injection Hb as <- <-.
           pose proof (visit_assign hypot n_responders rooms0 exits0 speed
                         start_position w0 f w (List.length (responders f)) Hh Hc)
             as Hv.
           rewrite firstn_all, skipn_all, app_nil_r in Hv. exact Hv.
        -- unfold bind in Hb.
           destruct (process_phase hypot _ w); discriminate.
      * apply (IH fc w1 f' w'); [|exact Hrun].
        exact (head_next hypot n_responders rooms0 exits0 speed start_position
                 w0 f w fc w1 Hh Hc Hb).
    + injection Hrun as <- <-. apply visit_head. exact Hh.
Qed.

(** With a positive speed a call never raises, and the frame it returns
    with has been visited. *)
Lemma simulate_no_raise (fuel : nat) :
  Qle_bool speed 0 = false ->
  no_raise (simulate hypot fuel n_responders rooms0 exits0 speed
              start_position w0).
Proof.
  intros Hs. unfold simulate. rewrite Hs.
  apply while_loop_no_raise. apply head_start. exact Hs.
Qed.

Lemma simulate_visited (fuel : nat) (f' : Frame) (w' : World) :
  simulate hypot fuel n_responders rooms0 exits0 speed start_position w0
  = Ok f' w' ->
  seen f' w'.
Proof.
  unfold simulate. destruct (Qle_bool speed 0) eqn:Hs; [discriminate|].
  apply while_loop_visited. apply head_start. exact Hs.
Qed.

End Invariant.

(* ------------------------------------------------------------------ *)
(** ** What the simulation writes *)

Lemma only_unabled_zeroed_refl (w : World) : only_unabled_zeroed w w.
Proof. split; [reflexivity|]. intros o. repeat split. left. reflexivity. Qed.

Lemma only_unabled_zeroed_trans (w1 w2 w3 : World) :
  only_unabled_zeroed w1 w2 -> only_unabled_zeroed w2 w3 ->
  only_unabled_zeroed w1 w3.
Proof.
  intros [Hr12 Ho12] [Hr23 Ho23]. split.
  - intros a. rewrite Hr23. apply Hr12.
  - intros o. destruct (Ho12 o) as (Ha & Hc & Hu).
    destruct (Ho23 o) as (Ha' & Hc' & Hu').
    split; [congruence|]. split; [congruence|].
    destruct Hu' as [Hu'|Hu']; [|right; exact Hu'].
    destruct Hu as [Hu|Hu]; [left|right]; congruence.
Qed.

Lemma print_frame (msg : string) (w : World) : only_unabled_zeroed w (print msg w).
Proof. split; [reflexivity|]. intros o. repeat split. left. reflexivity. Qed.

Lemma set_unabled_zero_frame (w : World) (room : ref) :
  only_unabled_zeroed w (set_unabled_zero w room).
Proof.
  split; [reflexivity|]. intros o. unfold set_unabled_zero. cbn.
  destruct (Nat.eqb o (occupants (room_at w room))); cbn.
  - repeat split. right. reflexivity.
  - repeat split. left. reflexivity.
Qed.

Section Frame.

Variable hypot : Q -> Q -> Q.

Lemma process_one_frame (exits : list ExitNode) (s : Q) (r : ResponderState)
    (remaining : list ref) (w w' : World) :
  final_world (process_one hypot exits s r remaining w) = Some w' ->
  only_unabled_zeroed w w'.
Proof.
  unfold process_one.
  destruct (Qlt_bool eps (time_remaining r)).
  { cbn. intros H. injection H as <-. apply only_unabled_zeroed_refl. }
  destruct (state r).
  - cbn. intros H. injection H as <-. apply only_unabled_zeroed_refl.
  - destruct (target_room r) as [room|], (target_door r) as [door|]; cbn;
      intros H; injection H as <-;
      first [apply print_frame | apply only_unabled_zeroed_refl].
  - destruct (target_room r) as [room|].
    + destruct ((0 <? unabled (occupants_of w room))%Z && negb (is_empty exits)).
      * destruct (_unabled_evac_time hypot (unabled (occupants_of w room))
                    (position r) exits s) as [extra final].
        cbn. intros H. injection H as <-. apply set_unabled_zero_frame.
      * cbn. intros H. injection H as <-. apply only_unabled_zeroed_refl.
    + cbn. intros H. injection H as <-. apply only_unabled_zeroed_refl.
  - cbn. intros H. injection H as <-. apply only_unabled_zeroed_refl.
Qed.

Lemma process_all_frame (exits : list ExitNode) (s : Q) (rs : list ResponderState) :
  forall (remaining : list ref) (w w' : World),
    final_world (process_all hypot exits s rs remaining w) = Some w' ->
    only_unabled_zeroed w w'.
Proof.
  induction rs as [|r rest IH]; intros remaining w w' H.
  - cbn in H. injection H as <-. apply only_unabled_zeroed_refl.
  - cbn [process_all] in H. unfold bind in H.
    pose proof (process_one_frame exits s r remaining w) as H1.
    destruct (process_one hypot exits s r remaining w)
      as [[r1 rem1] w1|e w1|]; cbn in H1.
    + pose proof (IH rem1 w1) as H2.
      destruct (process_all hypot exits s rest rem1 w1)
        as [[rest1 rem2] w2|e w2|]; cbn in H, H2.
      * injection H as <-.
        exact (only_unabled_zeroed_trans _ _ _ (H1 _ eq_refl) (H2 _ eq_refl)).
      * injection H as <-.
        exact (only_unabled_zeroed_trans _ _ _ (H1 _ eq_refl) (H2 _ eq_refl)).
      * discriminate.
    + cbn in H. injection H as <-. exact (H1 _ eq_refl).
    + discriminate.
Qed.

(** A pass writes nothing but zeros into unabled counts, and leaves the
    parameters [rooms], [exits] and [responder_speed] of the frame alone. *)
Lemma loop_body_frame (f : Frame) (w w' : World) :
  final_world (loop_body hypot f w) = Some w' ->
  only_unabled_zeroed w w'
  /\ (forall e, loop_body hypot f w = Ok e w' ->
        let f' := match e with Break f' => f' | Continue f' => f' end in
        rooms f' = rooms f /\ exits f' = exits f
        /\ responder_speed f' = responder_speed f).
Proof.
  unfold loop_body.
  destruct (map time_remaining
              (filter is_active (responders (assign_phase hypot w f))))
    as [|t ts].
  - cbn. intros H. injection H as <-. split; [apply only_unabled_zeroed_refl|].
    intros e He. injection He as <-. cbn. repeat split.
  - unfold bind, process_phase, bind.
    cbn [exits responder_speed remaining_rooms rooms current_time
         advance_phase assign_phase].
    match goal with
    | |- context [process_all ?h ?e ?s ?rs ?rem ?w] =>
        pose proof (process_all_frame e s rs rem w) as Hp;
        destruct (process_all h e s rs rem w) as [[rs' rem'] w1|e1 w1|]
    end; cbn in Hp |- *.
    + intros H. injection H as <-. split; [exact (Hp _ eq_refl)|].
      intros e He. injection He as <-. cbn. repeat split.
    + intros H. injection H as <-. split; [exact (Hp _ eq_refl)|].
      intros e He. discriminate.
    + discriminate.
Qed.

Lemma while_loop_frame (fuel : nat) :
  forall (f : Frame) (w w' : World),
    final_world (while_loop hypot fuel f w) = Some w' ->
    only_unabled_zeroed w w'
    /\ (forall f', while_loop hypot fuel f w = Ok f' w' ->
          rooms f' = rooms f /\ exits f' = exits f
          /\ responder_speed f' = responder_speed f).
Proof.
  induction fuel as [|fuel IH]; intros f w w' H.
  - cbn [while_loop] in *. destruct (loop_cond f); [discriminate|].
    cbn in H. injection H as <-. split; [apply only_unabled_zeroed_refl|].
    intros f' Hf. injection Hf as <-. repeat split.
  - cbn [while_loop] in *. destruct (loop_cond f).
    + unfold bind in *.
      pose proof (loop_body_frame f w) as Hb.
      destruct (loop_body hypot f w) as [[fb|fc] w1|e w1|]; cbn in Hb.
      * cbn in H. injection H as <-.
        destruct (Hb _ eq_refl) as [Hw Hf]. split; [exact Hw|].
        intros f' Hf'. injection Hf' as <-. exact (Hf _ eq_refl).
      * destruct (Hb _ eq_refl) as [Hw Hf].
        destruct (IH fc w1 w' H) as [Hw' Hf'].
        split; [exact (only_unabled_zeroed_trans _ _ _ Hw Hw')|].
        intros f' Hrun. destruct (Hf' f' Hrun) as (H1 & H2 & H3).
        destruct (Hf _ eq_refl) as (H4 & H5 & H6). cbn in H4, H5, H6.
        repeat split; congruence.
      * cbn in H. injection H as <-.
        destruct (Hb _ eq_refl) as [Hw _]. split; [exact Hw|].
        intros f' Hf'. discriminate.
      * discriminate.
    + cbn in H. injection H as <-. split; [apply only_unabled_zeroed_refl|].
      intros f' Hf. injection Hf as <-. repeat split.
Qed.

Lemma find_fastest_evacuation_world (fuel : nat) (n : Z) (rooms0 : list ref)
    (exits0 : list ExitNode) (s : Q) (start : Point) (w : World) :
  final_world (find_fastest_evacuation hypot fuel n rooms0 exits0 s start w)
  = final_world (simulate hypot fuel n rooms0 exits0 s start w).
Proof.
  unfold find_fastest_evacuation, bind.
  destruct (simulate hypot fuel n rooms0 exits0 s start w); reflexivity.
Qed.

(** C10: however a call of [find_fastest_evacuation] ends (by [return] or
    by an exception), no room object has changed (id, base clearance
    duration, shape, door list, and the occupants object it refers to), and
    of every occupants object the adult and child counts are unchanged while
    the unabled count is either unchanged or zero.  At the [return] the
    parameters [rooms] and [exits] hold the lists the caller passed: the
    list that shrinks is [remaining_rooms], which starts as a copy. *)
Theorem simulation_only_zeroes_unabled :
  forall (fuel : nat) (n : Z) (rooms0 : list ref) (exits0 : list ExitNode)
         (s : Q) (start : Point) (w w' : World),
    final_world (find_fastest_evacuation hypot fuel n rooms0 exits0 s start w)
      = Some w' ->
    only_unabled_zeroed w w'
    /\ (forall f', simulate hypot fuel n rooms0 exits0 s start w = Ok f' w' ->
          rooms f' = rooms0 /\ exits f' = exits0)
    /\ remaining_rooms (initial_frame n rooms0 exits0 s start) = rooms0.
Proof.
  intros fuel n rooms0 exits0 s start w w' H.
  rewrite find_fastest_evacuation_world in H.
  unfold simulate in *. destruct (Qle_bool s 0).
  - cbn in H. injection H as <-. split; [apply only_unabled_zeroed_refl|].
    split; [|reflexivity]. intros f' Hf. discriminate.
  - destruct (while_loop_frame fuel _ w w' H) as [Hw Hf].
    split; [exact Hw|]. split; [|reflexivity].
    intros f' Hrun. destruct (Hf f' Hrun) as (H1 & H2 & _). split; assumption.
Qed.

End Frame.

(* ------------------------------------------------------------------ *)
(** ** The end-to-end scenario with two unabled occupants *)

Lemma elapsed_own_time (t : Q) : Qlt_bool eps (t - t) = false.
Proof.
  apply Qlt_bool_false. setoid_replace (t - t) with 0 by ring. discriminate.
Qed.

Lemma same_room_refl (w : World) (a : ref) : same_room w a a = true.
Proof. unfold same_room. rewrite Nat.eqb_refl. reflexivity. Qed.

Lemma py_in_single (w : World) (a : ref) : py_in w a [a] = true.
Proof. unfold py_in. cbn [existsb]. rewrite same_room_refl. reflexivity. Qed.

Lemma remove_if_in_single (w : World) (a : ref) : remove_if_in w a [a] = [].
Proof.
  unfold remove_if_in. rewrite py_in_single. cbn [py_remove].
  rewrite same_room_refl. reflexivity.
Qed.

Section WhileLoop.

Variable hypot : Q -> Q -> Q.

Lemma while_loop_continue (fuel : nat) (f : Frame) (w : World)
    (f' : Frame) (w' : World) :
  loop_cond f = true ->
  loop_body hypot f w = Ok (Continue f') w' ->
  while_loop hypot (S fuel) f w = while_loop hypot fuel f' w'.
Proof.
  intros Hc Hb. cbn [while_loop]. rewrite Hc. unfold bind. rewrite Hb.
  reflexivity.
Qed.

Lemma while_loop_exit (fuel : nat) (f : Frame) (w : World) :
  loop_cond f = false -> while_loop hypot fuel f w = Ok f w.
Proof. intros Hc. destruct fuel; cbn [while_loop]; rewrite Hc; reflexivity. Qed.

(** A pass in which the only responder is busy with the only room: nothing
    is assigned, time advances by the responder's countdown, and the
    responder is processed. *)
Lemma busy_single_pass (w : World) (a : ref) (ex : ExitNode) (s : Q)
    (r : ResponderState) (now : Q) :
  is_active r = true -> target_room r = Some a ->
  loop_body hypot (mkFrame [a] [ex] s [a] [r] now) w
  = ( ' (rs, remaining) <-
        process_all hypot [ex] s
          [mkResponderState (state r) (time_remaining r - time_remaining r)
             (position r) (Some a) (target_door r)] [a] ;;
      ret (Continue (mkFrame [a] [ex] s remaining rs (now + time_remaining r)))) w.
Proof.
  intros Hact Htarget.
  unfold loop_body, assign_phase, available_rooms.
  cbn [responders remaining_rooms already_taken flat_map].
  rewrite Hact, Htarget. cbn [app filter]. rewrite py_in_single.
  cbn [negb assign_idle assign_one fst].
  assert (Hone : assign_one hypot w s r [] = (r, [])).
  { unfold assign_one. destruct (state r); reflexivity. }
  cbn [responder_speed]. rewrite Hone. cbn [fst filter]. rewrite Hact.
  cbn [map py_min fold_left].
  unfold process_phase, advance_phase.
  cbn [responders map exits responder_speed remaining_rooms rooms current_time].
  rewrite Hact, Htarget. unfold bind.
  destruct (process_all hypot [ex] s _ [a] w) as [[rs rem] w1| |]; reflexivity.
Qed.

End WhileLoop.

Section Scenario.

Variable hypot : Q -> Q -> Q.

(** The first pass of a run with one idle responder and one room that has a
    single door: the responder is sent to that door, and arrives. *)
Lemma idle_single_pass (w : World) (a : ref) (door : Door) (ex : ExitNode)
    (start : Point) :
  doors (room_at w a) = [door] ->
  loop_body hypot
    (mkFrame [a] [ex] 1 [a] [mkResponderState idle 0 start None None] 0) w
  = Ok (Continue
          (mkFrame [a] [ex] 1 [a]
             [mkResponderState clearing (inject_Z (clearance_time w a))
                (Door_position door) (Some a) (Some (Door_position door))]
             (0 + _distance hypot start (Door_position door) / 1)))
       (print ("Responder arrived at room " ++ id (room_at w a) ++ " door.") w).
Proof.
  intros Hdoors.
  assert (Hchoose :
            _choose_nearest_room hypot w
              (mkResponderState idle 0 start None None) [a] 1
            = (Some a, Some (Door_position door),
               _distance hypot start (Door_position door) / 1)).
  { unfold _choose_nearest_room. cbn [fold_left].
    unfold consider_room, door_positions_or_center, get_door_positions.
    rewrite Hdoors. reflexivity. }
  unfold loop_body, assign_phase, available_rooms.
  cbn [responders remaining_rooms already_taken flat_map is_active state
       app py_in existsb negb filter assign_idle responder_speed].
  unfold assign_one. cbn [state]. rewrite Hchoose.
  cbn [filter position fst].
  cbn [negb filter is_active state map time_remaining py_min fold_left].
  unfold process_phase, advance_phase.
  cbn [responders map exits responder_speed remaining_rooms rooms current_time
       is_active state time_remaining position target_room target_door].
  unfold bind. cbn [process_all]. unfold bind.
  unfold process_one at 1. cbn [time_remaining].
  rewrite elapsed_own_time. reflexivity.
Qed.

Lemma clearance_time_15 (w : World) (a : ref) :
  base_clear_time (room_at w a) == 15 ->
  children (occupants_of w a) = 0%Z ->
  clearance_time w a = 15%Z.
Proof.
  intros Hbase Hch. unfold clearance_time. rewrite Hch.
  rewrite (Qceiling_comp _ 15); [reflexivity|].
  rewrite Hbase. reflexivity.
Qed.

(** C2: one responder, one room with base clearance 15, no children and 2
    unabled occupants, a single door at distance 2 from the start position,
    speed 1, and a single exit at distance 2 from the door: with three passes
    allowed or more, [find_fastest_evacuation] returns 27
    (2 travel + 15 clearance + (3*2 - 1) * 2 / 1 carrying). *)
Theorem scenario_two_unabled :
  forall (fuel : nat) (w : World) (a : ref) (door : Door) (ex : ExitNode)
         (start : Point),
    (3 <= fuel)%nat ->
    base_clear_time (room_at w a) == 15 ->
    children (occupants_of w a) = 0%Z ->
    unabled (occupants_of w a) = 2%Z ->
    doors (room_at w a) = [door] ->
    _distance hypot start (Door_position door) == 2 ->
    _distance hypot (Door_position door) (ExitNode_position ex) == 2 ->
    exists t w',
      find_fastest_evacuation hypot fuel 1 [a] [ex] 1 start w = Ok t w'
      /\ t == 27.
Proof.
  intros fuel w a door ex start Hfuel Hbase Hch Hun Hdoors Hd1 Hd2.
  do 3 (destruct fuel as [|fuel]; [lia|]). clear Hfuel.
  unfold find_fastest_evacuation, simulate, bind.
  change (Qle_bool 1 0) with false. cbv iota.
  change (initial_frame 1 [a] [ex] 1 start)
    with (mkFrame [a] [ex] 1 [a] [mkResponderState idle 0 start None None] 0).
  (* pass 1: travel to the door *)
  erewrite while_loop_continue;
    [|reflexivity|exact (idle_single_pass w a door ex start Hdoors)].
  set (w1 := print _ w).
  (* pass 2: clearance, then the carrying trips are scheduled *)
  erewrite (while_loop_continue hypot _ _ w1); [|reflexivity|].
  2:{ rewrite busy_single_pass by reflexivity.
      cbn [state time_remaining position target_door].
      unfold bind. cbn [process_all]. unfold bind.
      unfold process_one at 1. cbn [time_remaining state target_room position].
      rewrite elapsed_own_time.
      change (occupants_of w1 a) with (occupants_of w a). rewrite Hun.
      reflexivity. }
  cbn [Z.eqb Pos.eqb target_door].
  (* pass 3: the carrying trips elapse and the room leaves the pool *)
  erewrite (while_loop_continue hypot _ _ (set_unabled_zero w1 a)); [|reflexivity|].
  2:{ rewrite busy_single_pass by reflexivity.
      cbn [state time_remaining position target_door].
      unfold bind. cbn [process_all]. unfold bind.
      unfold process_one at 1. cbn [time_remaining state target_room position].
      rewrite elapsed_own_time, remove_if_in_single.
      reflexivity. }
  rewrite while_loop_exit by reflexivity.
  eexists. eexists. split; [reflexivity|].
  cbn [current_time].
  rewrite (clearance_time_15 w a Hbase Hch), Hd1, Hd2. reflexivity.
Qed.

End Scenario.

(* ------------------------------------------------------------------ *)
(** ** The model at work on concrete scenarios *)

Import Examples.

Example hypot_isqrt_3_4 : hypot_isqrt 3 4 = 5.
Proof. reflexivity. Qed.

Example hypot_isqrt_axis : hypot_isqrt (2 - 0) (0 - 0) = 2.
Proof. reflexivity. Qed.

(** Section 8 of the specification: U=1, d=4, s=2 gives 4; U=3, d=4, s=2
    gives 16. *)
Example evac_time_one :
  fst (_unabled_evac_time hypot_isqrt 1 (0, 0) [mkExitNode "E" 4 0] 2) == 4.
Proof. reflexivity. Qed.

Example evac_time_three :
  fst (_unabled_evac_time hypot_isqrt 3 (0, 0) [mkExitNode "E" 4 0] 2) == 16.
Proof. reflexivity. Qed.

(** The run of the scenario of C2 in [world_A]: 27, room A's unabled count
    zeroed, one arrival printed. *)
Example run_world_A :
  find_fastest_evacuation hypot_isqrt 4 1 [0%nat] [exit_E] 1 (0, 0) world_A
  = Ok 27 (set_unabled_zero
             (print "Responder arrived at room A door." world_A) 0%nat).
Proof. reflexivity. Qed.

(** Two passes are not enough for it. *)
Example run_world_A_short :
  find_fastest_evacuation hypot_isqrt 2 1 [0%nat] [exit_E] 1 (0, 0) world_A
  = OutOfFuel.
Proof. reflexivity. Qed.

(** Two responders and the two rooms of [world_AB]: the first goes to room
    A, the second to room B. *)
Example assign_two :
  map target_room
    (responders
       (assign_phase hypot_isqrt world_AB
          (initial_frame 2 [0%nat; 1%nat] [exit_E] 1 (0, 0))))
  = [Some 0%nat; Some 1%nat].
Proof. reflexivity. Qed.


Lemma scenario_two_unabled_witness :
  exists t w',
    find_fastest_evacuation hypot_isqrt 4 1 [0%nat] [exit_E] 1 (0, 0) world_A
    = Ok t w' /\ t == 27.
Proof.
  apply (scenario_two_unabled hypot_isqrt 4 world_A 0%nat (mkDoor 2 0) exit_E (0, 0)).
  - lia.
  - reflexivity.
  - reflexivity.
  - reflexivity.
  - reflexivity.
  - vm_compute. reflexivity.
  - vm_compute. reflexivity.
Defined.




Lemma clearance_time_spec_witness :
  clearance_time world_A 0%nat = Qceiling 15
  /\ (clearance_time world_A 0%nat <= clearance_time world_A3 0%nat)%Z.
Proof.
  destruct (clearance_time_spec world_A 0%nat) as (_ & _ & H0 & Hmono).
  split.
  - apply H0. reflexivity.
  - apply (Hmono world_A3).
    + reflexivity.
    + vm_compute. discriminate.
Defined.

Lemma room_claims_exclusive_witness :
  claims_disjoint
    (responders
       (with_responders (initial_frame 2 [0%nat; 1%nat] [exit_E] 1 (0, 0))
          (fst (assign_idle hypot_isqrt world_AB 1
                  (firstn 2 (initial_responders 2 (0, 0)))
                  (available_rooms world_AB [0%nat; 1%nat]
                     (initial_responders 2 (0, 0))))
           ++ skipn 2 (initial_responders 2 (0, 0))))).
Proof.
  apply (room_claims_exclusive hypot_isqrt 2 [0%nat; 1%nat] [exit_E] 1 (0, 0)
           world_AB _ world_AB).
  apply (visit_assign hypot_isqrt 2 [0%nat; 1%nat] [exit_E] 1 (0, 0) world_AB
           (initial_frame 2 [0%nat; 1%nat] [exit_E] 1 (0, 0)) world_AB 2).
  - apply head_start. reflexivity.
  - reflexivity.
Defined.

Lemma unabled_evac_time_guard_witness :
  _unabled_evac_time hypot_isqrt 0 (2, 0) [exit_E] 1 = (0, (2, 0)).
Proof.
  apply (proj1 (unabled_evac_time_guard hypot_isqrt 0 (2, 0) [exit_E] 1)).
  left. lia.
Defined.

Lemma nonpositive_speed_rejected_witness :
  find_fastest_evacuation hypot_isqrt 4 1 [0%nat] [exit_E] 0 (0, 0) world_A
    = Raise (ValueError "responder_speed must be > 0") world_A
  /\ simulate hypot_isqrt 4 1 [0%nat] [exit_E] 0 (0, 0) world_A
    = Raise (ValueError "responder_speed must be > 0") world_A.
Proof.
  apply (nonpositive_speed_rejected hypot_isqrt 4 1 [0%nat] [exit_E] 0 (0, 0)
           world_A).
  apply Qle_bool_iff. reflexivity.
Defined.

Lemma simulation_only_zeroes_unabled_witness :
  let w' := set_unabled_zero
              (print "Responder arrived at room A door." world_A) 0%nat in
  only_unabled_zeroed world_A w'
  /\ (forall f',
        simulate hypot_isqrt 4 1 [0%nat] [exit_E] 1 (0, 0) world_A = Ok f' w' ->
        rooms f' = [0%nat] /\ exits f' = [exit_E])
  /\ remaining_rooms (initial_frame 1 [0%nat] [exit_E] 1 (0, 0)) = [0%nat].
Proof.
  apply (simulation_only_zeroes_unabled hypot_isqrt 4 1 [0%nat] [exit_E] 1
           (0, 0) world_A).
  reflexivity.
Defined.

(* ------------------------------------------------------------------ *)
(** ** Further properties of the geometry helpers and of the two scans *)

(** X1: the centre of a rectangle lies in the rectangle exactly when the
    rectangle is well formed (x_min <= x_max and y_min <= y_max). *)
Theorem center_contained_iff :
  forall g : RoomGeometry,
    contains_point g (fst (center g)) (snd (center g)) = true
    <-> (x_min g <= x_max g /\ y_min g <= y_max g).
Proof.
  intros [[bx by_] [tx ty]].
  unfold contains_point, center, x_min, x_max, y_min, y_max. cbn [fst snd bottom_left top_right].
  rewrite !andb_true_iff, !Qle_bool_iff.
  assert (Hhalf : forall a b : Q, (a <= (a + b) / 2 /\ (a + b) / 2 <= b) <-> a <= b).
  { intros a b. split.
    - intros [H1 H2]. apply Qle_trans with ((a + b) / 2); assumption.
    - intros H. split.
      + apply Qle_shift_div_l; [reflexivity|]. lra.
      + apply Qle_shift_div_r; [reflexivity|]. lra. }
  rewrite (Hhalf bx tx), (Hhalf by_ ty). reflexivity.
Qed.

Section MoreScans.

Variable hypot : Q -> Q -> Q.


(** Past its guard, [_unabled_evac_time] is a function of the result of
    [_nearest_exit]. *)
Lemma unabled_evac_time_at (U : Z) (p : Point) (exits : list ExitNode) (s : Q)
    (ex : ExitNode) (d : Q) :
  (1 <= U)%Z -> 0 < s ->
  _nearest_exit hypot p exits = (Some ex, d) ->
  _unabled_evac_time hypot U p exits s
  = ((if (U =? 1)%Z then 2 * d / s else inject_Z (3 * U - 1) * d / s),
     ExitNode_position ex).
Proof.
  intros HU Hs Hnear.
  assert (Hne : exits <> []).
  { intros ->. cbn in Hnear. discriminate. }
  assert (Hguard : (U <=? 0)%Z || Qle_bool s 0 || is_empty exits = false).
  { apply Qlt_bool_true in Hs. unfold Qlt_bool in Hs.
    apply negb_true_iff in Hs. rewrite Hs.
    replace (U <=? 0)%Z with false by (symmetry; apply Z.leb_gt; lia).
    destruct exits; [congruence|reflexivity]. }
  unfold _unabled_evac_time. rewrite Hguard, Hnear. reflexivity.
Qed.

Lemma closed_form_from_one (U : Z) (d s : Q) :
  (1 <= U)%Z ->
  (if (U =? 1)%Z then 2 * d / s else inject_Z (3 * U - 1) * d / s)
  == (3 * inject_Z U - 1) * d / s.
Proof.
  intros HU. destruct (U =? 1)%Z eqn:E.
  - apply Z.eqb_eq in E. subst U.
    apply Qmult_comp; [|reflexivity]. apply Qmult_comp; reflexivity.
  - unfold Zminus. rewrite inject_Z_plus, inject_Z_mult. reflexivity.
Qed.


Lemma unabled_evac_time_zero (U : Z) (p : Point) (exits : list ExitNode) (s : Q) :
  (U <= 0)%Z \/ s <= 0 \/ exits = [] ->
  _unabled_evac_time hypot U p exits s = (0, p).
Proof.
  intros H. unfold _unabled_evac_time. destruct H as [H|[H|H]].
  - apply Z.leb_le in H. rewrite H. reflexivity.
  - apply Qle_bool_iff in H. rewrite H, orb_true_r. reflexivity.
  - subst exits. cbn [is_empty]. rewrite orb_true_r. reflexivity.
Qed.

(** Past the guard the extra time is (3U - 1) times d/s, and d/s is not
    negative when [hypot] is not. *)
Lemma unabled_evac_time_linear (U : Z) (p : Point) (exits : list ExitNode) (s : Q) :
  (forall x y, 0 <= hypot x y) ->
  (1 <= U)%Z -> exits <> [] -> 0 < s ->
  exists q, 0 <= q
            /\ forall V, (1 <= V)%Z ->
                 fst (_unabled_evac_time hypot V p exits s)
                 == (3 * inject_Z V - 1) * q.
Proof.
  intros Hh HU Hne Hs.
  destruct (nearest_exit_first_min hypot p exits Hne) as (k & ex & Hnear & _).
  exists (_distance hypot p (ExitNode_position ex) / s). split.
  - apply Qle_shift_div_l; [exact Hs|]. rewrite Qmult_0_l. apply Hh.
  - intros V HV.
    rewrite (unabled_evac_time_at V p exits s ex _ HV Hs Hnear). cbn [fst].
    rewrite (closed_form_from_one V) by exact HV.
    unfold Qdiv. rewrite Qmult_assoc. reflexivity.
Qed.

Lemma unabled_evac_time_nonneg (U : Z) (p : Point) (exits : list ExitNode) (s : Q) :
  (forall x y, 0 <= hypot x y) ->
  0 <= fst (_unabled_evac_time hypot U p exits s).
Proof.
  intros Hh.
  destruct (Z_le_gt_dec U 0) as [HU|HU];
    [rewrite unabled_evac_time_zero by auto; apply Qle_refl|].
  destruct (Qlt_le_dec 0 s) as [Hs|Hs];
    [|rewrite unabled_evac_time_zero by auto; apply Qle_refl].
  assert (Hcase : exits = [] \/ exits <> [])
    by (destruct exits; [left; reflexivity|right; discriminate]).
  destruct Hcase as [Hnil|Hne];
    [rewrite unabled_evac_time_zero by auto; apply Qle_refl|].
  destruct (unabled_evac_time_linear U p exits s Hh ltac:(lia) Hne Hs)
    as (q & Hq & Hform).
  rewrite (Hform U) by lia.
  apply Qmult_le_0_compat; [|exact Hq].
  assert (1 <= inject_Z U) by (change 1 with (inject_Z 1); rewrite <- Zle_Qle; lia).
  lra.
Qed.

(** X5: when [hypot] is never negative, the extra time is never negative
    and does not decrease with the number of unabled occupants. *)
Theorem unabled_evac_time_monotone :
  forall (U1 U2 : Z) (p : Point) (exits : list ExitNode) (s : Q),
    (forall x y, 0 <= hypot x y) ->
    (U1 <= U2)%Z ->
    0 <= fst (_unabled_evac_time hypot U1 p exits s)
    /\ fst (_unabled_evac_time hypot U1 p exits s)
       <= fst (_unabled_evac_time hypot U2 p exits s).
Proof.
  intros U1 U2 p exits s Hh HU.
  split; [apply unabled_evac_time_nonneg; exact Hh|].
  destruct (Z_le_gt_dec U1 0) as [H1|H1].
  { rewrite (unabled_evac_time_zero U1) by auto. cbn [fst].
    apply unabled_evac_time_nonneg. exact Hh. }
  destruct (Qlt_le_dec 0 s) as [Hs|Hs];
    [|rewrite !unabled_evac_time_zero by auto; apply Qle_refl].
  assert (Hcase : exits = [] \/ exits <> [])
    by (destruct exits; [left; reflexivity|right; discriminate]).
  destruct Hcase as [Hnil|Hne];
    [rewrite !unabled_evac_time_zero by auto; apply Qle_refl|].
  destruct (unabled_evac_time_linear U1 p exits s Hh ltac:(lia) Hne Hs)
    as (q & Hq & Hform).
  rewrite (Hform U1), (Hform U2) by lia.
  apply Qmult_le_compat_r; [|exact Hq].
  assert (inject_Z U1 <= inject_Z U2) by (rewrite <- Zle_Qle; lia).
  lra.
Qed.

End MoreScans.

(* ------------------------------------------------------------------ *)
(** ** Edge cases of the driver *)

Lemma initial_responders_idle (n : Z) (start : Point) :
  existsb is_active (initial_responders n start) = false.
Proof.
  unfold initial_responders. induction (Z.to_nat n) as [|k IH]; [reflexivity|].
  cbn [repeat existsb]. exact IH.
Qed.

Lemma speed_guard_passed (s : Q) : 0 < s -> Qle_bool s 0 = false.
Proof.
  intros Hs. apply Qlt_bool_true in Hs. unfold Qlt_bool in Hs.
  apply negb_true_iff in Hs. exact Hs.
Qed.

Section DriverEdges.

Variable hypot : Q -> Q -> Q.

(** X6: with no room to clear and a positive speed the loop body never
    runs: the call returns 0 with the store untouched, whatever the number of
    responders and of exits, and without needing a single pass. *)
Theorem no_rooms_returns_zero :
  forall (fuel : nat) (n : Z) (exits0 : list ExitNode) (s : Q)
         (start : Point) (w : World),
    0 < s ->
    find_fastest_evacuation hypot fuel n [] exits0 s start w = Ok 0 w.
Proof.
  intros fuel n exits0 s start w Hs.
  unfold find_fastest_evacuation, bind, simulate.
  rewrite (speed_guard_passed s Hs).
  rewrite while_loop_exit; [reflexivity|].
  unfold loop_cond, initial_frame. cbn [remaining_rooms responders is_empty negb orb].
  apply initial_responders_idle.
Qed.

(** X7: with n_responders <= 0 and a positive speed no responder is created;
    the first pass finds nobody active and breaks, so the call returns 0
    with the store untouched, however many rooms there are. *)
Theorem no_responders_returns_zero :
  forall (fuel : nat) (n : Z) (rooms0 : list ref) (exits0 : list ExitNode)
         (s : Q) (start : Point) (w : World),
    (n <= 0)%Z -> 0 < s -> (1 <= fuel)%nat ->
    find_fastest_evacuation hypot fuel n rooms0 exits0 s start w = Ok 0 w.
Proof.
  intros fuel n rooms0 exits0 s start w Hn Hs Hfuel.
  unfold find_fastest_evacuation, bind, simulate.
  rewrite (speed_guard_passed s Hs).
  unfold initial_frame, initial_responders.
  replace (Z.to_nat n) with 0%nat by lia. cbn [repeat].
  destruct fuel as [|fuel]; [lia|].
  cbn [while_loop]. destruct (loop_cond _); reflexivity.
Qed.

Lemma process_one_no_exit (s : Q) (r : ResponderState) (remaining : list ref)
    (w w' : World) :
  final_world (process_one hypot [] s r remaining w) = Some w' ->
  only_printed w w'.
Proof.
  unfold process_one.
  destruct (Qlt_bool eps (time_remaining r));
    [cbn; intros H; injection H as <-; split; reflexivity|].
  destruct (state r).
  - cbn. intros H. injection H as <-. split; reflexivity.
  - destruct (target_room r) as [room|], (target_door r) as [door|]; cbn;
      intros H; injection H as <-; split; reflexivity.
  - destruct (target_room r) as [room|].
    + rewrite andb_false_r. cbn. intros H. injection H as <-. split; reflexivity.
    + cbn. intros H. injection H as <-. split; reflexivity.
  - cbn. intros H. injection H as <-. split; reflexivity.
Qed.

Lemma only_printed_trans (w1 w2 w3 : World) :
  only_printed w1 w2 -> only_printed w2 w3 -> only_printed w1 w3.
Proof. intros [H1 H2] [H3 H4]. split; congruence. Qed.

Lemma process_all_no_exit (s : Q) (rs : list ResponderState) :
  forall (remaining : list ref) (w w' : World),
    final_world (process_all hypot [] s rs remaining w) = Some w' ->
    only_printed w w'.
Proof.
  induction rs as [|r rest IH]; intros remaining w w' H.
  - cbn in H. injection H as <-. split; reflexivity.
  - cbn [process_all] in H. unfold bind in H.
    pose proof (process_one_no_exit s r remaining w) as H1.
    destruct (process_one hypot [] s r remaining w)
      as [[r1 rem1] w1|e w1|]; cbn in H1.
    + pose proof (IH rem1 w1) as H2.
      destruct (process_all hypot [] s rest rem1 w1)
        as [[rest1 rem2] w2|e w2|]; cbn in H, H2.
      * injection H as <-.
        exact (only_printed_trans _ _ _ (H1 _ eq_refl) (H2 _ eq_refl)).
      * injection H as <-.
        exact (only_printed_trans _ _ _ (H1 _ eq_refl) (H2 _ eq_refl)).
      * discriminate.
    + cbn in H. injection H as <-. exact (H1 _ eq_refl).
    + discriminate.
Qed.

Lemma loop_body_no_exit (f : Frame) (w w' : World) :
  exits f = [] ->
  final_world (loop_body hypot f w) = Some w' ->
  only_printed w w'.
Proof.
  intros Hex. unfold loop_body.
  destruct (map time_remaining
              (filter is_active (responders (assign_phase hypot w f))))
    as [|t ts].
  - cbn. intros H. injection H as <-. split; reflexivity.
  - unfold bind, process_phase, bind.
    cbn [exits responder_speed remaining_rooms rooms current_time
         advance_phase assign_phase].
    rewrite Hex.
    match goal with
    | |- context [process_all ?h [] ?s ?rs ?rem ?w] =>
        pose proof (process_all_no_exit s rs rem w) as Hp;
        destruct (process_all h [] s rs rem w) as [[rs' rem'] w1|e1 w1|]
    end; cbn in Hp |- *.
    + intros H. injection H as <-. exact (Hp _ eq_refl).
    + intros H. injection H as <-. exact (Hp _ eq_refl).
    + discriminate.
Qed.

Lemma while_loop_no_exit (fuel : nat) :
  forall (f : Frame) (w w' : World),
    exits f = [] ->
    final_world (while_loop hypot fuel f w) = Some w' ->
    only_printed w w'.
Proof.
  induction fuel as [|fuel IH]; intros f w w' Hex H.
  - cbn [while_loop] in H. destruct (loop_cond f); [discriminate|].
    cbn in H. injection H as <-. split; reflexivity.
  - cbn [while_loop] in H. destruct (loop_cond f).
    + unfold bind in H.
      pose proof (loop_body_no_exit f w) as Hb.
      pose proof (loop_body_frame hypot f w) as Hfr.
      destruct (loop_body hypot f w) as [[fb|fc] w1|e w1|]; cbn in Hb, Hfr.
      * cbn in H. injection H as <-. exact (Hb _ Hex eq_refl).
      * destruct (Hfr _ eq_refl) as [_ Hf].
        destruct (Hf _ eq_refl) as (_ & Hex' & _). cbn in Hex'.
        apply (only_printed_trans _ w1); [exact (Hb _ Hex eq_refl)|].
        apply (IH fc); [congruence|exact H].
      * cbn in H. injection H as <-. exact (Hb _ Hex eq_refl).
      * discriminate.
    + cbn in H. injection H as <-. split; reflexivity.
Qed.

(** X8: when the exit list is empty the call writes nothing at all: rooms
    with unabled occupants are declared done right after clearing, every
    unabled count keeps its value, and the store differs by the printed
    lines only. *)
Theorem no_exit_writes_nothing :
  forall (fuel : nat) (n : Z) (rooms0 : list ref) (s : Q) (start : Point)
         (w w' : World),
    final_world (find_fastest_evacuation hypot fuel n rooms0 [] s start w)
      = Some w' ->
    room_at w' = room_at w /\ occ_at w' = occ_at w.
Proof.
  intros fuel n rooms0 s start w w' H.
  rewrite find_fastest_evacuation_world in H.
  unfold simulate in H. destruct (Qle_bool s 0).
  - cbn in H. injection H as <-. split; reflexivity.
  - apply (while_loop_no_exit fuel (initial_frame n rooms0 [] s start) w w');
      [reflexivity|exact H].
Qed.

End DriverEdges.

(* ------------------------------------------------------------------ *)
(** ** The pool and the responders along a run *)

Lemma py_remove_incl (w : World) (a : ref) (l : list ref) (x : ref) :
  In x (py_remove w a l) -> In x l.
Proof.
  induction l as [|y l IH]; [intros []|].
  cbn [py_remove]. destruct (same_room w y a).
  - intros H. right. exact H.
  - intros [<-|H]; [left; reflexivity|right; exact (IH H)].
Qed.

Lemma py_remove_length (w : World) (a : ref) (l : list ref) :
  py_in w a l = true -> S (List.length (py_remove w a l)) = List.length l.
Proof.
  unfold py_in. induction l as [|y l IH]; [discriminate|].
  cbn [existsb py_remove]. destruct (same_room w y a); [reflexivity|].
  cbn [orb List.length]. intros H. rewrite (IH H). reflexivity.
Qed.

Lemma py_remove_kept (w : World) (a : ref) (l : list ref) (x : ref) :
  In x l -> In x (py_remove w a l) \/ same_room w x a = true.
Proof.
  induction l as [|y l IH]; [intros []|].
  cbn [py_remove]. destruct (same_room w y a) eqn:E.
  - intros [<-|H]; [right; exact E|left; exact H].
  - intros [<-|H]; [left; left; reflexivity|].
    destruct (IH H) as [H'|H']; [left; right; exact H'|right; exact H'].
Qed.

Lemma py_in_false_not_in (w : World) (a : ref) (l : list ref) :
  py_in w a l = false -> ~ In a l.
Proof.
  intros H Hin.
  assert (Ht : py_in w a l = true).
  { unfold py_in. apply existsb_exists. exists a. split; [exact Hin|].
    apply same_room_refl. }
  congruence.
Qed.

Lemma remove_if_in_incl (w : World) (a : ref) (l : list ref) (x : ref) :
  In x (remove_if_in w a l) -> In x l.
Proof.
  unfold remove_if_in. destruct (py_in w a l); [apply py_remove_incl|auto].
Qed.

Lemma remove_if_in_length (w : World) (a : ref) (l : list ref) :
  (List.length (remove_if_in w a l) <= List.length l)%nat.
Proof.
  unfold remove_if_in. destruct (py_in w a l) eqn:E; [|lia].
  pose proof (py_remove_length w a l E). lia.
Qed.

Lemma assign_idle_length (hypot : Q -> Q -> Q) (w : World) (s : Q)
    (rs : list ResponderState) :
  forall av, List.length (fst (assign_idle hypot w s rs av)) = List.length rs.
Proof.
  induction rs as [|r rest IH]; intros av; [reflexivity|].
  rewrite assign_idle_cons. cbn [fst List.length]. rewrite IH. reflexivity.
Qed.

Section Pool.

Variable hypot : Q -> Q -> Q.

(** What a turn of the processing loop may do to the pool. *)
Lemma process_one_pool (exits : list ExitNode) (s : Q) (r : ResponderState)
    (remaining : list ref) (w : World)
    (r' : ResponderState) (remaining' : list ref) (w' : World) :
  process_one hypot exits s r remaining w = Ok (r', remaining') w' ->
  remaining' = remaining
  \/ (exists a, target_room r = Some a /\ state r' = idle
                /\ remaining' = remove_if_in w a remaining).
Proof.
  unfold process_one.
  destruct (Qlt_bool eps (time_remaining r));
    [intros H; injection H as _ <- _; left; reflexivity|].
  destruct (state r).
  - intros H. injection H as _ <- _. left. reflexivity.
  - destruct (target_room r) as [room|]; [|discriminate].
    destruct (target_door r) as [door|]; [|discriminate].
    intros H. injection H as _ <- _. left. reflexivity.
  - destruct (target_room r) as [room|].
    + destruct ((0 <? unabled (occupants_of w room))%Z && negb (is_empty exits)).
      * destruct (_unabled_evac_time hypot (unabled (occupants_of w room))
                    (position r) exits s) as [extra final].
        intros H. injection H as _ <- _. left. reflexivity.
      * intros H. injection H as <- <- _. right. exists room. auto.
    + intros H. injection H as _ <- _. left. reflexivity.
  - destruct (target_room r) as [room|].
    + intros H. injection H as <- <- _. right. exists room. auto.
    + intros H. injection H as _ <- _. left. reflexivity.
Qed.

Lemma process_all_pool (exits : list ExitNode) (s : Q) (rs : list ResponderState) :
  forall (remaining : list ref) (w : World)
         (rs' : list ResponderState) (remaining' : list ref) (w' : World),
    process_all hypot exits s rs remaining w = Ok (rs', remaining') w' ->
    List.length rs' = List.length rs
    /\ (forall x, In x remaining' -> In x remaining)
    /\ (List.length remaining' <= List.length remaining)%nat.
Proof.
  induction rs as [|r rest IH]; intros remaining w rs' remaining' w' H.
  - cbn in H. injection H as <- <- _. repeat split; auto.
  - cbn [process_all] in H. unfold bind in H.
    destruct (process_one hypot exits s r remaining w)
      as [[r1 rem1] w1| |] eqn:E1; try discriminate.
    destruct (process_all hypot exits s rest rem1 w1)
      as [[rest1 rem2] w2| |] eqn:E2; try discriminate.
    cbn in H. injection H as <- <- _.
    destruct (IH _ _ _ _ _ E2) as (Hlen & Hin & Hle).
    assert (Hstep : (forall x, In x rem1 -> In x remaining)
                    /\ (List.length rem1 <= List.length remaining)%nat).
    { destruct (process_one_pool _ _ _ _ _ _ _ _ E1) as [->|(a & _ & _ & ->)].
      - split; [auto|lia].
      - split; [apply remove_if_in_incl|apply remove_if_in_length]. }
    destruct Hstep as [Hin1 Hle1].
    cbn [List.length]. repeat split; [congruence|auto|lia].
Qed.

Variables (n_responders : Z) (rooms0 : list ref) (exits0 : list ExitNode).
Variables (speed : Q) (start_position : Point) (w0 : World).

Local Abbreviation head :=
  (at_loop_head hypot n_responders rooms0 exits0 speed start_position w0).

Lemma at_loop_head_shape (f : Frame) (w : World) :
  head f w ->
  rooms f = rooms0 /\ exits f = exits0 /\ responder_speed f = speed
  /\ List.length (responders f) = Z.to_nat n_responders
  /\ (forall x, In x (remaining_rooms f) -> In x rooms0)
  /\ (List.length (remaining_rooms f) <= List.length rooms0)%nat.
Proof.
  induction 1 as [Hs|f w f' w' Hhead IH Hcond Hbody].
  - cbn. unfold initial_responders. rewrite repeat_length.
    repeat split; auto.
  - destruct IH as (Hr & He & Hsp & Hlen & Hin & Hle).
    destruct (loop_body_continue hypot f w f' w' Hbody)
      as (t & ts & rs' & rem' & _ & Hp & ->).
    apply process_all_pool in Hp. destruct Hp as (Hlen' & Hin' & Hle').
    cbn [rooms exits responder_speed responders remaining_rooms].
    cbn [advance_phase assign_phase responders] in Hlen'.
    rewrite length_map, assign_idle_length in Hlen'.
    repeat split; [assumption|assumption|assumption|congruence|auto|lia].
Qed.

(** X9: at the head of every pass the frame still holds the caller's
    [rooms], [exits] and speed, there are as many responders as were
    created (max(n_responders, 0)), and the pool holds only rooms of the
    caller's list and is never longer than that list. *)
Theorem pool_within_rooms :
  forall (f : Frame) (w : World),
    at_loop_head hypot n_responders rooms0 exits0 speed start_position w0 f w ->
    rooms f = rooms0 /\ exits f = exits0 /\ responder_speed f = speed
    /\ List.length (responders f) = Z.to_nat (Z.max n_responders 0)
    /\ incl (remaining_rooms f) rooms0
    /\ (List.length (remaining_rooms f) <= List.length rooms0)%nat.
Proof.
  intros f w H.
  destruct (at_loop_head_shape f w H) as (H1 & H2 & H3 & H4 & H5 & H6).
  repeat split; try assumption.
  rewrite H4. lia.
Qed.

End Pool.

(* ------------------------------------------------------------------ *)
(** ** With a responder, the loop never breaks *)

Lemma no_active_none_taken (rs : list ResponderState) :
  existsb is_active rs = false -> already_taken rs = [].
Proof.
  induction rs as [|r rs IH]; [reflexivity|].
  cbn [existsb]. intros H. apply orb_false_iff in H. destruct H as [Hr Hrs].
  rewrite already_taken_cons, Hr, (IH Hrs). reflexivity.
Qed.

Lemma none_taken_all_available (w : World) (remaining : list ref)
    (rs : list ResponderState) :
  already_taken rs = [] -> available_rooms w remaining rs = remaining.
Proof.
  intros H. unfold available_rooms. rewrite H.
  induction remaining as [|a l IH]; [reflexivity|].
  cbn [filter]. change (py_in w a []) with false. cbn [negb].
  rewrite IH. reflexivity.
Qed.

Lemma no_active_all_idle (rs : list ResponderState) :
  existsb is_active rs = false -> Forall (fun r => state r = idle) rs.
Proof.
  induction rs as [|r rs IH]; [constructor|].
  cbn [existsb]. intros H. apply orb_false_iff in H. destruct H as [Hr Hrs].
  constructor; [|exact (IH Hrs)].
  unfold is_active in Hr. destruct (state r); [reflexivity|discriminate..].
Qed.

Section NoBreak.

Variable hypot : Q -> Q -> Q.

Lemma assign_one_keeps_active (w : World) (s : Q) (r : ResponderState)
    (av : list ref) :
  is_active r = true -> is_active (fst (assign_one hypot w s r av)) = true.
Proof.
  intros H. destruct (assign_one_cases hypot w s r av)
    as [->|(Hidle & _)]; [exact H|].
  unfold is_active in H. rewrite Hidle in H. discriminate.
Qed.

Lemma assign_one_idle (w : World) (s : Q) (r : ResponderState) (av : list ref) :
  state r = idle -> av <> [] ->
  is_active (fst (assign_one hypot w s r av)) = true.
Proof.
  intros Hst Hne.
  destruct (choose_nearest_room_some hypot w r av s Hne)
    as (k & room & door & _ & Heq).
  unfold assign_one. rewrite Hst.
  destruct av as [|a0 av0]; [congruence|].
  rewrite Heq. reflexivity.
Qed.

Lemma assign_idle_keeps_active (w : World) (s : Q) (rs : list ResponderState) :
  forall av,
    existsb is_active rs = true ->
    existsb is_active (fst (assign_idle hypot w s rs av)) = true.
Proof.
  induction rs as [|r rest IH]; intros av H; [discriminate|].
  rewrite assign_idle_cons. cbn [fst existsb]. cbn [existsb] in H.
  apply orb_true_iff in H. apply orb_true_iff. destruct H as [H|H].
  - left. apply assign_one_keeps_active. exact H.
  - right. apply IH. exact H.
Qed.

(** When the loop condition holds and there is a responder, somebody is
    active after the assignment step. *)
Lemma somebody_active (w : World) (f : Frame) :
  loop_cond f = true -> responders f <> [] ->
  existsb is_active (responders (assign_phase hypot w f)) = true.
Proof.
  intros Hc Hne. cbn [assign_phase responders].
  destruct (existsb is_active (responders f)) eqn:Hact.
  - apply assign_idle_keeps_active. exact Hact.
  - unfold loop_cond in Hc. rewrite Hact, orb_false_r in Hc.
    rewrite (none_taken_all_available w _ _ (no_active_none_taken _ Hact)).
    destruct (responders f) as [|r rest] eqn:Hrs; [congruence|].
    rewrite assign_idle_cons. cbn [fst existsb].
    rewrite assign_one_idle; [reflexivity| |].
    + apply no_active_all_idle in Hact. inversion Hact; assumption.
    + destruct (remaining_rooms f); [discriminate|discriminate].
Qed.

Lemma active_has_time (rs : list ResponderState) :
  existsb is_active rs = true ->
  map time_remaining (filter is_active rs) <> [].
Proof.
  induction rs as [|r rs IH]; [discriminate|].
  cbn [existsb filter]. destruct (is_active r); [discriminate|].
  cbn [orb]. exact IH.
Qed.

Lemma loop_body_no_break (w : World) (f fb : Frame) (w' : World) :
  loop_cond f = true -> responders f <> [] ->
  loop_body hypot f w <> Ok (Break fb) w'.
Proof.
  intros Hc Hne Hb. unfold loop_body in Hb.
  pose proof (active_has_time _ (somebody_active w f Hc Hne)) as Hts.
  destruct (map time_remaining
              (filter is_active (responders (assign_phase hypot w f))))
    as [|t ts]; [congruence|].
  unfold bind in Hb. destruct (process_phase hypot _ w); discriminate.
Qed.

Variables (n_responders : Z) (rooms0 : list ref) (exits0 : list ExitNode).
Variables (speed : Q) (start_position : Point) (w0 : World).

Local Abbreviation head :=
  (at_loop_head hypot n_responders rooms0 exits0 speed start_position w0).

Lemma while_loop_ends_at_false (fuel : nat) :
  forall (f : Frame) (w : World) (f' : Frame) (w' : World),
    (1 <= n_responders)%Z ->
    head f w -> while_loop hypot fuel f w = Ok f' w' ->
    loop_cond f' = false /\ head f' w'.
Proof.
  induction fuel as [|fuel IH]; intros f w f' w' Hn Hh Hrun.
  - cbn [while_loop] in Hrun. destruct (loop_cond f) eqn:Hc; [discriminate|].
    injection Hrun as <- <-. split; assumption.
  - cbn [while_loop] in Hrun. destruct (loop_cond f) eqn:Hc.
    + unfold bind in Hrun.
      destruct (loop_body hypot f w) as [[fb|fc] w1| |] eqn:Hb; try discriminate.
      * exfalso. apply (loop_body_no_break w f fb w1 Hc); [|exact Hb].
        destruct (at_loop_head_shape hypot _ _ _ _ _ _ f w Hh)
          as (_ & _ & _ & Hlen & _).
        intros Hnil. rewrite Hnil in Hlen. cbn in Hlen. lia.
      * apply (IH fc w1 f' w' Hn); [|exact Hrun].
        exact (head_next hypot n_responders rooms0 exits0 speed start_position
                 w0 f w fc w1 Hh Hc Hb).
    + injection Hrun as <- <-. split; assumption.
Qed.

End NoBreak.

(* ------------------------------------------------------------------ *)
(** ** Termination of the driver *)

Lemma mem_ref_iff (a : ref) (T : list ref) :
  existsb (Nat.eqb a) T = true <-> In a T.
Proof.
  rewrite existsb_exists. split.
  - intros (x & Hx & E). apply Nat.eqb_eq in E. subst. exact Hx.
  - intros H. exists a. split; [exact H|apply Nat.eqb_refl].
Qed.

Lemma unclaimed_cons (a : ref) (l T : list ref) :
  unclaimed (a :: l) T
  = ((if existsb (Nat.eqb a) T then 0 else 1) + unclaimed l T)%nat.
Proof.
  unfold unclaimed. cbn [filter].
  destruct (existsb (Nat.eqb a) T); reflexivity.
Qed.

Lemma unclaimed_le (l T : list ref) : (unclaimed l T <= List.length l)%nat.
Proof.
  induction l as [|a l IH]; [apply Nat.le_refl|].
  rewrite unclaimed_cons. cbn [List.length].
  destruct (existsb (Nat.eqb a) T); lia.
Qed.

Lemma unclaimed_mono (l T T' : list ref) :
  (forall x, In x l -> In x T -> In x T') ->
  (unclaimed l T' <= unclaimed l T)%nat.
Proof.
  induction l as [|a l IH]; intros H; [apply Nat.le_refl|].
  rewrite !unclaimed_cons.
  assert (IH' : (unclaimed l T' <= unclaimed l T)%nat).
  { apply IH. intros x Hx. apply H. right. exact Hx. }
  destruct (existsb (Nat.eqb a) T) eqn:E; [|destruct (existsb (Nat.eqb a) T'); lia].
  apply mem_ref_iff in E.
  assert (E' : existsb (Nat.eqb a) T' = true).
  { apply mem_ref_iff. apply H; [left; reflexivity|exact E]. }
  rewrite E'. lia.
Qed.

Lemma unclaimed_claim (l T T' : list ref) (a : ref) :
  In a l -> ~ In a T -> In a T' ->
  (forall x, In x l -> In x T -> In x T') ->
  (S (unclaimed l T') <= unclaimed l T)%nat.
Proof.
  induction l as [|y l IH]; intros Ha HT HT' H; [destruct Ha|].
  rewrite !unclaimed_cons.
  assert (Hl : forall x, In x l -> In x T -> In x T')
    by (intros x Hx; apply H; right; exact Hx).
  destruct (Nat.eq_dec y a) as [->|Hneq].
  - pose proof (unclaimed_mono l T T' Hl) as Hm.
    replace (existsb (Nat.eqb a) T) with false
      by (symmetry; apply not_true_iff_false; rewrite mem_ref_iff; exact HT).
    replace (existsb (Nat.eqb a) T') with true
      by (symmetry; apply mem_ref_iff; exact HT').
    lia.
  - destruct Ha as [Ha|Ha]; [congruence|].
    pose proof (IH Ha HT HT' Hl) as IH'.
    destruct (existsb (Nat.eqb y) T) eqn:E;
      [|destruct (existsb (Nat.eqb y) T'); lia].
    apply mem_ref_iff in E.
    replace (existsb (Nat.eqb y) T') with true
      by (symmetry; apply mem_ref_iff; apply H; [left; reflexivity|exact E]).
    lia.
Qed.

Lemma rank_le_3 (r : ResponderState) : (rank r <= 3)%nat.
Proof. unfold rank. destruct (state r); lia. Qed.

Lemma rank_sum_cons (r : ResponderState) (rs : list ResponderState) :
  rank_sum (r :: rs) = (rank r + rank_sum rs)%nat.
Proof. reflexivity. Qed.

Lemma rank_sum_le (rs : list ResponderState) :
  (rank_sum rs <= 3 * List.length rs)%nat.
Proof.
  induction rs as [|r rs IH]; [cbn; lia|].
  rewrite rank_sum_cons. cbn [List.length]. pose proof (rank_le_3 r). lia.
Qed.

Lemma already_taken_head (r : ResponderState) (rs : list ResponderState) :
  already_taken (r :: rs) = already_taken [r] ++ already_taken rs.
Proof. exact (already_taken_app [r] rs). Qed.

Lemma py_min_in (l : list Q) : forall x, In (py_min x l) (x :: l).
Proof.
  unfold py_min. induction l as [|y l IH]; intros x; [left; reflexivity|].
  cbn [fold_left]. destruct (Qlt_bool y x).
  - right. exact (IH y).
  - destruct (IH x) as [H|H]; [left; exact H|right; right; exact H].
Qed.

Lemma while_loop_more_fuel (hypot : Q -> Q -> Q) (fuel : nat) :
  forall (fuel' : nat) (f : Frame) (w : World) (f' : Frame) (w' : World),
    (fuel <= fuel')%nat ->
    while_loop hypot fuel f w = Ok f' w' ->
    while_loop hypot fuel' f w = Ok f' w'.
Proof.
  induction fuel as [|fuel IH]; intros fuel' f w f' w' Hle Hrun.
  - cbn [while_loop] in Hrun. destruct (loop_cond f) eqn:Hc; [discriminate|].
    rewrite while_loop_exit by exact Hc. exact Hrun.
  - destruct fuel' as [|fuel']; [lia|].
    cbn [while_loop] in *. destruct (loop_cond f); [|exact Hrun].
    unfold bind in *.
    destruct (loop_body hypot f w) as [[fb|fc] w1| |]; try discriminate.
    + exact Hrun.
    + apply (IH fuel'); [lia|exact Hrun].
Qed.

Section Termination.

Variable hypot : Q -> Q -> Q.

(** The four things a turn of the processing loop can do. *)
Lemma process_one_cases (exits : list ExitNode) (s : Q) (r : ResponderState)
    (remaining : list ref) (w : World)
    (r' : ResponderState) (remaining' : list ref) (w' : World) :
  process_one hypot exits s r remaining w = Ok (r', remaining') w' ->
  (due r = false /\ r' = r /\ remaining' = remaining)
  \/ (due r = true /\ is_active r' = true /\ target_room r' = target_room r
      /\ (S (rank r') <= rank r)%nat /\ remaining' = remaining)
  \/ (due r = true /\ state r' = idle /\ target_room r = None
      /\ remaining' = remaining)
  \/ (due r = true /\ state r' = idle
      /\ exists a, target_room r = Some a
                   /\ remaining' = remove_if_in w a remaining).
Proof.
  unfold process_one, due, rank, is_active.
  destruct (Qlt_bool eps (time_remaining r)).
  { intros H. injection H as <- <- _. left. auto. }
  destruct (state r) eqn:Hst; cbn [negb andb].
  - intros H. injection H as <- <- _. left. auto.
  - destruct (target_room r) as [room|] eqn:Hroom; [|discriminate].
    destruct (target_door r) as [door|]; [|discriminate].
    intros H. injection H as <- <- _. right. left. cbn. repeat split; lia.
  - destruct (target_room r) as [room|] eqn:Hroom.
    + destruct ((0 <? unabled (occupants_of w room))%Z && negb (is_empty exits)).
      * destruct (_unabled_evac_time hypot (unabled (occupants_of w room))
                    (position r) exits s) as [extra final].
        intros H. injection H as <- <- _. right. left. cbn. repeat split; lia.
      * intros H. injection H as <- <- _. right. right. right.
        cbn. repeat split. exists room. auto.
    + intros H. injection H as <- <- _. right. right. left. cbn. auto.
  - destruct (target_room r) as [room|] eqn:Hroom.
    + intros H. injection H as <- <- _. right. right. right.
      cbn. repeat split. exists room. auto.
    + intros H. injection H as <- <- _. right. right. left. cbn. auto.
Qed.

Lemma due_rank (r : ResponderState) : due r = true -> (1 <= rank r)%nat.
Proof.
  unfold due, is_active, rank. intros H. apply andb_true_iff in H.
  destruct H as [_ H]. destruct (state r); [discriminate|lia..].
Qed.

Lemma due_active (r : ResponderState) : due r = true -> is_active r = true.
Proof. unfold due. intros H. apply andb_true_iff in H. tauto. Qed.

Lemma idle_rank (r : ResponderState) : state r = idle -> rank r = 0%nat.
Proof. unfold rank. intros ->. reflexivity. Qed.

Lemma idle_not_taken (r : ResponderState) :
  state r = idle -> already_taken [r] = [].
Proof. unfold already_taken, is_active. cbn. intros ->. reflexivity. Qed.

Section Measure.

(** [N] bounds the pool and [n] the number of responders. *)
Variables N n : nat.

(** One turn of the processing loop does not increase the measure, and
    decreases it when the responder is due.  [T] and [k] stand for the
    targets and the ranks of the responders already processed in this pass,
    [p] for their number. *)
Lemma process_one_measure (exits : list ExitNode) (s : Q) (r : ResponderState)
    (rest : list ResponderState) (remaining : list ref) (w : World)
    (r' : ResponderState) (remaining' : list ref) (w' : World)
    (T : list ref) (k p : nat) :
  process_one hypot exits s r remaining w = Ok (r', remaining') w' ->
  (List.length remaining <= N)%nat ->
  (k <= 3 * p)%nat -> (p + S (List.length rest) <= n)%nat ->
  (List.length remaining' <= List.length remaining)%nat
  /\ (List.length remaining' * S (4 * N + 3 * n)
      + 4 * unclaimed remaining' ((T ++ already_taken [r']) ++ already_taken rest)
      + (k + rank r') + rank_sum rest
      + (if due r then 1 else 0)
      <= List.length remaining * S (4 * N + 3 * n)
         + 4 * unclaimed remaining ((T ++ already_taken [r]) ++ already_taken rest)
         + k + (rank r + rank_sum rest))%nat.
Proof.
  intros Hp HN Hk Hn.
  destruct (process_one_cases _ _ _ _ _ _ _ _ Hp)
    as [(Hd & -> & ->)
       |[(Hd & Hact & Htgt & Hrank & ->)
        |[(Hd & Hidle & Hnone & ->)
         |(Hd & Hidle & a & Hsome & ->)]]]; rewrite Hd.
  - split; lia.
  - assert (Ht : already_taken [r'] = already_taken [r]).
    { unfold already_taken. cbn [flat_map].
      rewrite Hact, (due_active r Hd), Htgt. reflexivity. }
    rewrite Ht. split; lia.
  - assert (Ht : already_taken [r] = []).
    { unfold already_taken. cbn [flat_map]. rewrite Hnone.
      destruct (is_active r); reflexivity. }
    rewrite Ht, (idle_not_taken r' Hidle), (idle_rank r' Hidle).
    pose proof (due_rank r Hd). split; lia.
  - assert (Ht : already_taken [r] = [a]).
    { unfold already_taken. cbn [flat_map].
      rewrite (due_active r Hd), Hsome. reflexivity. }
    rewrite Ht, (idle_not_taken r' Hidle), (idle_rank r' Hidle).
    pose proof (due_rank r Hd) as Hr1.
    unfold remove_if_in. destruct (py_in w a remaining) eqn:Hin.
    + pose proof (py_remove_length w a remaining Hin) as Hlen.
      pose proof (unclaimed_le (py_remove w a remaining)
                    ((T ++ []) ++ already_taken rest)) as Hu.
      pose proof (rank_sum_le rest) as Hrs.
      split; [lia|].
      rewrite <- Hlen. cbn [Nat.mul]. lia.
    + apply py_in_false_not_in in Hin.
      assert (Hu : (unclaimed remaining ((T ++ []) ++ already_taken rest)
                    <= unclaimed remaining ((T ++ [a]) ++ already_taken rest))%nat).
      { apply unclaimed_mono. intros x Hx Hx'.
        rewrite app_nil_r.
        apply in_app_or in Hx'. destruct Hx' as [Hx'|Hx'].
        - apply in_app_or in Hx'. destruct Hx' as [Hx'|[<-|[]]].
          + apply in_or_app. left. exact Hx'.
          + contradiction.
        - apply in_or_app. right. exact Hx'. }
      split; lia.
Qed.

Lemma process_all_measure (exits : list ExitNode) (s : Q)
    (rs : list ResponderState) :
  forall (remaining : list ref) (w : World)
         (rs' : list ResponderState) (remaining' : list ref) (w' : World)
         (T : list ref) (k p : nat),
    process_all hypot exits s rs remaining w = Ok (rs', remaining') w' ->
    (List.length remaining <= N)%nat ->
    (k <= 3 * p)%nat -> (p + List.length rs <= n)%nat ->
    (List.length remaining' * S (4 * N + 3 * n)
     + 4 * unclaimed remaining' (T ++ already_taken rs')
     + k + rank_sum rs'
     + (if existsb due rs then 1 else 0)
     <= List.length remaining * S (4 * N + 3 * n)
        + 4 * unclaimed remaining (T ++ already_taken rs)
        + k + rank_sum rs)%nat.
Proof.
  induction rs as [|r rest IH];
    intros remaining w rs' remaining' w' T k p H HN Hk Hn.
  - cbn in H. injection H as <- <- _. cbn [existsb]. lia.
  - cbn [process_all] in H. unfold bind in H.
    destruct (process_one hypot exits s r remaining w)
      as [[r1 rem1] w1| |] eqn:E1; try discriminate.
    destruct (process_all hypot exits s rest rem1 w1)
      as [[rest1 rem2] w2| |] eqn:E2; try discriminate.
    cbn in H. injection H as <- <- _.
    cbn [List.length] in Hn.
    destruct (process_one_measure exits s r rest remaining w r1 rem1 w1 T k p
                E1 HN Hk Hn) as [Hlen Hstep].
    pose proof (rank_le_3 r1) as Hr1.
    pose proof (IH rem1 w1 rest1 rem2 w2 (T ++ already_taken [r1])
                  (k + rank r1)%nat (S p) E2 ltac:(lia) ltac:(lia) ltac:(lia))
      as Hrest.
    rewrite (already_taken_head r1 rest1), (already_taken_head r rest).
    rewrite !app_assoc, !rank_sum_cons.
    cbn [existsb].
    destruct (due r), (existsb due rest); cbn [orb]; lia.
Qed.

(** The assignment loop does not increase the measure: sending a responder
    to a room costs three ranks and claims at least one entry of the pool. *)
Lemma assign_idle_measure (w : World) (s : Q) (remaining : list ref)
    (rs : list ResponderState) :
  forall (av T : list ref),
    (forall a, In a av ->
       In a remaining /\ ~ In a T /\ ~ In a (already_taken rs)) ->
    (4 * unclaimed remaining (T ++ already_taken (fst (assign_idle hypot w s rs av)))
     + rank_sum (fst (assign_idle hypot w s rs av))
     <= 4 * unclaimed remaining (T ++ already_taken rs) + rank_sum rs)%nat.
Proof.
  induction rs as [|r rest IH]; intros av T Hav; [cbn; lia|].
  rewrite assign_idle_cons. cbn [fst snd].
  destruct (assign_one_cases hypot w s r av)
    as [Hsame|(Hidle & room & door & t & Hin & Heq)].
  - rewrite Hsame. cbn [fst snd].
    rewrite (already_taken_head r _), (already_taken_head r rest).
    rewrite !app_assoc, !rank_sum_cons.
    assert (IH' := IH av (T ++ already_taken [r])).
    rewrite <- !app_assoc in *.
    enough ((4 * unclaimed remaining
                   (T ++ already_taken [r]
                      ++ already_taken (fst (assign_idle hypot w s rest av)))
             + rank_sum (fst (assign_idle hypot w s rest av))
             <= 4 * unclaimed remaining (T ++ already_taken [r] ++ already_taken rest)
                + rank_sum rest)%nat) by lia.
    apply IH'. intros a Ha. destruct (Hav a Ha) as (H1 & H2 & H3).
    rewrite already_taken_head in H3.
    split; [exact H1|]. split.
    + intros Hc. apply in_app_or in Hc. destruct Hc as [Hc|Hc];
        [contradiction|]. apply H3. apply in_or_app. left. exact Hc.
    + intros Hc. apply H3. apply in_or_app. right. exact Hc.
  - rewrite Heq. cbn [fst snd].
    set (av1 := filter (fun rm => negb (Nat.eqb rm room)) av).
    set (r1 := mkResponderState moving t (position r) (Some room) (Some door)).
    rewrite (already_taken_head r1 _), (already_taken_head r rest).
    rewrite (idle_not_taken r Hidle), !rank_sum_cons, (idle_rank r Hidle).
    change (already_taken [r1]) with [room]. change (rank r1) with 3%nat.
    cbn [app].
    destruct (Hav room Hin) as (Hrem & HnT & Hnt).
    rewrite already_taken_head, (idle_not_taken r Hidle) in Hnt. cbn [app] in Hnt.
    assert (IH' := IH av1 (T ++ [room])).
    rewrite <- !app_assoc in IH'. cbn [app] in IH'.
    assert (Hclaim : (S (unclaimed remaining (T ++ room :: already_taken rest))
                      <= unclaimed remaining (T ++ already_taken rest))%nat).
    { apply (unclaimed_claim remaining _ _ room Hrem).
      - intros Hc. apply in_app_or in Hc. tauto.
      - apply in_or_app. right. left. reflexivity.
      - intros x _ Hx. apply in_app_or in Hx. apply in_or_app.
        destruct Hx as [Hx|Hx]; [left; exact Hx|right; right; exact Hx]. }
    enough ((4 * unclaimed remaining
                   (T ++ room :: already_taken (fst (assign_idle hypot w s rest av1)))
             + rank_sum (fst (assign_idle hypot w s rest av1))
             <= 4 * unclaimed remaining (T ++ room :: already_taken rest)
                + rank_sum rest)%nat) by lia.
    apply IH'. intros a Ha. unfold av1 in Ha. apply filter_In in Ha.
    destruct Ha as [Ha Hneq]. apply negb_true_iff, Nat.eqb_neq in Hneq.
    destruct (Hav a Ha) as (H1 & H2 & H3).
    rewrite already_taken_head, (idle_not_taken r Hidle) in H3. cbn [app] in H3.
    split; [exact H1|]. split; [|exact H3].
    intros Hc. apply in_app_or in Hc. destruct Hc as [Hc|[Hc|[]]];
      [contradiction|congruence].
Qed.

End Measure.

End Termination.

Lemma advance_keeps_taken (dt : Q) (rs : list ResponderState) :
  already_taken
    (map (fun r => if is_active r
                   then mkResponderState (state r) (time_remaining r - dt)
                          (position r) (target_room r) (target_door r)
                   else r) rs)
  = already_taken rs
  /\ rank_sum
       (map (fun r => if is_active r
                      then mkResponderState (state r) (time_remaining r - dt)
                             (position r) (target_room r) (target_door r)
                      else r) rs)
     = rank_sum rs.
Proof.
  induction rs as [|r rs [IH1 IH2]]; [split; reflexivity|].
  cbn [map]. rewrite !already_taken_cons, !rank_sum_cons, IH1, IH2.
  destruct (is_active r) eqn:E; [|rewrite E; split; reflexivity].
  unfold is_active, rank in *. cbn [state target_room]. rewrite E.
  split; reflexivity.
Qed.

(** After the time advance the responder with the smallest countdown is
    due. *)
Lemma somebody_due (rs : list ResponderState) (t : Q) (ts : list Q) :
  map time_remaining (filter is_active rs) = t :: ts ->
  existsb due
    (map (fun r => if is_active r
                   then mkResponderState (state r)
                          (time_remaining r - py_min t ts)
                          (position r) (target_room r) (target_door r)
                   else r) rs)
  = true.
Proof.
  intros Ht. pose proof (py_min_in ts t) as Hin. rewrite <- Ht in Hin.
  apply in_map_iff in Hin. destruct Hin as (r & Hr & Hin).
  apply filter_In in Hin. destruct Hin as [Hin Hact].
  apply existsb_exists.
  exists (mkResponderState (state r) (time_remaining r - py_min t ts)
            (position r) (target_room r) (target_door r)).
  split.
  - apply in_map_iff. exists r. rewrite Hact. split; [reflexivity|exact Hin].
  - unfold due. cbn [time_remaining]. rewrite Hr, elapsed_own_time.
    unfold is_active in *. cbn [state negb andb]. exact Hact.
Qed.

Lemma process_all_not_out_of_fuel (hypot : Q -> Q -> Q) (exits : list ExitNode)
    (s : Q) (rs : list ResponderState) :
  forall (remaining : list ref) (w : World),
    process_all hypot exits s rs remaining w <> OutOfFuel.
Proof.
  induction rs as [|r rest IH]; intros remaining w; [discriminate|].
  cbn [process_all]. unfold bind.
  destruct (process_one hypot exits s r remaining w) as [[r1 rem1] w1| |] eqn:E.
  - specialize (IH rem1 w1).
    destruct (process_all hypot exits s rest rem1 w1) as [[rest1 rem2] w2| |];
      [discriminate|discriminate|congruence].
  - discriminate.
  - unfold process_one in E.
    destruct (Qlt_bool eps (time_remaining r)); [discriminate|].
    destruct (state r); try discriminate.
    + destruct (target_room r), (target_door r); discriminate.
    + destruct (target_room r); [|discriminate].
      destruct (_ && _); [|discriminate].
      destruct (_unabled_evac_time _ _ _ _ _); discriminate.
Qed.

Section Terminates.

Variable hypot : Q -> Q -> Q.
Variables (n_responders : Z) (rooms0 : list ref) (exits0 : list ExitNode).
Variables (speed : Q) (start_position : Point) (w0 : World).

Local Abbreviation head :=
  (at_loop_head hypot n_responders rooms0 exits0 speed start_position w0).
Local Abbreviation mu :=
  (pass_measure (List.length rooms0) (Z.to_nat n_responders)).

(** At a loop head a pass always completes: it breaks or reaches the end
    of the body. *)
Lemma loop_body_completes (f : Frame) (w : World) :
  head f w -> exists e w', loop_body hypot f w = Ok e w'.
Proof.
  intros Hh. pose proof (loop_body_no_raise hypot _ _ _ _ _ _ f w Hh) as Hnr.
  destruct (loop_body hypot f w) as [e w'|e w'|] eqn:Hb.
  - exists e, w'. reflexivity.
  - destruct Hnr.
  - exfalso. unfold loop_body in Hb.
    destruct (map time_remaining
                (filter is_active (responders (assign_phase hypot w f))));
      [discriminate|].
    unfold bind, process_phase, bind in Hb.
    match type of Hb with
    | context [process_all ?h ?e ?s ?rs ?rem ?w] =>
        pose proof (process_all_not_out_of_fuel h e s rs rem w) as Hp;
        destruct (process_all h e s rs rem w) as [[rs' rem'] w1| |]
    end; [discriminate|discriminate|congruence].
Qed.

(** A pass that reaches the end of the body decreases the measure. *)
Lemma pass_decreases (f : Frame) (w : World) (f' : Frame) (w' : World) :
  head f w ->
  loop_body hypot f w = Ok (Continue f') w' ->
  (S (mu f') <= mu f)%nat.
Proof.
  intros Hh Hb.
  destruct (at_loop_head_shape hypot _ _ _ _ _ _ f w Hh)
    as (_ & _ & _ & Hlen & _ & Hle).
  destruct (loop_body_continue hypot f w f' w' Hb)
    as (t & ts & rs' & rem' & Ht & Hp & ->).
  unfold pass_measure. cbn [remaining_rooms responders].
  cbn [advance_phase assign_phase responders] in Hp, Ht.
  set (rs1 := fst (assign_idle hypot w (responder_speed f) (responders f)
                     (available_rooms w (remaining_rooms f) (responders f)))) in *.
  pose proof (process_all_measure hypot (List.length rooms0)
                (Z.to_nat n_responders) _ _ _ _ _ _ _ _ [] 0%nat 0%nat Hp Hle
                ltac:(lia)) as Hm.
  rewrite (somebody_due rs1 t ts Ht) in Hm.
  destruct (advance_keeps_taken (py_min t ts) rs1) as [Htk Hrk].
  rewrite Htk, Hrk in Hm. cbn [app] in Hm.
  rewrite length_map in Hm. unfold rs1 in Hm at 1.
  rewrite assign_idle_length in Hm. specialize (Hm ltac:(lia)).
  pose proof (assign_idle_measure hypot w (responder_speed f)
                (remaining_rooms f) (responders f)
                (available_rooms w (remaining_rooms f) (responders f)) []) as Ha.
  cbn [app] in Ha. fold rs1 in Ha.
  assert (Ha' := Ha ltac:(intros a Hin; apply available_not_taken in Hin;
                           destruct Hin; repeat split; auto)).
  lia.
Qed.

Lemma while_loop_terminates (m : nat) :
  forall (f : Frame) (w : World),
    head f w -> (mu f <= m)%nat ->
    exists f' w', while_loop hypot (S m) f w = Ok f' w'.
Proof.
  induction m as [|m IH]; intros f w Hh Hmu; cbn [while_loop].
  - destruct (loop_cond f) eqn:Hc; [|eexists; eexists; reflexivity].
    unfold bind. destruct (loop_body_completes f w Hh) as ([fb|fc] & w1 & Hb);
      rewrite Hb; [eexists; eexists; reflexivity|].
    pose proof (pass_decreases f w fc w1 Hh Hb). lia.
  - destruct (loop_cond f) eqn:Hc; [|eexists; eexists; reflexivity].
    unfold bind. destruct (loop_body_completes f w Hh) as ([fb|fc] & w1 & Hb);
      rewrite Hb; [eexists; eexists; reflexivity|].
    pose proof (pass_decreases f w fc w1 Hh Hb).
    apply IH; [|lia].
    exact (head_next hypot n_responders rooms0 exits0 speed start_position
             w0 f w fc w1 Hh Hc Hb).
Qed.

Lemma initial_measure :
  (S (mu (initial_frame n_responders rooms0 exits0 speed start_position))
   <= enough_passes (List.length rooms0) (Z.to_nat n_responders))%nat.
Proof.
  unfold pass_measure, enough_passes, initial_frame.
  cbn [remaining_rooms responders].
  pose proof (unclaimed_le rooms0
                (already_taken (initial_responders n_responders start_position))).
  assert (Hr : rank_sum (initial_responders n_responders start_position) = 0%nat).
  { unfold initial_responders. induction (Z.to_nat n_responders); [reflexivity|].
    cbn [repeat]. rewrite rank_sum_cons. exact IHn. }
  rewrite Hr. lia.
Qed.

(** X11: with a positive speed the simulation terminates: a call that is
    allowed [enough_passes] passes (computed from the number of rooms and of
    responders) or more returns a time, for every store, room list, exit
    list and start position. *)
Theorem simulation_terminates :
  forall fuel : nat,
    0 < speed ->
    (enough_passes (List.length rooms0) (Z.to_nat n_responders) <= fuel)%nat ->
    exists t w',
      find_fastest_evacuation hypot fuel n_responders rooms0 exits0 speed
        start_position w0 = Ok t w'.
Proof.
  intros fuel Hs Hfuel.
  pose proof (speed_guard_passed speed Hs) as Hg.
  pose proof initial_measure as Hinit.
  destruct (while_loop_terminates
              (mu (initial_frame n_responders rooms0 exits0 speed start_position))
              _ w0 (head_start hypot n_responders rooms0 exits0 speed
                      start_position w0 Hg) (Nat.le_refl _))
    as (f' & w' & Hrun).
  apply (while_loop_more_fuel hypot _ fuel) in Hrun; [|lia].
  exists (current_time f'), w'.
  unfold find_fastest_evacuation, bind, simulate. rewrite Hg, Hrun. reflexivity.
Qed.

End Terminates.

(* ------------------------------------------------------------------ *)
(** ** Every unabled occupant is accounted for *)

Lemma nonpos_stays (w w' : World) (a : ref) :
  only_unabled_zeroed w w' ->
  (unabled (occupants_of w a) <= 0)%Z -> (unabled (occupants_of w' a) <= 0)%Z.
Proof.
  intros [Hr Ho] H. unfold occupants_of in *. rewrite Hr.
  destruct (Ho (occupants (room_at w a))) as (_ & _ & [Hu|Hu]); lia.
Qed.

Lemma same_room_unabled (w : World) (x a : ref) :
  same_room w x a = true ->
  unabled (occupants_of w x) = unabled (occupants_of w a).
Proof.
  unfold same_room. intros H. apply orb_true_iff in H. destruct H as [H|H].
  - apply Nat.eqb_eq in H. subst. reflexivity.
  - unfold RoomNode_eqb in H. rewrite !andb_true_iff in H.
    destruct H as ((((_ & _) & Hocc) & _) & _).
    unfold OccupantInfo_eqb in Hocc. rewrite !andb_true_iff in Hocc.
    destruct Hocc as (_ & Hu). apply Z.eqb_eq in Hu. exact Hu.
Qed.

Lemma set_unabled_zero_read (w : World) (room : ref) :
  unabled (occupants_of (set_unabled_zero w room) room) = 0%Z.
Proof.
  unfold occupants_of, set_unabled_zero. cbn. rewrite Nat.eqb_refl. reflexivity.
Qed.

Section Accounted.

Variable hypot : Q -> Q -> Q.
Variable rooms0 : list ref.

(** The pool part and the responder part of [unabled_accounted]. *)
Local Abbreviation pool_ok remaining w :=
  (forall room, In room rooms0 ->
     In room remaining \/ (unabled (occupants_of w room) <= 0)%Z).
Local Abbreviation evac_ok w r :=
  (state r = evacuating_unabled ->
   exists a, target_room r = Some a /\ (unabled (occupants_of w a) <= 0)%Z).

Lemma remove_if_in_pool (w : World) (a : ref) (remaining : list ref) :
  (unabled (occupants_of w a) <= 0)%Z ->
  pool_ok remaining w -> pool_ok (remove_if_in w a remaining) w.
Proof.
  intros Ha Hpool room Hroom. unfold remove_if_in.
  destruct (py_in w a remaining); [|exact (Hpool room Hroom)].
  destruct (Hpool room Hroom) as [Hin|Hz]; [|right; exact Hz].
  destruct (py_remove_kept w a remaining room Hin) as [H|H]; [left; exact H|].
  right. rewrite (same_room_unabled w room a H). exact Ha.
Qed.

Lemma process_one_accounted (exits : list ExitNode) (s : Q) (r : ResponderState)
    (remaining : list ref) (w : World)
    (r' : ResponderState) (remaining' : list ref) (w' : World) :
  exits <> [] ->
  process_one hypot exits s r remaining w = Ok (r', remaining') w' ->
  pool_ok remaining w -> evac_ok w r ->
  pool_ok remaining' w' /\ evac_ok w' r'.
Proof.
  intros Hex Hp Hpool Hev.
  pose proof (process_one_frame hypot exits s r remaining w w') as Hfr.
  rewrite Hp in Hfr. specialize (Hfr eq_refl).
  assert (Hlift : forall rem, pool_ok rem w -> pool_ok rem w').
  { intros rem H room Hroom. destruct (H room Hroom) as [Hin|Hz];
      [left; exact Hin|right; exact (nonpos_stays w w' room Hfr Hz)]. }
  unfold process_one in Hp.
  destruct (Qlt_bool eps (time_remaining r)).
  { injection Hp as <- <- <-. split; assumption. }
  destruct (state r) eqn:Hst.
  - injection Hp as <- <- <-. split; [assumption|]. rewrite Hst. discriminate.
  - destruct (target_room r) as [room|]; [|discriminate].
    destruct (target_door r) as [door|]; [|discriminate].
    injection Hp as <- <- _. split; [apply Hlift; exact Hpool|].
    cbn. discriminate.
  - destruct (target_room r) as [room|] eqn:Hroom.
    + destruct ((0 <? unabled (occupants_of w room))%Z) eqn:Hu.
      * replace (negb (is_empty exits)) with true in Hp
          by (destruct exits; [congruence|reflexivity]).
        cbn [andb] in Hp.
        destruct (_unabled_evac_time hypot (unabled (occupants_of w room))
                    (position r) exits s) as [extra final].
        injection Hp as <- <- <-. split; [apply Hlift; exact Hpool|].
        cbn [state target_room]. intros _. exists room. split; [reflexivity|].
        rewrite set_unabled_zero_read. lia.
      * cbn [andb] in Hp. injection Hp as <- <- <-.
        apply Z.ltb_ge in Hu.
        split; [apply remove_if_in_pool; assumption|]. cbn. discriminate.
    + injection Hp as <- <- <-. split; [assumption|]. cbn. discriminate.
  - destruct (Hev eq_refl) as (a & Ha & Hz). rewrite Ha in Hp.
    injection Hp as <- <- <-.
    split; [apply remove_if_in_pool; assumption|]. cbn. discriminate.
Qed.

Lemma process_all_accounted (exits : list ExitNode) (s : Q)
    (rs : list ResponderState) :
  forall (remaining : list ref) (w : World)
         (rs' : list ResponderState) (remaining' : list ref) (w' : World),
    exits <> [] ->
    process_all hypot exits s rs remaining w = Ok (rs', remaining') w' ->
    pool_ok remaining w -> Forall (fun r => evac_ok w r) rs ->
    pool_ok remaining' w' /\ Forall (fun r => evac_ok w' r) rs'.
Proof.
  induction rs as [|r rest IH];
    intros remaining w rs' remaining' w' Hex H Hpool Hall.
  - cbn in H. injection H as <- <- <-. split; [assumption|constructor].
  - cbn [process_all] in H. unfold bind in H.
    destruct (process_one hypot exits s r remaining w)
      as [[r1 rem1] w1| |] eqn:E1; try discriminate.
    destruct (process_all hypot exits s rest rem1 w1)
      as [[rest1 rem2] w2| |] eqn:E2; try discriminate.
    cbn in H. injection H as <- <- <-.
    inversion Hall as [|? ? Hr Hrest]; subst.
    destruct (process_one_accounted exits s r remaining w r1 rem1 w1 Hex E1
                Hpool Hr) as [Hpool1 Hr1].
    pose proof (process_one_frame hypot exits s r remaining w w1) as Hfr1.
    rewrite E1 in Hfr1. specialize (Hfr1 eq_refl).
    pose proof (process_all_frame hypot exits s rest rem1 w1 w2) as Hfr2.
    rewrite E2 in Hfr2. specialize (Hfr2 eq_refl).
    assert (Hrest1 : Forall (fun r => evac_ok w1 r) rest).
    { rewrite Forall_forall in *. intros x Hx Hst.
      destruct (Hrest x Hx Hst) as (a & Ha & Hz).
      exists a. split; [exact Ha|exact (nonpos_stays w w1 a Hfr1 Hz)]. }
    destruct (IH rem1 w1 rest1 rem2 w2 Hex E2 Hpool1 Hrest1) as [Hpool2 Hall2].
    split; [exact Hpool2|]. constructor; [|exact Hall2].
    intros Hst. destruct (Hr1 Hst) as (a & Ha & Hz).
    exists a. split; [exact Ha|exact (nonpos_stays w1 w2 a Hfr2 Hz)].
Qed.

Lemma assign_idle_accounted (w : World) (s : Q) (rs : list ResponderState) :
  forall av,
    Forall (fun r => evac_ok w r) rs ->
    Forall (fun r => evac_ok w r) (fst (assign_idle hypot w s rs av)).
Proof.
  induction rs as [|r rest IH]; intros av Hall; [constructor|].
  inversion Hall as [|? ? Hr Hrest]; subst.
  rewrite assign_idle_cons. cbn [fst]. constructor; [|apply IH; exact Hrest].
  destruct (assign_one_cases hypot w s r av) as [->|(_ & room & door & t & _ & ->)];
    [exact Hr|]. cbn. discriminate.
Qed.

Lemma advance_accounted (w : World) (dt : Q) (rs : list ResponderState) :
  Forall (fun r => evac_ok w r) rs ->
  Forall (fun r => evac_ok w r)
    (map (fun r => if is_active r
                   then mkResponderState (state r) (time_remaining r - dt)
                          (position r) (target_room r) (target_door r)
                   else r) rs).
Proof.
  intros Hall. apply Forall_map. eapply Forall_impl; [|exact Hall].
  intros r Hr. destruct (is_active r); exact Hr.
Qed.

Variables (n_responders : Z) (exits0 : list ExitNode).
Variables (speed : Q) (start_position : Point) (w0 : World).

Local Abbreviation head :=
  (at_loop_head hypot n_responders rooms0 exits0 speed start_position w0).

Lemma at_loop_head_accounted (f : Frame) (w : World) :
  exits0 <> [] -> head f w ->
  unabled_accounted rooms0 f w /\ only_unabled_zeroed w0 w.
Proof.
  intros Hex. induction 1 as [Hs|f w f' w' Hhead IH Hcond Hbody].
  - split; [|apply only_unabled_zeroed_refl]. split.
    + intros room Hroom. left. exact Hroom.
    + intros r Hr Hst. unfold initial_frame, initial_responders in Hr.
      cbn [responders] in Hr. apply repeat_spec in Hr. subst r. discriminate.
  - destruct IH as [[Hpool Hev] Hw].
    destruct (at_loop_head_shape hypot _ _ _ _ _ _ f w Hhead)
      as (_ & He & _).
    pose proof (loop_body_frame hypot f w w') as Hfr.
    rewrite Hbody in Hfr. destruct (Hfr eq_refl) as [Hfr' _].
    destruct (loop_body_continue hypot f w f' w' Hbody)
      as (t & ts & rs' & rem' & _ & Hp & ->).
    rewrite He in Hp.
    destruct (process_all_accounted exits0 _ _ _ _ _ _ _ Hex Hp Hpool)
      as [Hpool' Hev'].
    { cbn [advance_phase assign_phase responders].
      apply advance_accounted. apply assign_idle_accounted.
      apply Forall_forall. exact Hev. }
    split; [|exact (only_unabled_zeroed_trans _ _ _ Hw Hfr')]. split.
    + exact Hpool'.
    + cbn [responders]. rewrite Forall_forall in Hev'. exact Hev'.
Qed.

End Accounted.

(* ------------------------------------------------------------------ *)
(** ** Simulation time never runs backwards *)

Lemma py_min_le (l : list Q) :
  forall x y, In y (x :: l) -> py_min x l <= y.
Proof.
  unfold py_min. induction l as [|a l IH]; intros x y Hy.
  - destruct Hy as [<-|[]]. apply Qle_refl.
  - cbn [fold_left].
    set (m := if Qlt_bool a x then a else x).
    assert (Hm : m <= x /\ m <= a).
    { unfold m. destruct (Qlt_bool a x) eqn:E.
      - apply Qlt_bool_true in E. split; [apply Qlt_le_weak; exact E|apply Qle_refl].
      - apply Qlt_bool_false in E. split; [apply Qle_refl|exact E]. }
    destruct Hm as [Hx Ha].
    destruct Hy as [<-|[<-|Hy]].
    + apply Qle_trans with m; [apply IH; left; reflexivity|exact Hx].
    + apply Qle_trans with m; [apply IH; left; reflexivity|exact Ha].
    + apply IH. right. exact Hy.
Qed.

Lemma clearance_time_nonneg (w : World) (room : ref) :
  0 <= base_clear_time (room_at w room) ->
  (0 <= children (occupants_of w room))%Z ->
  (0 <= clearance_time w room)%Z.
Proof.
  intros Hb Hc. unfold clearance_time.
  change 0%Z with (Qceiling 0). apply Qceiling_resp_le.
  assert (0 <= inject_Z (5 * children (occupants_of w room)))
    by (change 0 with (inject_Z 0); rewrite <- Zle_Qle; lia).
  lra.
Qed.

Lemma clearance_time_stable (w w' : World) (room : ref) :
  only_unabled_zeroed w w' -> clearance_time w' room = clearance_time w room.
Proof.
  intros [Hr Ho]. unfold clearance_time, occupants_of. rewrite Hr.
  destruct (Ho (occupants (room_at w room))) as (_ & -> & _). reflexivity.
Qed.

Section TimeForward.

Variable hypot : Q -> Q -> Q.
Variables (n_responders : Z) (rooms0 : list ref) (exits0 : list ExitNode).
Variables (speed : Q) (start_position : Point) (w0 : World).

Hypothesis hypot_nonneg : forall x y, 0 <= hypot x y.
Hypothesis speed_pos : 0 < speed.
Hypothesis rooms_nonneg :
  forall room, In room rooms0 ->
    0 <= base_clear_time (room_at w0 room)
    /\ (0 <= children (occupants_of w0 room))%Z.

Local Abbreviation head :=
  (at_loop_head hypot n_responders rooms0 exits0 speed start_position w0).

(** A countdown is not negative, and a moving responder is on its way to
    a room of the caller's list. *)
Local Abbreviation time_ok r :=
  (0 <= time_remaining r
   /\ (state r = moving -> exists a, target_room r = Some a /\ In a rooms0)).

Lemma assign_one_time_ok (w : World) (r : ResponderState) (av : list ref) :
  (forall a, In a av -> In a rooms0) ->
  time_ok r -> time_ok (fst (assign_one hypot w speed r av)).
Proof.
  intros Hav Hr.
  assert (Hcase : assign_one hypot w speed r av = (r, av)
                  \/ (state r = idle /\ av <> [])).
  { unfold assign_one. destruct (state r); try (left; reflexivity).
    destruct av; [left; reflexivity|right; split; [reflexivity|discriminate]]. }
  destruct Hcase as [->|[Hst Hne]]; [exact Hr|].
  destruct (choose_nearest_room_some hypot w r av speed Hne)
    as (k & room & door & (Hk & _) & Heq).
  unfold assign_one. rewrite Hst. destruct av as [|a0 av0] eqn:E; [congruence|].
  rewrite <- E in *. rewrite Heq. cbn [fst time_remaining state target_room].
  pose proof speed_pos as Hsp. apply Qlt_bool_true in Hsp. rewrite Hsp. split.
  - apply Qle_shift_div_l; [exact speed_pos|].
    rewrite Qmult_0_l. apply hypot_nonneg.
  - intros _. exists room. split; [reflexivity|]. apply Hav.
    apply nth_error_In in Hk.
    exact (candidates_room_in w av (room, door) Hk).
Qed.

Lemma assign_one_available (w : World) (r : ResponderState) (av : list ref) :
  forall a, In a (snd (assign_one hypot w speed r av)) -> In a av.
Proof.
  intros a. destruct (assign_one_cases hypot w speed r av)
    as [->|(_ & room & door & t & _ & ->)]; cbn [snd]; [auto|].
  intros H. apply filter_In in H. tauto.
Qed.

Lemma assign_idle_time_ok (w : World) (rs : list ResponderState) :
  forall av,
    (forall a, In a av -> In a rooms0) ->
    Forall (fun r => time_ok r) rs ->
    Forall (fun r => time_ok r) (fst (assign_idle hypot w speed rs av)).
Proof.
  induction rs as [|r rest IH]; intros av Hav Hall; [constructor|].
  inversion Hall as [|? ? Hr Hrest]; subst.
  rewrite assign_idle_cons. cbn [fst]. constructor.
  - apply assign_one_time_ok; assumption.
  - apply IH; [|exact Hrest].
    intros a Ha. apply Hav. exact (assign_one_available w r av a Ha).
Qed.

Lemma advance_time_ok (rs : list ResponderState) (t : Q) (ts : list Q) :
  map time_remaining (filter is_active rs) = t :: ts ->
  Forall (fun r => time_ok r) rs ->
  Forall (fun r => time_ok r)
    (map (fun r => if is_active r
                   then mkResponderState (state r)
                          (time_remaining r - py_min t ts)
                          (position r) (target_room r) (target_door r)
                   else r) rs).
Proof.
  intros Ht Hall. apply Forall_map. rewrite Forall_forall in *.
  intros r Hr. destruct (is_active r) eqn:Hact; [|exact (Hall r Hr)].
  destruct (Hall r Hr) as [_ Hmov]. cbn [time_remaining state target_room].
  split; [|exact Hmov].
  assert (Hle : py_min t ts <= time_remaining r).
  { apply py_min_le. rewrite <- Ht. apply in_map. apply filter_In. auto. }
  lra.
Qed.

Lemma process_one_time_ok (r : ResponderState) (remaining : list ref) (w : World)
    (r' : ResponderState) (remaining' : list ref) (w' : World) :
  only_unabled_zeroed w0 w ->
  process_one hypot exits0 speed r remaining w = Ok (r', remaining') w' ->
  time_ok r -> time_ok r'.
Proof.
  intros Hw Hp [Ht Hmov]. unfold process_one in Hp.
  destruct (Qlt_bool eps (time_remaining r)).
  { injection Hp as <- _ _. split; assumption. }
  destruct (state r) eqn:Hst.
  - injection Hp as <- _ _. rewrite Hst. split; [exact Ht|discriminate].
  - destruct (Hmov eq_refl) as (a & Ha & Hin). rewrite Ha in Hp.
    destruct (target_door r) as [door|]; [|discriminate].
    injection Hp as <- _ _. cbn [time_remaining state].
    split; [|discriminate].
    change 0 with (inject_Z 0). rewrite <- Zle_Qle.
    rewrite (clearance_time_stable w0 _ a
               (only_unabled_zeroed_trans _ _ _ Hw (print_frame _ w))).
    destruct (rooms_nonneg a Hin) as [Hb Hc].
    apply clearance_time_nonneg; assumption.
  - destruct (target_room r) as [room|].
    + destruct ((0 <? unabled (occupants_of w room))%Z && negb (is_empty exits0)).
      * pose proof (unabled_evac_time_nonneg hypot
                      (unabled (occupants_of w room)) (position r) exits0 speed
                      hypot_nonneg) as Hnn.
        destruct (_unabled_evac_time hypot (unabled (occupants_of w room))
                    (position r) exits0 speed) as [extra final].
        injection Hp as <- _ _. cbn [time_remaining state fst] in *.
        split; [exact Hnn|discriminate].
      * injection Hp as <- _ _. cbn. split; [apply Qle_refl|discriminate].
    + injection Hp as <- _ _. cbn. split; [exact Ht|discriminate].
  - injection Hp as <- _ _. cbn. split; [apply Qle_refl|discriminate].
Qed.

Lemma process_all_time_ok (rs : list ResponderState) :
  forall (remaining : list ref) (w : World)
         (rs' : list ResponderState) (remaining' : list ref) (w' : World),
    only_unabled_zeroed w0 w ->
    process_all hypot exits0 speed rs remaining w = Ok (rs', remaining') w' ->
    Forall (fun r => time_ok r) rs ->
    Forall (fun r => time_ok r) rs'.
Proof.
  induction rs as [|r rest IH]; intros remaining w rs' remaining' w' Hw H Hall.
  - cbn in H. injection H as <- _ _. constructor.
  - cbn [process_all] in H. unfold bind in H.
    destruct (process_one hypot exits0 speed r remaining w)
      as [[r1 rem1] w1| |] eqn:E1; try discriminate.
    destruct (process_all hypot exits0 speed rest rem1 w1)
      as [[rest1 rem2] w2| |] eqn:E2; try discriminate.
    cbn in H. injection H as <- _ _.
    inversion Hall as [|? ? Hr Hrest]; subst.
    pose proof (process_one_frame hypot exits0 speed r remaining w w1) as Hfr.
    rewrite E1 in Hfr. specialize (Hfr eq_refl).
    constructor.
    + exact (process_one_time_ok r remaining w r1 rem1 w1 Hw E1 Hr).
    + exact (IH rem1 w1 rest1 rem2 w2
               (only_unabled_zeroed_trans _ _ _ Hw Hfr) E2 Hrest).
Qed.

Lemma at_loop_head_world (f : Frame) (w : World) :
  head f w -> only_unabled_zeroed w0 w.
Proof.
  induction 1 as [Hs|f w f' w' Hhead IH Hcond Hbody].
  - apply only_unabled_zeroed_refl.
  - pose proof (loop_body_frame hypot f w w') as Hfr.
    rewrite Hbody in Hfr. destruct (Hfr eq_refl) as [Hfr' _].
    exact (only_unabled_zeroed_trans _ _ _ IH Hfr').
Qed.

(** What one full pass does to the clock and to the countdowns. *)
Lemma pass_time (f : Frame) (w : World) (f' : Frame) (w' : World) :
  head f w ->
  Forall (fun r => time_ok r) (responders f) ->
  loop_body hypot f w = Ok (Continue f') w' ->
  current_time f <= current_time f'
  /\ Forall (fun r => time_ok r) (responders f').
Proof.
  intros Hh Hall Hb.
  destruct (at_loop_head_shape hypot _ _ _ _ _ _ f w Hh)
    as (_ & He & Hsp & _ & Hin & _).
  destruct (loop_body_continue hypot f w f' w' Hb)
    as (t & ts & rs' & rem' & Ht & Hp & ->).
  cbn [current_time responders].
  cbn [assign_phase advance_phase responders] in Ht, Hp.
  rewrite He, Hsp in *.
  assert (H1 : Forall (fun r => time_ok r)
                 (fst (assign_idle hypot w speed (responders f)
                         (available_rooms w (remaining_rooms f) (responders f))))).
  { apply assign_idle_time_ok; [|exact Hall].
    intros a Ha. apply available_not_taken in Ha. apply Hin. tauto. }
  split.
  - assert (Hdt : 0 <= py_min t ts).
    { pose proof (py_min_in ts t) as Hmin. rewrite <- Ht in Hmin.
      apply in_map_iff in Hmin. destruct Hmin as (r & <- & Hr).
      apply filter_In in Hr. destruct Hr as [Hr _].
      rewrite Forall_forall in H1. exact (proj1 (H1 r Hr)). }
    lra.
  - apply (process_all_time_ok _ _ _ _ _ _ (at_loop_head_world f w Hh) Hp).
    apply advance_time_ok; assumption.
Qed.

Lemma at_loop_head_time_ok (f : Frame) (w : World) :
  head f w ->
  0 <= current_time f /\ Forall (fun r => time_ok r) (responders f).
Proof.
  induction 1 as [Hs|f w f' w' Hhead [IH1 IH2] Hcond Hbody].
  - split; [apply Qle_refl|]. cbn [initial_frame responders].
    apply Forall_forall. intros r Hr. unfold initial_responders in Hr.
    apply repeat_spec in Hr. subst r. cbn. split; [apply Qle_refl|discriminate].
  - destruct (pass_time f w f' w' Hhead IH2 Hbody) as [Hle Hall].
    split; [|exact Hall]. apply Qle_trans with (current_time f); assumption.
Qed.

Lemma while_loop_time (fuel : nat) :
  forall (f : Frame) (w : World) (f' : Frame) (w' : World),
    head f w -> while_loop hypot fuel f w = Ok f' w' ->
    current_time f <= current_time f'.
Proof.
  induction fuel as [|fuel IH]; intros f w f' w' Hh Hrun.
  - cbn [while_loop] in Hrun. destruct (loop_cond f); [discriminate|].
    injection Hrun as <- _. apply Qle_refl.
  - cbn [while_loop] in Hrun. destruct (loop_cond f) eqn:Hc.
    + unfold bind in Hrun.
      destruct (loop_body hypot f w) as [[fb|fc] w1| |] eqn:Hb; try discriminate.
      * injection Hrun as <- _. unfold loop_body in Hb.
        destruct (map time_remaining
                    (filter is_active (responders (assign_phase hypot w f)))).
        -- injection Hb as <- _. apply Qle_refl.
        -- unfold bind in Hb. destruct (process_phase hypot _ w); discriminate.
      * destruct (pass_time f w fc w1 Hh (proj2 (at_loop_head_time_ok f w Hh)) Hb)
          as [Hle _].
        apply Qle_trans with (current_time fc); [exact Hle|].
        apply (IH fc w1 f' w'); [|exact Hrun].
        exact (head_next hypot n_responders rooms0 exits0 speed start_position
                 w0 f w fc w1 Hh Hc Hb).
    + injection Hrun as <- _. apply Qle_refl.
Qed.

(** X13: when distances, base clearance durations and child counts are
    not negative and the speed is positive, simulation time never runs
    backwards: no countdown is negative at the head of a pass, a pass ends
    with a clock that is at least the one it started with, and the time the
    call returns is at least the clock at any loop head, so never
    negative. *)
Theorem time_never_decreases :
  forall (f : Frame) (w : World),
    at_loop_head hypot n_responders rooms0 exits0 speed start_position w0 f w ->
    0 <= current_time f
    /\ times_nonneg (responders f)
    /\ (forall f' w', loop_body hypot f w = Ok (Continue f') w' ->
          current_time f <= current_time f')
    /\ (forall fuel f' w', while_loop hypot fuel f w = Ok f' w' ->
          current_time f <= current_time f').
Proof.
  intros f w Hh. destruct (at_loop_head_time_ok f w Hh) as [H0 Hall].
  split; [exact H0|]. split; [|split].
  - unfold times_nonneg. eapply Forall_impl; [|exact Hall].
    intros r [Hr _]. exact Hr.
  - intros f' w' Hb. exact (proj1 (pass_time f w f' w' Hh Hall Hb)).
  - intros fuel f' w' Hrun. exact (while_loop_time fuel f w f' w' Hh Hrun).
Qed.

(** X14: under the same conditions the time that
    [find_fastest_evacuation] returns is never negative. *)
Theorem returned_time_nonneg :
  forall (fuel : nat) (t : Q) (w' : World),
    find_fastest_evacuation hypot fuel n_responders rooms0 exits0 speed
      start_position w0 = Ok t w' ->
    0 <= t.
Proof.
  intros fuel t w' H. unfold find_fastest_evacuation, bind, simulate in H.
  pose proof (speed_guard_passed speed speed_pos) as Hg. rewrite Hg in H.
  destruct (while_loop hypot fuel
              (initial_frame n_responders rooms0 exits0 speed start_position) w0)
    as [f' w1| |] eqn:Hrun; try discriminate.
  injection H as <- _.
  exact (while_loop_time fuel _ w0 f' w1
           (head_start hypot n_responders rooms0 exits0 speed start_position
              w0 Hg) Hrun).
Qed.

End TimeForward.

(* ------------------------------------------------------------------ *)
(** ** These properties on the concrete scenarios *)

Lemma hypot_isqrt_nonneg : forall x y, 0 <= hypot_isqrt x y.
Proof.
  intros x y. unfold hypot_isqrt, Qsqrt_floor, Qle. cbn [Qnum Qden].
  rewrite Z.mul_0_l, Z.mul_1_r. apply Z.sqrt_nonneg.
Qed.

Lemma world_A_nonneg :
  forall room, In room [0%nat] ->
    0 <= base_clear_time (room_at world_A room)
    /\ (0 <= children (occupants_of world_A room))%Z.
Proof. intros room _. split; [discriminate|cbn; lia]. Qed.



Lemma unabled_evac_time_monotone_witness :
  0 <= fst (_unabled_evac_time hypot_isqrt 1 (2, 0) [exit_E] 1)
  /\ fst (_unabled_evac_time hypot_isqrt 1 (2, 0) [exit_E] 1)
     <= fst (_unabled_evac_time hypot_isqrt 3 (2, 0) [exit_E] 1).
Proof.
  apply (unabled_evac_time_monotone hypot_isqrt 1 3 (2, 0) [exit_E] 1).
  - exact hypot_isqrt_nonneg.
  - lia.
Defined.

Lemma no_rooms_returns_zero_witness :
  find_fastest_evacuation hypot_isqrt 0 3 [] [exit_E] 1 (0, 0) world_A
  = Ok 0 world_A.
Proof.
  apply (no_rooms_returns_zero hypot_isqrt 0 3 [exit_E] 1 (0, 0) world_A).
  reflexivity.
Defined.

Lemma no_responders_returns_zero_witness :
  find_fastest_evacuation hypot_isqrt 1 0 [0%nat] [exit_E] 1 (0, 0) world_A
  = Ok 0 world_A.
Proof.
  apply (no_responders_returns_zero hypot_isqrt 1 0 [0%nat] [exit_E] 1 (0, 0)
           world_A).
  - lia.
  - reflexivity.
  - lia.
Defined.

Lemma no_exit_writes_nothing_witness :
  room_at (print "Responder arrived at room A door." world_A) = room_at world_A
  /\ occ_at (print "Responder arrived at room A door." world_A) = occ_at world_A.
Proof.
  apply (no_exit_writes_nothing hypot_isqrt 4 1 [0%nat] 1 (0, 0) world_A
           (print "Responder arrived at room A door." world_A)).
  reflexivity.
Defined.

Lemma pool_within_rooms_witness :
  rooms (initial_frame 2 [0%nat; 1%nat] [exit_E] 1 (0, 0)) = [0%nat; 1%nat]
  /\ exits (initial_frame 2 [0%nat; 1%nat] [exit_E] 1 (0, 0)) = [exit_E]
  /\ responder_speed (initial_frame 2 [0%nat; 1%nat] [exit_E] 1 (0, 0)) = 1
  /\ List.length (responders (initial_frame 2 [0%nat; 1%nat] [exit_E] 1 (0, 0)))
     = Z.to_nat (Z.max 2 0)
  /\ incl (remaining_rooms (initial_frame 2 [0%nat; 1%nat] [exit_E] 1 (0, 0)))
          [0%nat; 1%nat]
  /\ le (List.length (remaining_rooms
                        (initial_frame 2 [0%nat; 1%nat] [exit_E] 1 (0, 0))))
        (List.length [0%nat; 1%nat]).
Proof.
  apply (pool_within_rooms hypot_isqrt 2 [0%nat; 1%nat] [exit_E] 1 (0, 0)
           world_AB _ world_AB).
  apply head_start. reflexivity.
Defined.

Lemma simulation_terminates_witness :
  exists t w',
    find_fastest_evacuation hypot_isqrt 13 1 [0%nat] [exit_E] 1 (0, 0) world_A
    = Ok t w'.
Proof.
  apply (simulation_terminates hypot_isqrt 1 [0%nat] [exit_E] 1 (0, 0) world_A 13).
  - reflexivity.
  - vm_compute. lia.
Defined.

Lemma time_never_decreases_witness :
  0 <= current_time (initial_frame 1 [0%nat] [exit_E] 1 (0, 0))
  /\ times_nonneg (responders (initial_frame 1 [0%nat] [exit_E] 1 (0, 0)))
  /\ (forall f' w',
        loop_body hypot_isqrt (initial_frame 1 [0%nat] [exit_E] 1 (0, 0)) world_A
        = Ok (Continue f') w' ->
        current_time (initial_frame 1 [0%nat] [exit_E] 1 (0, 0))
        <= current_time f')
  /\ (forall fuel f' w',
        while_loop hypot_isqrt fuel
          (initial_frame 1 [0%nat] [exit_E] 1 (0, 0)) world_A = Ok f' w' ->
        current_time (initial_frame 1 [0%nat] [exit_E] 1 (0, 0))
        <= current_time f').
Proof.
  apply (time_never_decreases hypot_isqrt 1 [0%nat] [exit_E] 1 (0, 0) world_A
           hypot_isqrt_nonneg).
  - reflexivity.
  - exact world_A_nonneg.
  - apply head_start. reflexivity.
Defined.

Lemma returned_time_nonneg_witness :
  find_fastest_evacuation hypot_isqrt 4 1 [0%nat] [exit_E] 1 (0, 0) world_A
  = Ok 27 final_world_A
  /\ 0 <= 27.
Proof.
  assert (H : find_fastest_evacuation hypot_isqrt 4 1 [0%nat] [exit_E] 1 (0, 0)
                world_A = Ok 27 final_world_A) by reflexivity.
  split; [exact H|].
  exact (returned_time_nonneg hypot_isqrt 1 [0%nat] [exit_E] 1 (0, 0) world_A
           hypot_isqrt_nonneg eq_refl world_A_nonneg 4 27 final_world_A H).
Defined.

(* ------------------------------------------------------------------ *)
(** ** The program with distances that may not be finite *)

Section ExtAgrees.

Variable h : Q -> Q -> Q.

Local Abbreviation fh := (Ext.finite_hypot h).

Lemma ext_choose_nearest_room_finite (w : World) (r : ResponderState)
    (rooms_left : list ref) (s : Q) :
  Ext._choose_nearest_room fh w r rooms_left s
  = _choose_nearest_room h w r rooms_left s.
Proof. reflexivity. Qed.

Lemma ext_unabled_evac_time_finite (U : Z) (p : Point) (exits : list ExitNode)
    (s : Q) :
  Ext._unabled_evac_time fh U p exits s = _unabled_evac_time h U p exits s.
Proof.
  unfold Ext._unabled_evac_time, _unabled_evac_time.
  destruct ((U <=? 0)%Z || Qle_bool s 0 || is_empty exits); [reflexivity|].
  unfold Ext._nearest_exit, _nearest_exit.
  destruct exits as [|e0 rest]; [reflexivity|].
  change (fold_left (Ext.consider_exit fh p) (e0 :: rest) None)
    with (fold_left (consider_exit h p) (e0 :: rest) None).
  destruct (fold_left (consider_exit h p) (e0 :: rest) None) as [[ex d]|];
    reflexivity.
Qed.

Lemma ext_assign_idle_finite (w : World) (s : Q) (rs : list ResponderState) :
  forall av, Ext.assign_idle fh w s rs av = assign_idle h w s rs av.
Proof.
  induction rs as [|r rest IH]; intros av; [reflexivity|].
  cbn [Ext.assign_idle assign_idle].
  change (Ext.assign_one fh w s r av) with (assign_one h w s r av).
  destruct (assign_one h w s r av) as [r' av']. rewrite IH. reflexivity.
Qed.

Lemma ext_process_one_finite (exits : list ExitNode) (s : Q) (r : ResponderState)
    (remaining : list ref) (w : World) :
  Ext.process_one fh exits s r remaining w = process_one h exits s r remaining w.
Proof.
  unfold Ext.process_one, process_one.
  destruct (Qlt_bool eps (time_remaining r)); [reflexivity|].
  destruct (state r); try reflexivity.
  destruct (target_room r) as [room|]; [|reflexivity].
  destruct ((0 <? unabled (occupants_of w room))%Z && negb (is_empty exits));
    [|reflexivity].
  rewrite ext_unabled_evac_time_finite. reflexivity.
Qed.

Lemma ext_process_all_finite (exits : list ExitNode) (s : Q)
    (rs : list ResponderState) :
  forall remaining w,
    Ext.process_all fh exits s rs remaining w
    = process_all h exits s rs remaining w.
Proof.
  induction rs as [|r rest IH]; intros remaining w; [reflexivity|].
  cbn [Ext.process_all process_all]. unfold bind.
  rewrite ext_process_one_finite.
  destruct (process_one h exits s r remaining w) as [[r1 rem1] w1| |];
    [|reflexivity|reflexivity].
  rewrite IH. reflexivity.
Qed.

Lemma ext_loop_body_finite (f : Frame) (w : World) :
  Ext.loop_body fh f w = loop_body h f w.
Proof.
  unfold Ext.loop_body, loop_body, Ext.assign_phase, assign_phase.
  rewrite ext_assign_idle_finite.
  destruct (map time_remaining _) as [|t ts]; [reflexivity|].
  unfold bind, Ext.process_phase, process_phase, bind.
  rewrite ext_process_all_finite. reflexivity.
Qed.

Lemma ext_while_loop_finite (fuel : nat) :
  forall f w, Ext.while_loop fh fuel f w = while_loop h fuel f w.
Proof.
  induction fuel as [|fuel IH]; intros f w; [reflexivity|].
  cbn [Ext.while_loop while_loop]. destruct (loop_cond f); [|reflexivity].
  unfold bind. rewrite ext_loop_body_finite.
  destruct (loop_body h f w) as [[fb|fc] w1| |]; try reflexivity.
  apply IH.
Qed.

Lemma ext_simulate_finite (fuel : nat) (n : Z) (rooms0 : list ref)
    (exits0 : list ExitNode) (s : Q) (start : Point) (w : World) :
  Ext.simulate fh fuel n rooms0 exits0 s start w
  = simulate h fuel n rooms0 exits0 s start w.
Proof.
  unfold Ext.simulate, simulate. destruct (Qle_bool s 0); [reflexivity|].
  apply ext_while_loop_finite.
Qed.

(** When [hypot] is always finite, the program of [Ext] is the program of
    [Sim]. *)
Lemma ext_find_fastest_evacuation_finite (fuel : nat) (n : Z)
    (rooms0 : list ref) (exits0 : list ExitNode) (s : Q) (start : Point)
    (w : World) :
  Ext.find_fastest_evacuation fh fuel n rooms0 exits0 s start w
  = find_fastest_evacuation h fuel n rooms0 exits0 s start w.
Proof.
  unfold Ext.find_fastest_evacuation, find_fastest_evacuation, bind.
  rewrite ext_simulate_finite. reflexivity.
Qed.

End ExtAgrees.

Section ExtScans.

Variable hypot : Q -> Q -> Ext.distance.

Lemma ext_consider_door_best (pos : Point) (room : ref) (d : Point)
    (pre : list (ref * Point)) (best : option (ref * Point * Q)) :
  best_of hypot pos pre best ->
  best_of hypot pos (pre ++ [(room, d)]) (Ext.consider_door hypot pos room best d).
Proof.
  intros Hb. unfold Ext.consider_door.
  destruct (Ext._distance hypot pos d) as [dist|] eqn:Hd.
  - destruct best as [[[br bd] bq]|]; cbn [best_of] in *.
    + destruct Hb as (Hin & Hfin & Hmin).
      destruct (Qlt_bool dist bq) eqn:E.
      * apply Qlt_bool_true in E. split; [|split].
        -- apply in_or_app. right. left. reflexivity.
        -- exact Hd.
        -- intros c d' Hc Hcd. apply in_app_or in Hc.
           destruct Hc as [Hc|[<-|[]]].
           ++ apply Qlt_le_weak. eapply Qlt_le_trans; [exact E|].
              exact (Hmin c d' Hc Hcd).
           ++ cbn [snd] in Hcd. rewrite Hd in Hcd. injection Hcd as <-.
              apply Qle_refl.
      * apply Qlt_bool_false in E. split; [|split].
        -- apply in_or_app. left. exact Hin.
        -- exact Hfin.
        -- intros c d' Hc Hcd. apply in_app_or in Hc.
           destruct Hc as [Hc|[<-|[]]]; [exact (Hmin c d' Hc Hcd)|].
           cbn [snd] in Hcd. rewrite Hd in Hcd. injection Hcd as <-. exact E.
    + split; [|split].
      * apply in_or_app. right. left. reflexivity.
      * exact Hd.
      * intros c d' Hc Hcd. apply in_app_or in Hc.
        destruct Hc as [Hc|[<-|[]]].
        -- rewrite (Hb c Hc) in Hcd. discriminate.
        -- cbn [snd] in Hcd. rewrite Hd in Hcd. injection Hcd as <-.
           apply Qle_refl.
  - destruct best as [[[br bd] bq]|]; cbn [best_of] in *.
    + destruct Hb as (Hin & Hfin & Hmin). split; [|split].
      * apply in_or_app. left. exact Hin.
      * exact Hfin.
      * intros c d' Hc Hcd. apply in_app_or in Hc.
        destruct Hc as [Hc|[<-|[]]]; [exact (Hmin c d' Hc Hcd)|].
        cbn [snd] in Hcd. rewrite Hd in Hcd. discriminate.
    + intros c Hc. apply in_app_or in Hc.
      destruct Hc as [Hc|[<-|[]]]; [exact (Hb c Hc)|exact Hd].
Qed.

Lemma ext_door_fold_best (pos : Point) (room : ref) (ds : list Point) :
  forall (pre : list (ref * Point)) (best : option (ref * Point * Q)),
    best_of hypot pos pre best ->
    best_of hypot pos (pre ++ map (pair room) ds)
      (fold_left (Ext.consider_door hypot pos room) ds best).
Proof.
  induction ds as [|d ds IH]; intros pre best Hb.
  - cbn. rewrite app_nil_r. exact Hb.
  - cbn [fold_left map].
    replace (pre ++ (room, d) :: map (pair room) ds)
      with ((pre ++ [(room, d)]) ++ map (pair room) ds)
      by (rewrite <- app_assoc; reflexivity).
    apply IH. apply ext_consider_door_best. exact Hb.
Qed.

Lemma ext_room_fold_best (w : World) (pos : Point) (l : list ref) :
  forall (pre : list (ref * Point)) (best : option (ref * Point * Q)),
    best_of hypot pos pre best ->
    best_of hypot pos (pre ++ candidates w l)
      (fold_left (Ext.consider_room hypot w pos) l best).
Proof.
  induction l as [|room l IH]; intros pre best Hb.
  - cbn. rewrite app_nil_r. exact Hb.
  - cbn [fold_left candidates flat_map]. rewrite app_assoc.
    apply IH. unfold Ext.consider_room. apply ext_door_fold_best. exact Hb.
Qed.

(** The two outcomes of [_choose_nearest_room]. *)
Lemma ext_choose_nearest_room_cases (w : World) (r : ResponderState)
    (rooms_left : list ref) (s : Q) :
  (out_of_reach hypot w (position r) rooms_left
   /\ Ext._choose_nearest_room hypot w r rooms_left s = (None, None, 0))
  \/ (exists room door d,
        best_of hypot (position r) (candidates w rooms_left) (Some (room, door, d))
        /\ Ext._choose_nearest_room hypot w r rooms_left s
           = (Some room, Some door, if Qlt_bool 0 s then d / s else 0)).
Proof.
  unfold Ext._choose_nearest_room.
  destruct rooms_left as [|r0 rest] eqn:E.
  - left. split; [intros c []|reflexivity].
  - rewrite <- E.
    pose proof (ext_room_fold_best w (position r) rooms_left [] None) as Hb.
    cbn [app] in Hb. specialize (Hb ltac:(intros c [])).
    destruct (fold_left (Ext.consider_room hypot w (position r)) rooms_left None)
      as [[[room door] d]|].
    + right. exists room, door, d. split; [exact Hb|reflexivity].
    + left. split; [exact Hb|reflexivity].
Qed.

Lemma candidate_member (w : World) (l : list ref) (room : ref) (door : Point) :
  In (room, door) (candidates w l) ->
  In room l /\ In door (door_positions_or_center w room).
Proof.
  intros H. split; [exact (candidates_room_in w l (room, door) H)|].
  unfold candidates in H. apply in_flat_map in H.
  destruct H as (room' & _ & Hin). apply in_map_iff in Hin.
  destruct Hin as (d & Hd & Hin). injection Hd as -> ->. exact Hin.
Qed.

(** X3: [_choose_nearest_room] returns the none-triple exactly when no
    candidate access point is at a finite distance from the responder (an
    empty list included: [hypot] returned [inf] or [nan] for every door);
    otherwise it returns a room of the list and one of that room's own
    access points (a door position, or the centre when the room has no
    door), whose distance d is finite and not above that of any other
    candidate at a finite distance, with travel time d/s for a positive
    speed and 0 for a speed <= 0. *)
Theorem choose_nearest_room_member :
  forall (w : World) (r : ResponderState) (rooms_left : list ref) (s : Q),
    (out_of_reach hypot w (position r) rooms_left
     /\ Ext._choose_nearest_room hypot w r rooms_left s = (None, None, 0))
    \/ (exists room door d t,
          Ext._choose_nearest_room hypot w r rooms_left s
          = (Some room, Some door, t)
          /\ In room rooms_left
          /\ In door (door_positions_or_center w room)
          /\ Ext._distance hypot (position r) door = Ext.Finite d
          /\ (forall c d', In c (candidates w rooms_left) ->
                Ext._distance hypot (position r) (snd c) = Ext.Finite d' ->
                d <= d')
          /\ (0 < s -> t = d / s)
          /\ (s <= 0 -> t = 0)).
Proof.
  intros w r rooms_left s.
  destruct (ext_choose_nearest_room_cases w r rooms_left s)
    as [H|(room & door & d & (Hin & Hfin & Hmin) & Heq)]; [left; exact H|].
  right. exists room, door, d, (if Qlt_bool 0 s then d / s else 0).
  destruct (candidate_member w rooms_left room door Hin) as [Hroom Hdoor].
  repeat split; try assumption.
  - intros Hs. apply Qlt_bool_true in Hs. rewrite Hs. reflexivity.
  - intros Hs. apply Qlt_bool_false in Hs. rewrite Hs. reflexivity.
Qed.

(** [_nearest_exit] returns an exit only with a finite distance. *)
Lemma ext_nearest_exit_finite (p : Point) (exits : list ExitNode) :
  snd (Ext._nearest_exit hypot p exits) = Ext.NotFinite ->
  fst (Ext._nearest_exit hypot p exits) = None.
Proof.
  unfold Ext._nearest_exit. destruct exits as [|e0 rest]; [reflexivity|].
  destruct (fold_left (Ext.consider_exit hypot p) (e0 :: rest) None)
    as [[e d]|]; [discriminate|reflexivity].
Qed.

(** When nobody is active after the assignment loop, the loop changed
    nothing: every responder was idle already, and none could be given a
    room. *)
Lemma ext_assign_idle_nobody (w : World) (s : Q) (rs : list ResponderState) :
  forall av,
    existsb is_active (fst (Ext.assign_idle hypot w s rs av)) = false ->
    fst (Ext.assign_idle hypot w s rs av) = rs
    /\ forall r, In r rs -> out_of_reach hypot w (position r) av.
Proof.
  induction rs as [|r rest IH]; intros av H; [split; [reflexivity|intros r []]|].
  cbn [Ext.assign_idle] in *.
  assert (Hone : is_active (fst (Ext.assign_one hypot w s r av)) = false ->
                 Ext.assign_one hypot w s r av = (r, av)
                 /\ out_of_reach hypot w (position r) av).
  { unfold Ext.assign_one. destruct (state r) eqn:Hst.
    - destruct av as [|a0 av0] eqn:E; [intros _; split; [reflexivity|intros c []]|].
      rewrite <- E.
      destruct (ext_choose_nearest_room_cases w r av s)
        as [[Hout ->]|(room & door & d & _ & ->)].
      + intros _. split; [reflexivity|exact Hout].
      + cbn. discriminate.
    - cbn [fst]. unfold is_active. rewrite Hst. discriminate.
    - cbn [fst]. unfold is_active. rewrite Hst. discriminate.
    - cbn [fst]. unfold is_active. rewrite Hst. discriminate. }
  destruct (Ext.assign_one hypot w s r av) as [r' av'] eqn:E1.
  destruct (Ext.assign_idle hypot w s rest av') as [rest' av''] eqn:E2.
  cbn [fst existsb] in *. apply orb_false_iff in H. destruct H as [Hr Hrest].
  destruct (Hone Hr) as [Heq Hout]. injection Heq as -> ->.
  specialize (IH av). rewrite E2 in IH. cbn [fst] in IH.
  destruct (IH Hrest) as [-> Hall].
  split; [reflexivity|]. intros x [<-|Hx]; [exact Hout|exact (Hall x Hx)].
Qed.

End ExtScans.

Lemma no_times_no_active (rs : list ResponderState) :
  map time_remaining (filter is_active rs) = [] ->
  existsb is_active rs = false.
Proof.
  induction rs as [|r rs IH]; [reflexivity|].
  cbn [filter existsb]. destruct (is_active r); [discriminate|]. exact IH.
Qed.

Section ExtDriver.

Variable hypot : Q -> Q -> Ext.distance.

(** When every responder is idle and none has a room of the pool within
    reach, nobody is active after the assignment step. *)
Lemma ext_nobody_assignable (w : World) (f : Frame) :
  existsb is_active (responders f) = false ->
  (forall r, In r (responders f) ->
     out_of_reach hypot w (position r) (remaining_rooms f)) ->
  existsb is_active (responders (Ext.assign_phase hypot w f)) = false.
Proof.
  intros Hidle Hout. cbn [Ext.assign_phase responders].
  rewrite (none_taken_all_available w _ _ (no_active_none_taken _ Hidle)).
  generalize (remaining_rooms f) Hout. clear Hout.
  induction (responders f) as [|r rest IH]; intros av Hout; [reflexivity|].
  cbn [existsb] in Hidle. apply orb_false_iff in Hidle.
  destruct Hidle as [Hr Hrest].
  assert (Hone : Ext.assign_one hypot w (responder_speed f) r av = (r, av)).
  { unfold Ext.assign_one. destruct (state r); try reflexivity.
    destruct av as [|a0 av0] eqn:E; [reflexivity|]. rewrite <- E in *.
    destruct (ext_choose_nearest_room_cases hypot w r av (responder_speed f))
      as [[_ ->]|(room & door & d & (Hin & Hfin & _) & _)]; [reflexivity|].
    pose proof (Hout r (or_introl eq_refl) (room, door) Hin) as Hnf.
    cbn [snd] in Hnf. congruence. }
  cbn [Ext.assign_idle]. rewrite Hone.
  specialize (IH Hrest av (fun x Hx => Hout x (or_intror Hx))).
  destruct (Ext.assign_idle hypot w (responder_speed f) rest av) as [rest' av'].
  cbn [fst existsb] in *. rewrite Hr, IH. reflexivity.
Qed.

(** C4 (as the code has it): when rooms remain and, after the assignment
    step, no responder is active (there is no responder, or every one is
    idle and none could be given a room), the pass ends at the [break]: the
    loop stops in that pass, with the rooms still in the pool, and the
    function returns the time accumulated so far, a plain number as after a
    normal end. *)
Theorem unreachable_rooms_break :
  forall (fuel : nat) (f : Frame) (w : World),
    remaining_rooms f <> [] ->
    existsb is_active (responders (Ext.assign_phase hypot w f)) = false ->
    Ext.while_loop hypot (S fuel) f w = Ok (Ext.assign_phase hypot w f) w
    /\ remaining_rooms (Ext.assign_phase hypot w f) = remaining_rooms f
    /\ responders (Ext.assign_phase hypot w f) = responders f
    /\ current_time (Ext.assign_phase hypot w f) = current_time f
    /\ (f' <- Ext.while_loop hypot (S fuel) f ;; ret (current_time f')) w
       = Ok (current_time f) w.
Proof.
  intros fuel f w Hrem Hnone.
  assert (Hloop : Ext.while_loop hypot (S fuel) f w
                  = Ok (Ext.assign_phase hypot w f) w).
  { cbn [Ext.while_loop]. unfold loop_cond.
    replace (is_empty (remaining_rooms f)) with false
      by (destruct (remaining_rooms f); [congruence|reflexivity]).
    cbn [negb orb]. unfold bind, Ext.loop_body.
    rewrite (no_active_no_times _ Hnone). reflexivity. }
  split; [exact Hloop|]. split; [reflexivity|]. split.
  - exact (proj1 (ext_assign_idle_nobody hypot w _ _ _ Hnone)).
  - split; [reflexivity|]. unfold bind at 1. rewrite Hloop. reflexivity.
Qed.

(** How the loop ends: with every responder idle, and with the rooms left
    in the pool out of every responder's reach. *)
Lemma ext_while_loop_end (fuel : nat) :
  forall (f : Frame) (w : World) (f' : Frame) (w' : World),
    Ext.while_loop hypot fuel f w = Ok f' w' ->
    existsb is_active (responders f') = false
    /\ (forall r, In r (responders f') ->
          out_of_reach hypot w' (position r) (remaining_rooms f')).
Proof.
  assert (Hdone : forall f w, loop_cond f = false ->
            existsb is_active (responders f) = false
            /\ (forall r, In r (responders f) ->
                  out_of_reach hypot w (position r) (remaining_rooms f))).
  { intros f w Hc. unfold loop_cond in Hc. apply orb_false_iff in Hc.
    destruct Hc as [Hrem Hact]. split; [exact Hact|].
    destruct (remaining_rooms f); [|discriminate]. intros r _ c []. }
  induction fuel as [|fuel IH]; intros f w f' w' Hrun.
  - cbn [Ext.while_loop] in Hrun. destruct (loop_cond f) eqn:Hc; [discriminate|].
    injection Hrun as <- <-. exact (Hdone f w Hc).
  - cbn [Ext.while_loop] in Hrun. destruct (loop_cond f) eqn:Hc.
    + unfold bind in Hrun.
      destruct (Ext.loop_body hypot f w) as [[fb|fc] w1| |] eqn:Hb;
        try discriminate.
      * injection Hrun as <- <-. unfold Ext.loop_body in Hb.
        destruct (map time_remaining
                    (filter is_active (responders (Ext.assign_phase hypot w f))))
          as [|t ts] eqn:Ht.
        -- injection Hb as <- <-. apply no_times_no_active in Ht.
           split; [exact Ht|].
           cbn [Ext.assign_phase responders remaining_rooms] in *.
           destruct (ext_assign_idle_nobody hypot w _ _ _ Ht) as [Heq Hout].
           rewrite Heq in *.
           rewrite (none_taken_all_available w _ _ (no_active_none_taken _ Ht))
             in Hout.
           exact Hout.
        -- unfold bind in Hb.
           destruct (Ext.process_phase hypot _ w); discriminate.
      * exact (IH fc w1 f' w' Hrun).
    + injection Hrun as <- <-. exact (Hdone f w Hc).
Qed.

(** X10: when a call returns, every responder is idle, and a room that is
    still in the pool is out of reach: none of its access points is at a
    finite distance from any responder.  Hence with at least one responder
    and a [hypot] that is always finite the call returns with an empty
    pool: it did not leave the loop through the [break]. *)
Theorem returns_with_pool_out_of_reach :
  forall (fuel : nat) (n : Z) (rooms0 : list ref) (exits0 : list ExitNode)
         (s : Q) (start : Point) (w0 : World) (f' : Frame) (w' : World),
    Ext.simulate hypot fuel n rooms0 exits0 s start w0 = Ok f' w' ->
    Forall (fun r => state r = idle) (responders f')
    /\ (forall r, In r (responders f') ->
          out_of_reach hypot w' (position r) (remaining_rooms f'))
    /\ (forall h, hypot = Ext.finite_hypot h -> (1 <= n)%Z ->
          remaining_rooms f' = []).
Proof.
  intros fuel n rooms0 exits0 s start w0 f' w' Hrun.
  assert (Hsim := Hrun). unfold Ext.simulate in Hrun.
  destruct (Qle_bool s 0) eqn:Hs; [discriminate|].
  destruct (ext_while_loop_end fuel _ w0 f' w' Hrun) as [Hidle Hout].
  split; [apply no_active_all_idle; exact Hidle|]. split; [exact Hout|].
  intros h -> Hn. rewrite ext_simulate_finite in Hsim.
  unfold simulate in Hsim. rewrite Hs in Hsim.
  destruct (while_loop_ends_at_false h n rooms0 exits0 s start w0 fuel _ w0 f' w'
              Hn (head_start h n rooms0 exits0 s start w0 Hs) Hsim) as [Hc _].
  unfold loop_cond in Hc. apply orb_false_iff in Hc. destruct Hc as [Hrem _].
  destruct (remaining_rooms f'); [reflexivity|discriminate].
Qed.

End ExtDriver.

(** X12: with at least one responder, at least one exit and a [hypot] that
    is always finite, when the call returns no room of the caller's list has
    an unabled occupant left: every unabled count is <= 0, and it is exactly
    0 for a room whose count was not negative at the call. *)
Theorem all_unabled_evacuated :
  forall (h : Q -> Q -> Q) (fuel : nat) (n : Z) (rooms0 : list ref)
         (exits0 : list ExitNode) (s : Q) (start : Point) (w0 : World)
         (f' : Frame) (w' : World),
    (1 <= n)%Z -> exits0 <> [] ->
    Ext.simulate (Ext.finite_hypot h) fuel n rooms0 exits0 s start w0
      = Ok f' w' ->
    forall room, In room rooms0 ->
      (unabled (occupants_of w' room) <= 0)%Z
      /\ ((0 <= unabled (occupants_of w0 room))%Z ->
          unabled (occupants_of w' room) = 0%Z).
Proof.
  intros h fuel n rooms0 exits0 s start w0 f' w' Hn Hex Hrun room Hroom.
  rewrite ext_simulate_finite in Hrun. unfold simulate in Hrun.
  destruct (Qle_bool s 0) eqn:Hs; [discriminate|].
  destruct (while_loop_ends_at_false h n rooms0 exits0 s start w0 fuel _ w0 f' w'
              Hn (head_start h n rooms0 exits0 s start w0 Hs) Hrun) as [Hc Hh].
  destruct (at_loop_head_accounted h rooms0 n exits0 s start w0 f' w' Hex Hh)
    as [[Hpool _] [Hr Ho]].
  unfold loop_cond in Hc. apply orb_false_iff in Hc. destruct Hc as [Hrem _].
  assert (Hz : (unabled (occupants_of w' room) <= 0)%Z).
  { destruct (Hpool room Hroom) as [Hin|Hz]; [|exact Hz].
    destruct (remaining_rooms f'); [destruct Hin|discriminate]. }
  split; [exact Hz|]. intros H0.
  unfold occupants_of in *. rewrite Hr in *.
  destruct (Ho (occupants (room_at w0 room))) as (_ & _ & [Hu|Hu]); lia.
Qed.

(* ------------------------------------------------------------------ *)
(** ** A room out of reach: runs with a distance that overflows *)

Example hypot_float_overflows :
  hypot_float (0 - far) (0 - far) = Ext.NotFinite
  /\ hypot_float (4 - far) (0 - far) = Ext.NotFinite
  /\ hypot_float (0 - 2) (0 - 0) = Ext.Finite 2.
Proof. vm_compute. repeat split. Qed.

(** From (0, 0) the scan of rooms "F" and "A" passes over the door of "F"
    and returns room "A"; the scan of room "F" alone returns the
    none-triple. *)
Example choose_skips_far_room :
  Ext._choose_nearest_room hypot_float world_AF
    (mkResponderState idle 0 (0, 0) None None) [1%nat; 0%nat] 1
  = (Some 0%nat, Some (2, 0), 2 / 1)
  /\ Ext._choose_nearest_room hypot_float world_AF
       (mkResponderState idle 0 (0, 0) None None) [1%nat] 1
     = (None, None, 0).
Proof. vm_compute. split; reflexivity. Qed.

(** One responder, rooms "A" and "F": room "A" is cleared and its two
    unabled occupants carried out (27 time units); then the responder is
    idle at the exit, room "F" cannot be assigned, and the loop breaks. *)
Example run_world_AF :
  Ext.simulate hypot_float 4 1 [0%nat; 1%nat] [exit_E] 1 (0, 0) world_AF
  = Ok stuck_frame_AF final_world_AF.
Proof. vm_compute. reflexivity. Qed.

Lemma unreachable_rooms_break_witness :
  Ext.while_loop hypot_float 1 stuck_frame_AF final_world_AF
  = Ok (Ext.assign_phase hypot_float final_world_AF stuck_frame_AF)
       final_world_AF
  /\ remaining_rooms (Ext.assign_phase hypot_float final_world_AF stuck_frame_AF)
     = [1%nat]
  /\ responders (Ext.assign_phase hypot_float final_world_AF stuck_frame_AF)
     = [mkResponderState idle 0 (4, 0) None None]
  /\ current_time (Ext.assign_phase hypot_float final_world_AF stuck_frame_AF)
     = 27
  /\ (f' <- Ext.while_loop hypot_float 1 stuck_frame_AF ;;
      ret (current_time f')) final_world_AF
     = Ok 27 final_world_AF.
Proof.
  apply (unreachable_rooms_break hypot_float 0 stuck_frame_AF final_world_AF).
  - discriminate.
  - vm_compute. reflexivity.
Defined.

(** C4 as stated fails: with one responder at speed 1, the call over rooms
    "A" and "F" stops at the [break] with room "F" unreached and still in
    the pool, the call over room "A" alone stops because the loop condition
    fails, and the two calls return the same value, 27, in the same
    store. *)
Lemma unreachable_end_not_distinguished :
  (exists f,
      Ext.simulate hypot_float 4 1 [0%nat; 1%nat] [exit_E] 1 (0, 0) world_AF
      = Ok f final_world_AF
      /\ remaining_rooms f = [1%nat]
      /\ unabled (occupants_of final_world_AF 1%nat) = 1%Z)
  /\ (exists f,
        Ext.simulate hypot_float 4 1 [0%nat] [exit_E] 1 (0, 0) world_AF
        = Ok f final_world_AF
        /\ remaining_rooms f = [])
  /\ Ext.find_fastest_evacuation hypot_float 4 1 [0%nat; 1%nat] [exit_E] 1
       (0, 0) world_AF
     = Ok 27 final_world_AF
  /\ Ext.find_fastest_evacuation hypot_float 4 1 [0%nat] [exit_E] 1
       (0, 0) world_AF
     = Ok 27 final_world_AF.
Proof.
  split; [eexists; split; [vm_compute; reflexivity|split; reflexivity]|].
  split; [eexists; split; [vm_compute; reflexivity|reflexivity]|].
  split; vm_compute; reflexivity.
Qed.

Lemma returns_with_pool_out_of_reach_witness :
  (Forall (fun r => state r = idle) (responders stuck_frame_AF)
   /\ forall r, In r (responders stuck_frame_AF) ->
        out_of_reach hypot_float final_world_AF (position r)
          (remaining_rooms stuck_frame_AF))
  /\ remaining_rooms final_frame_A = [].
Proof.
  split.
  - destruct (returns_with_pool_out_of_reach hypot_float 4 1 [0%nat; 1%nat]
                [exit_E] 1 (0, 0) world_AF stuck_frame_AF final_world_AF)
      as (H1 & H2 & _).
    + vm_compute. reflexivity.
    + split; assumption.
  - destruct (returns_with_pool_out_of_reach (Ext.finite_hypot hypot_isqrt) 4 1
                [0%nat] [exit_E] 1 (0, 0) world_A final_frame_A final_world_A)
      as (_ & _ & H3).
    + reflexivity.
    + apply (H3 hypot_isqrt); [reflexivity|lia].
Defined.

Lemma all_unabled_evacuated_witness :
  (unabled (occupants_of final_world_A 0%nat) <= 0)%Z
  /\ ((0 <= unabled (occupants_of world_A 0%nat))%Z ->
      unabled (occupants_of final_world_A 0%nat) = 0%Z).
Proof.
  apply (all_unabled_evacuated hypot_isqrt 4 1 [0%nat] [exit_E] 1 (0, 0) world_A
           final_frame_A final_world_A).
  - lia.
  - discriminate.
  - reflexivity.
  - left. reflexivity.
Defined.
